(** * blazing-art-mcp: the paper extraction scripts

    A shallow embedding of [enhance_extraction.py] and [extract_papers.py]:
    the year rule applied to a paper's url, the parenthesised-acronym pass
    of the model recogniser, the synthesis of publication events and of
    author entities, and the merge of freshly synthesised records into the
    persisted store that both [main] functions perform.

    Python [str] values are [string]s holding the UTF-8 bytes of the text
    (byte-wise lexicographic order coincides with Python's code point
    order), Python sets of keys are [gset string], [Counter]s are
    association lists in insertion order, and the JSON objects of the
    store are records.  Where the scripts count characters, in
    [str(paper_id)[:8]], or read digits, in the url pattern, the
    embedding goes by characters too: a character is a lead byte with its
    continuation bytes, and a digit is any decimal digit of the Unicode
    character database, as "\d" and [int] have it. *)

From Stdlib Require Import Ascii DecimalString.
From Stdlib Require String.
From stdpp Require Import base list strings gmap sorting.

(** ** Records of the store *)

Record Entity := mkEntity {
  name : string;
  summary : string;
  tags : list string
}.

Record Event := mkEvent {
  id : string;
  timestamp : string;
  description : string;
  category : string
}.

Record Store := mkStore {
  entities : list Entity;
  events : list Event
}.

(** ** Python built-ins used by the scripts *)

Module Py.

(** [Some rest] when [s] is [p] followed by [rest]. *)
Fixpoint strip_prefix (p s : string) : option string :=
  match p, s with
  | EmptyString, _ => Some s
  | String a p', String b s' =>
      if decide (a = b) then strip_prefix p' s' else None
  | String _ _, EmptyString => None
  end.

(** [needle in haystack] on [str]: [needle] starts at some position. *)
Fixpoint contains (needle hay : string) : bool :=
  match strip_prefix needle hay, hay with
  | Some _, _ => true
  | None, String _ hay' => contains needle hay'
  | None, EmptyString => false
  end.

(** The longest prefix of [s] whose characters satisfy [p], and the rest. *)
Fixpoint span (p : ascii → bool) (s : string) : string * string :=
  match s with
  | String c s' =>
      if p c then let '(a, b) := span p s' in (String c a, b)
      else (EmptyString, s)
  | EmptyString => (EmptyString, EmptyString)
  end.

(** [len(s)] for a text of one-byte characters, which is what the tokens
    measured by the scripts are. *)
Definition len (s : string) : nat := String.length s.

(** The bytes 10xxxxxx, which continue a character of more than one
    byte; every other byte starts a character. *)
Definition is_continuation (c : ascii) : bool :=
  match c with
  | Ascii _ _ _ _ _ _ false true => true
  | _ => false
  end.

(** [s[:n]]: the first [n] characters of [s], each with all its bytes. *)
Fixpoint take_str (n : nat) (s : string) : string :=
  match s with
  | EmptyString => EmptyString
  | String c s' =>
      if is_continuation c then String c (take_str n s')
      else
        match n with
        | S n' => String c (take_str n' s')
        | O => EmptyString
        end
  end.

(** [chr(c)]: the string made of the character with code point [c], that
    is, its UTF-8 bytes. *)
Definition chr (c : N) : string :=
  if (c <? 0x80)%N then
    String (ascii_of_N c) EmptyString
  else if (c <? 0x800)%N then
    String (ascii_of_N (0xC0 + c / 0x40))
      (String (ascii_of_N (0x80 + c mod 0x40)) EmptyString)
  else if (c <? 0x10000)%N then
    String (ascii_of_N (0xE0 + c / 0x1000))
      (String (ascii_of_N (0x80 + (c / 0x40) mod 0x40))
         (String (ascii_of_N (0x80 + c mod 0x40)) EmptyString))
  else
    String (ascii_of_N (0xF0 + c / 0x40000))
      (String (ascii_of_N (0x80 + (c / 0x1000) mod 0x40))
         (String (ascii_of_N (0x80 + (c / 0x40) mod 0x40))
            (String (ascii_of_N (0x80 + c mod 0x40)) EmptyString))).

(** [str(n)] and [f"{n}"] for a non-negative [int]. *)
Definition str_of_nat (n : nat) : string :=
  NilZero.string_of_uint (Nat.to_uint n).

(** [str(z)] for an [int]. *)
Definition str_of_Z (z : Z) : string :=
  NilZero.string_of_int (Z.to_int z).

(** A [Counter] keeps its keys in the order of their first increment. *)
Definition Counter (K : Type) := list (K * nat).

(** [c[k] += 1]. *)
Fixpoint counter_incr `{EqDecision K} (k : K) (c : Counter K) : Counter K :=
  match c with
  | [] => [(k, 1)]
  | (k', n) :: c' =>
      if decide (k = k') then (k', S n) :: c' else (k', n) :: counter_incr k c'
  end.

(** [list.sort(key=...)] is a stable sort, so its result is the one any
    stable sort gives; it is written here as the insertion sort that puts
    each element in front of the first element it may precede.
    [before x y] says that [x] need not come after [y]. *)
Section Sort.
Context {A : Type} (before : A → A → bool).

Fixpoint sort_insert (x : A) (l : list A) : list A :=
  match l with
  | [] => [x]
  | y :: l' => if before x y then x :: y :: l' else y :: sort_insert x l'
  end.

Definition sort (l : list A) : list A := foldr sort_insert [] l.
End Sort.

(** [l.sort(key=k)] on string keys. *)
Definition sort_by_key {A} (k : A → string) : list A → list A :=
  sort (λ x y, String.leb (k x) (k y)).

(** [l.sort(key=k, reverse=True)]: descending, still keeping the original
    order of elements with equal keys. *)
Definition sort_by_key_reverse {A} (k : A → string) : list A → list A :=
  sort (λ x y, String.leb (k y) (k x)).

(** [c.most_common(n)], that is [sorted(c.items(), key=count,
    reverse=True)[:n]]: count descending, ties in first-seen order. *)
Definition most_common {K} (n : nat) (c : Counter K) : list (K * nat) :=
  take n (sort (λ x y, y.2 <=? x.2) c).

(** [c.most_common()]: all the entries, count descending, ties in
    first-seen order. *)
Definition most_common_all {K} (c : Counter K) : list (K * nat) :=
  sort (λ x y, y.2 <=? x.2) c.

(** [c[k]], which is 0 for a key that was never counted. *)
Fixpoint counter_get `{EqDecision K} (k : K) (c : Counter K) : nat :=
  match c with
  | [] => 0
  | (k', n) :: c' => if decide (k = k') then n else counter_get k c'
  end.

(** [for k in ks: c[k] += 1]. *)
Definition count_all `{EqDecision K} (c : Counter K) (ks : list K)
    : Counter K :=
  foldl (λ st k, counter_incr k st) c ks.

(** [hay.count(needle)] for a non-empty [needle]: its occurrences from
    left to right, none overlapping the one before; [skip] is the number
    of characters of the last occurrence still to be passed over. *)
Fixpoint count_from (skip : nat) (needle hay : string) : nat :=
  match hay with
  | EmptyString => 0
  | String _ hay' =>
      match skip with
      | S k => count_from k needle hay'
      | O =>
          match strip_prefix needle hay with
          | Some _ => S (count_from (len needle - 1) needle hay')
          | None => count_from 0 needle hay'
          end
      end
  end.

Definition count (needle hay : string) : nat := count_from 0 needle hay.

(** [s.replace(old, new)] for a non-empty [old]. *)
Fixpoint replace_from (skip : nat) (old new s : string) : string :=
  match s with
  | EmptyString => EmptyString
  | String c s' =>
      match skip with
      | S k => replace_from k old new s'
      | O =>
          match strip_prefix old s with
          | Some _ => new +:+ replace_from (len old - 1) old new s'
          | None => String c (replace_from 0 old new s')
          end
      end
  end.

Definition replace (old new s : string) : string := replace_from 0 old new s.

(** [sep.join(l)]. *)
Fixpoint join (sep : string) (l : list string) : string :=
  match l with
  | [] => EmptyString
  | [x] => x
  | x :: l' => x +:+ sep +:+ join sep l'
  end.

(** [d[k].append(v)] on a [defaultdict(list)], whose keys stay in the
    order of their first use. *)
Fixpoint dd_append (k v : string) (d : list (string * list string))
    : list (string * list string) :=
  match d with
  | [] => [(k, [v])]
  | (k', vs) :: d' =>
      if decide (k = k') then (k', vs ++ [v]) :: d'
      else (k', vs) :: dd_append k v d'
  end.

(** [s.replace(a, b)] for one-character [a] and [b]. *)
Fixpoint replace_char (a b : ascii) (s : string) : string :=
  match s with
  | EmptyString => EmptyString
  | String c s' =>
      String (if decide (c = a) then b else c) (replace_char a b s')
  end.

End Py.

(** ** The url pattern shared by the two scripts *)

Module Re.

(** The decimal digits of the Unicode character database (category Nd,
    version 14.0, the one of CPython 3.11) stand in runs of ten
    consecutive code points, from the digit zero to the digit nine.  These
    are the code points of the zeros: ASCII first, then Arabic-Indic,
    Extended Arabic-Indic, NKo, Devanagari and so on. *)
Definition decimal_zeros : list N :=
  [ 0x30; 0x660; 0x6F0; 0x7C0; 0x966; 0x9E6; 0xA66; 0xAE6; 0xB66; 0xBE6;
    0xC66; 0xCE6; 0xD66; 0xDE6; 0xE50; 0xED0; 0xF20; 0x1040; 0x1090;
    0x17E0; 0x1810; 0x1946; 0x19D0; 0x1A80; 0x1A90; 0x1B50; 0x1BB0;
    0x1C40; 0x1C50; 0xA620; 0xA8D0; 0xA900; 0xA9D0; 0xA9F0; 0xAA50;
    0xABF0; 0xFF10; 0x104A0; 0x10D30; 0x11066; 0x110F0; 0x11136; 0x111D0;
    0x112F0; 0x11450; 0x114D0; 0x11650; 0x116C0; 0x11730; 0x118E0;
    0x11950; 0x11C50; 0x11D50; 0x11DA0; 0x16A60; 0x16AC0; 0x16B50;
    0x1D7CE; 0x1D7D8; 0x1D7E2; 0x1D7EC; 0x1D7F6; 0x1E140; 0x1E2F0;
    0x1E950; 0x1FBF0 ]%N.

(** Every decimal digit, as the string of its character, with the value
    that [int] gives it. *)
Definition decimal_digits : list (string * nat) :=
  zero ← decimal_zeros;
  (λ d, (Py.chr (zero + N.of_nat d), d)) <$> seq 0 10.

(** The first character of [s] when it is one of the digits of [table]:
    its value, and what follows it in [s]. *)
Fixpoint digit_in (table : list (string * nat)) (s : string)
    : option (nat * string) :=
  match table with
  | [] => None
  | (c, d) :: table' =>
      match Py.strip_prefix c s with
      | Some rest => Some (d, rest)
      | None => digit_in table' s
      end
  end.

(** "\d" at the start of [s], with the value [int] gives the digit. *)
Definition digit (s : string) : option (nat * string) :=
  digit_in decimal_digits s.

(** The pattern "/abs/(\d{2})(\d{2})" tried at the start of [s]; the
    result is [int(match.group(1))]. *)
Definition match_abs (s : string) : option nat :=
  match Py.strip_prefix "/abs/" s with
  | Some s1 =>
      '(d1, s2) ← digit s1;
      '(d2, s3) ← digit s2;
      '(_, s4) ← digit s3;
      '(_, _) ← digit s4;
      Some (10 * d1 + d2)
  | None => None
  end.

(** [re.search]: the match at the leftmost position that has one. *)
Fixpoint search_abs (s : string) : option nat :=
  match match_abs s with
  | Some g => Some g
  | None =>
      match s with
      | EmptyString => None
      | String _ s' => search_abs s'
      end
  end.

End Re.

(** ** enhance_extraction.py *)

Module EnhanceExtraction.

(** *** [extract_year_from_url] *)

Definition extract_year_from_url (url : string) : option nat :=
  if Py.contains "arxiv.org" url then
    match Re.search_abs url with
    | Some year_prefix => Some (2000 + year_prefix)
    | None => None
    end
  else None.

(** *** [extract_models_from_text], pattern 2: acronyms in parentheses *)

Definition is_upper (c : ascii) : bool :=
  (65 <=? nat_of_ascii c) && (nat_of_ascii c <=? 90).
Definition is_lower (c : ascii) : bool :=
  (97 <=? nat_of_ascii c) && (nat_of_ascii c <=? 122).
Definition is_digit (c : ascii) : bool :=
  (48 <=? nat_of_ascii c) && (nat_of_ascii c <=? 57).

(** The class "[A-Za-z0-9\-]". *)
Definition is_ext (c : ascii) : bool :=
  is_upper c || is_lower c || is_digit c || bool_decide (c = "-"%char).

(** The acronym pattern tried at the start of [s]: an opening
    parenthesis, group 1 made of "[A-Z]{2,}" and then any number of
    "[A-Za-z0-9\-]", a closing parenthesis; the result is group 1.
    Both repetitions are greedy, and giving back characters never helps:
    the character that follows a shorter repetition is in the class,
    where the closing parenthesis is required. *)
Definition match_acronym (s : string) : option string :=
  match Py.strip_prefix "(" s with
  | Some s1 =>
      let '(up, s2) := Py.span is_upper s1 in
      if decide (2 ≤ Py.len up) then
        let '(ext, s3) := Py.span is_ext s2 in
        match Py.strip_prefix ")" s3 with
        | Some _ => Some (up +:+ ext)
        | None => None
        end
      else None
  | None => None
  end.

(** [re.findall]: scan from left to right; after a match, resume at its
    end.  [skip] is the number of characters of the last match that are
    still to be passed over. *)
Fixpoint findall_acronym (skip : nat) (s : string) : list string :=
  match s with
  | EmptyString => []
  | String _ s' =>
      match skip with
      | S k => findall_acronym k s'
      | O =>
          match match_acronym s with
          | Some g => g :: findall_acronym (S (Py.len g)) s'
          | None => findall_acronym 0 s'
          end
      end
  end.

(** The generator handed to [models.update] by pattern 2. *)
Definition acronym_models (text : string) : list string :=
  filter (λ m, 2 < Py.len m ∧ Py.len m < 15) (findall_acronym 0 text).

(** *** [categorize_paper] *)

Definition topic_keywords : list (string * list string) :=
  [ ("language-models",
      ["language model"; "llm"; "gpt"; "bert"; "transformer"; "nlp";
       "text generation"]);
    ("computer-vision",
      ["vision"; "image"; "visual"; "detection"; "segmentation"; "cv";
       "cnn"]);
    ("reinforcement-learning",
      ["reinforcement learning"; "rl"; "agent"; "reward"; "policy";
       "q-learning"]);
    ("generative-ai",
      ["generative"; "diffusion"; "gan"; "vae"; "synthesis"; "generation"]);
    ("multimodal",
      ["multimodal"; "cross-modal"; "vision-language"; "clip"; "dalle"]);
    ("optimization",
      ["optimization"; "efficient"; "compression"; "quantization";
       "pruning"]);
    ("robotics",
      ["robot"; "robotic"; "manipulation"; "navigation"; "embodied"]);
    ("security",
      ["security"; "privacy"; "adversarial"; "attack"; "defense"; "safety"]);
    ("theory",
      ["theory"; "theoretical"; "proof"; "bound"; "convergence";
       "complexity"]);
    ("applications",
      ["application"; "medical"; "finance"; "science"; "engineering";
       "biology"]) ].

(** *** [enhanced_extraction] *)

(** The id of a point of the paper collection: a JSON number or a
    string ([""] when the point has none). *)
Inductive PointId :=
| IdInt (n : Z)
| IdStr (s : string).

(** [str(paper_id)]. *)
Definition str (i : PointId) : string :=
  match i with
  | IdInt n => Py.str_of_Z n
  | IdStr s => s
  end.

(** A point, with the payload fields as [payload.get] returns them. *)
Record Paper := mkPaper {
  paper_id : PointId;
  title : string;
  authors : list string;
  categories : list string;
  abstract : string;
  url : string
}.

Section Extraction.

(** [str.lower], which the interpreter provides. *)
Variable lower : string → string.

Definition categorize_paper (title abstract : string)
    (categories : list string) : list string :=
  let text := lower (title +:+ " " +:+ abstract) in
  '(topic, keywords) ← topic_keywords;
  if existsb (λ keyword, Py.contains keyword text) keywords
  then [topic] else [].

(** The event built for a paper whose title and year are truthy. *)
Definition publication_event (p : Paper) (year : nat)
    (topics : list string) : Event :=
  {| id := Py.str_of_nat year +:+ "-" +:+ Py.take_str 8 (str (paper_id p));
     timestamp := Py.str_of_nat year +:+ "-01-01T00:00:00Z";
     description := title p;
     category := match topics with
                 | topic :: _ => topic
                 | [] => "research"
                 end |}.

(** What one turn of the loop over the papers appends to [events]. *)
Definition paper_events (p : Paper) : list Event :=
  let year := extract_year_from_url (url p) in
  let topics := categorize_paper (title p) (abstract p) (categories p) in
  match year with
  | Some y =>
      if bool_decide (title p ≠ "") && bool_decide (y ≠ 0)
      then [publication_event p y topics]
      else []
  | None => []
  end.

(** [events] when the loop over the papers ends. *)
Definition publication_events (papers : list Paper) : list Event :=
  papers ≫= paper_events.

End Extraction.

(** [author_stats] when the loop over the papers ends: every non-empty
    author of every paper is counted once. *)
Definition track_authors (stats : Py.Counter string) (p : Paper)
    : Py.Counter string :=
  foldl (λ st author,
           if bool_decide (author ≠ "") then Py.counter_incr author st
           else st)
        stats (authors p).

Definition author_stats (papers : list Paper) : Py.Counter string :=
  foldl track_authors [] papers.

(** [yearly_stats] after one more paper: its year is counted when it has
    one. *)
Definition track_year (stats : Py.Counter nat) (p : Paper)
    : Py.Counter nat :=
  match extract_year_from_url (url p) with
  | Some year =>
      if bool_decide (year ≠ 0) then Py.counter_incr year stats else stats
  | None => stats
  end.

Definition yearly_stats (papers : list Paper) : Py.Counter nat :=
  foldl track_year [] papers.

Definition author_entity (author : string) (count : nat) : Entity :=
  {| name := author;
     summary := "Prolific researcher with " +:+ Py.str_of_nat count +:+
       " papers in machine learning and AI. Active in cutting-edge research.";
     tags := ["researcher"; "ai-researcher"; "prolific-author"] |}.

(** The entities for prominent authors: the top 200 authors, those of
    them with at least two papers. *)
Definition author_entities (author_stats : Py.Counter string)
    : list Entity :=
  '(author, count) ← Py.most_common 200 author_stats;
  if decide (2 ≤ count) then [author_entity author count] else [].

(** *** [main] *)

(** One turn of the loops of [main] that add new unique records: the
    state is the list being extended and the set of keys seen so far. *)
Definition add_unique {A} (key : A → string)
    (st : list A * gset string) (x : A) : list A * gset string :=
  if decide (key x ∈ st.2) then st else (st.1 ++ [x], st.2 ∪ {[ key x ]}).

(** The list after the loop, started from the set of keys of the list. *)
Definition merge_unique {A} (key : A → string) (existing new : list A)
    : list A :=
  (foldl (add_unique key) (existing, list_to_set (key <$> existing)) new).1.

(** [main] from the point where [enhanced_extraction] has returned
    [(new_entities, new_events)] and the store has been loaded, up to the
    two lists handed to [json.dump]. *)
Definition main (store : Store) (new_entities : list Entity)
    (new_events : list Event) : Store :=
  {| entities := Py.sort_by_key name
                   (merge_unique name (entities store) new_entities);
     events := Py.sort_by_key_reverse timestamp
                   (merge_unique id (events store) new_events) |}.

(** *** [extract_institutions_from_text] *)

Definition KNOWN_INSTITUTIONS : list string :=
  [ "OpenAI"; "Anthropic"; "DeepMind"; "Google Research"; "Google Brain";
    "Meta AI"; "Facebook AI"; "FAIR"; "Microsoft Research"; "MSR";
    "MIT"; "Stanford"; "Berkeley"; "CMU"; "Cornell"; "Princeton";
    "Harvard"; "Yale"; "Oxford"; "Cambridge"; "ETH Zurich"; "EPFL";
    "Max Planck"; "INRIA"; "MILA"; "Vector Institute"; "AI2";
    "Hugging Face"; "Stability AI"; "Midjourney"; "Runway ML";
    "NVIDIA"; "AMD"; "Intel"; "IBM Research"; "Amazon Science";
    "Apple ML"; "Tesla AI"; "Baidu Research"; "Alibaba DAMO";
    "Tencent AI Lab"; "ByteDance"; "JD AI"; "Samsung Research" ].

(** The class "[a-zA-Z]". *)
Definition is_alpha (c : ascii) : bool := is_upper c || is_lower c.

(** The email pattern tried at the start of [s]: an at sign, then group 1
    made of one or more "[a-zA-Z0-9\-]", a dot and two or more
    "[a-zA-Z]"; the result is group 1.  The repetitions are greedy, and
    giving back characters never helps: the dot cannot follow a shorter
    first repetition, whose next character is in the class. *)
Definition match_email (s : string) : option string :=
  match Py.strip_prefix "@" s with
  | Some s1 =>
      let '(label, s2) := Py.span is_ext s1 in
      if decide (1 ≤ Py.len label) then
        match Py.strip_prefix "." s2 with
        | Some s3 =>
            let '(tld, _) := Py.span is_alpha s3 in
            if decide (2 ≤ Py.len tld) then Some (label +:+ "." +:+ tld)
            else None
        | None => None
        end
      else None
  | None => None
  end.

(** [re.findall] with the email pattern; [skip] as in
    [findall_acronym]. *)
Fixpoint findall_email (skip : nat) (s : string) : list string :=
  match s with
  | EmptyString => []
  | String _ s' =>
      match skip with
      | S k => findall_email k s'
      | O =>
          match match_email s with
          | Some domain => domain :: findall_email (Py.len domain) s'
          | None => findall_email 0 s'
          end
      end
  end.

Definition to_upper (c : ascii) : ascii :=
  if is_lower c then ascii_of_nat (nat_of_ascii c - 32) else c.
Definition to_lower (c : ascii) : ascii :=
  if is_upper c then ascii_of_nat (nat_of_ascii c + 32) else c.

(** [s.title()] for a text of ASCII letters, digits and hyphens: a letter
    is put in upper case when it does not follow a letter, in lower case
    when it does. *)
Fixpoint title_from (after_letter : bool) (s : string) : string :=
  match s with
  | EmptyString => EmptyString
  | String c s' =>
      String (if after_letter then to_lower c else to_upper c)
             (title_from (is_alpha c) s')
  end.

Definition title_case (s : string) : string := title_from false s.

(** [s.split('.')[0]]. *)
Definition split_head (s : string) : string :=
  (Py.span (λ c, negb (bool_decide (c = "."%char))) s).1.

(** The names that the loop over the email domains adds. *)
Definition email_institutions (text : string) : list string :=
  domain ← findall_email 0 text;
  if Py.contains "edu" domain || Py.contains "ac." domain then
    let inst_name := title_case (split_head domain) in
    if decide (2 < Py.len inst_name) then [inst_name] else []
  else [].

Definition extract_institutions_from_text (lower : string → string)
    (text : string) (authors : list string) : gset string :=
  list_to_set
    (filter (λ inst, Py.contains (lower inst) (lower text))
       KNOWN_INSTITUTIONS)
  ∪ list_to_set (email_institutions text).

(** *** [extract_all_papers] (the same in both scripts) *)

(** What the loop reads in a response: [result.points] and
    [result.next_page_offset], an absent key reading as no point and no
    offset. *)
Record Page := mkPage {
  points : list Paper;
  next_page_offset : option PointId
}.

(** Truth value of an offset: [None], [0] and [""] are false. *)
Definition truthy (offset : option PointId) : bool :=
  match offset with
  | Some (IdInt n) => bool_decide (n ≠ 0%Z)
  | Some (IdStr s) => bool_decide (s ≠ "")
  | None => false
  end.

(** The loop, for a collection that answers the request made with
    offset [o] ([None] when the request carries none) with the page
    [scroll o].  [fuel] bounds the number of requests; [None] is returned
    when it runs out. *)
Fixpoint scroll_loop (scroll : option PointId → Page) (fuel : nat)
    (papers : list Paper) (offset : option PointId) : option (list Paper) :=
  match fuel with
  | O => None
  | S fuel' =>
      let result := scroll (if truthy offset then offset else None) in
      let batch := points result in
      match batch with
      | [] => Some papers
      | _ :: _ =>
          let papers := papers ++ batch in
          let offset := next_page_offset result in
          if truthy offset then scroll_loop scroll fuel' papers offset
          else Some papers
      end
  end.

Definition extract_all_papers (scroll : option PointId → Page) (fuel : nat)
    : option (list Paper) :=
  scroll_loop scroll fuel [] None.

(** *** The rest of [enhanced_extraction], and the whole run *)

Section Corpus.

(** [str.lower], and the sets that [extract_models_from_text] and
    [extract_institutions_from_text] return, each as the list of its
    elements in the order in which the loop over it meets them. *)
Variable lower : string → string.
Variable models_of : string → list string.
Variable institutions_of : string → list string → list string.

Definition full_text (p : Paper) : string := title p +:+ " " +:+ abstract p.

(** The other three counters when the loop over the papers ends. *)
Definition model_stats (papers : list Paper) : Py.Counter string :=
  foldl (λ st p, Py.count_all st (models_of (full_text p))) [] papers.

Definition institution_stats (papers : list Paper) : Py.Counter string :=
  foldl (λ st p, Py.count_all st (institutions_of (full_text p) (authors p)))
    [] papers.

Definition topic_stats (papers : list Paper) : Py.Counter string :=
  foldl (λ st p,
           Py.count_all st
             (categorize_paper lower (title p) (abstract p) (categories p)))
    [] papers.

Definition model_entity (model : string) (count : nat) : Entity :=
  {| name := model;
     summary := "Important AI model/architecture referenced in " +:+
       Py.str_of_nat count +:+
       " research papers. Key component in modern machine learning.";
     tags := ["ai-model"; "architecture"; "machine-learning"] |}.

Definition model_entities (model_stats : Py.Counter string) : list Entity :=
  '(model, count) ← Py.most_common 100 model_stats;
  if decide (3 ≤ count) then [model_entity model count] else [].

Definition institution_entity (inst : string) (count : nat) : Entity :=
  {| name := inst;
     summary := "Leading research institution with " +:+
       Py.str_of_nat count +:+
       " papers in the collection. Major contributor to AI/ML advancement.";
     tags := ["institution"; "research-lab"; "university"] |}.

Definition institution_entities (institution_stats : Py.Counter string)
    : list Entity :=
  '(inst, count) ← Py.most_common 50 institution_stats;
  if decide (2 ≤ count) then [institution_entity inst count] else [].

Definition trend_event (topic : string) (count : nat) : Event :=
  {| id := "2024-trend-" +:+ topic;
     timestamp := "2024-06-01T00:00:00Z";
     description := "Research trend: " +:+ Py.str_of_nat count +:+
       " papers in " +:+ Py.replace_char "-" " " topic +:+
       " showing significant academic focus";
     category := "research-trend" |}.

Definition trend_events (topic_stats : Py.Counter string) : list Event :=
  '(topic, count) ← Py.most_common_all topic_stats;
  if decide (20 ≤ count) then [trend_event topic count] else [].

Definition milestone_event (year count : nat) : Event :=
  {| id := Py.str_of_nat year +:+ "-research-milestone";
     timestamp := Py.str_of_nat year +:+ "-06-01T00:00:00Z";
     description := "Research milestone: " +:+ Py.str_of_nat count +:+
       " significant AI/ML papers published in " +:+ Py.str_of_nat year;
     category := "yearly-milestone" |}.

Definition milestone_events (yearly_stats : Py.Counter nat) : list Event :=
  '(year, count) ← Py.most_common_all yearly_stats;
  if decide (50 ≤ count) then [milestone_event year count] else [].

Definition concepts : list Entity :=
  [ {| name := "Transformer Architecture";
       summary := "Revolutionary neural network architecture that powers modern language models and beyond. Introduced attention mechanism.";
       tags := ["architecture"; "deep-learning"; "breakthrough"; "attention"] |};
    {| name := "Diffusion Models";
       summary := "Generative modeling approach that creates high-quality images and other content through iterative denoising.";
       tags := ["generative-ai"; "image-generation"; "probabilistic-models"] |};
    {| name := "Large Language Models";
       summary := "Massive neural networks trained on vast text corpora, capable of understanding and generating human-like text.";
       tags := ["nlp"; "ai-models"; "foundation-models"; "text-generation"] |};
    {| name := "Foundation Models";
       summary := "Large-scale models trained on broad data that can be adapted to many downstream tasks.";
       tags := ["ai-paradigm"; "transfer-learning"; "general-ai"] |};
    {| name := "Model Context Protocol";
       summary := "Open standard by Anthropic for integrating AI models with external tools and data sources.";
       tags := ["ai-integration"; "protocol"; "tool-use"; "anthropic"] |} ].

(** The five counters do not depend on one another, so each is folded
    over the papers on its own; the two lists are built in the order of
    the source. *)
Definition enhanced_extraction (papers : list Paper)
    : list Entity * list Event :=
  (author_entities (author_stats papers) ++
   model_entities (model_stats papers) ++
   institution_entities (institution_stats papers) ++
   concepts,
   publication_events lower papers ++
   trend_events (topic_stats papers) ++
   milestone_events (yearly_stats papers)).

(** [main], given the papers that [extract_all_papers] returned and the
    store that was loaded. *)
Definition run (papers : list Paper) (store : Store) : Store :=
  let '(new_entities, new_events) := enhanced_extraction papers in
  main store new_entities new_events.

End Corpus.

End EnhanceExtraction.

(** ** extract_papers.py *)

Module ExtractPapers.

Definition extract_year_from_url (url : string) : option nat :=
  if Py.contains "arxiv.org" url then
    match Re.search_abs url with
    | Some year_prefix =>
        if bool_decide (0 ≤ year_prefix) then Some (2000 + year_prefix)
        else None
    | None => None
    end
  else None.

(** [existing + [e for e in new if key(e) not in existing_keys]]. *)
Definition merge_filter {A} (key : A → string) (existing new : list A)
    : list A :=
  let existing_keys : gset string := list_to_set (key <$> existing) in
  existing ++ filter (λ e, key e ∉ existing_keys) new.

(** [main] from the point where the extracted [(entities, events)] and
    the existing store are at hand, up to the lists handed to
    [json.dump]. *)
Definition main (store : Store) (new_entities : list Entity)
    (new_events : list Event) : Store :=
  {| entities := Py.sort_by_key name
                   (merge_filter name (entities store) new_entities);
     events := Py.sort_by_key_reverse timestamp
                   (merge_filter id (events store) new_events) |}.

(** *** [process_papers_to_entities_and_events] *)

Definition common_words : list string :=
  [ "The"; "This"; "These"; "That"; "Those"; "Our"; "We"; "In"; "On"; "At";
    "For"; "With"; "From"; "To"; "Of"; "And"; "Or"; "But"; "Not" ].

(** What the loop over the papers carries along. *)
Record Progress := mkProgress {
  found_entities : list Entity;
  found_events : list Event;
  seen_entities : gset string;
  author_papers : list (string * list string)
}.

Section Process.

(** The set [potential_models] of a text, as the list of its elements in
    the order in which the loop over it meets them (the three patterns
    match ASCII letters, digits and hyphens only); and [s[:n]] on a
    title, which counts characters and is left to the interpreter. *)
Variable potential_models_of : string → list string.
Variable str_prefix : nat → string → string.

Definition note_author (title : string) (st : Progress) (author : string)
    : Progress :=
  if bool_decide (author ≠ "" ∧ (author ∉ seen_entities st)) then
    {| found_entities := found_entities st;
       found_events := found_events st;
       seen_entities := seen_entities st ∪ {[ author ]};
       author_papers := Py.dd_append author title (author_papers st) |}
  else st.

Definition paper_event (p : EnhanceExtraction.Paper) (year : nat) : Event :=
  let authors := EnhanceExtraction.authors p in
  {| id := Py.str_of_nat year +:+ "-paper-" +:+
           EnhanceExtraction.str (EnhanceExtraction.paper_id p);
     timestamp := Py.str_of_nat year +:+ "-01-01T00:00:00Z";
     description := "Paper published: '" +:+ EnhanceExtraction.title p +:+
       "' by " +:+ Py.join ", " (take 3 authors) +:+
       (if decide (3 < length authors) then "..." else "");
     category := "research-publication" |}.

Definition note_event (p : EnhanceExtraction.Paper) (st : Progress)
    : Progress :=
  match extract_year_from_url (EnhanceExtraction.url p) with
  | Some year =>
      if bool_decide (EnhanceExtraction.title p ≠ "") && bool_decide (year ≠ 0)
      then {| found_entities := found_entities st;
              found_events := found_events st ++ [paper_event p year];
              seen_entities := seen_entities st;
              author_papers := author_papers st |}
      else st
  | None => st
  end.

Definition model_entity (p : EnhanceExtraction.Paper) (model : string)
    : Entity :=
  {| name := model;
     summary := "Model/System mentioned in: " +:+
       str_prefix 100 (EnhanceExtraction.title p) +:+ "...";
     tags := ["ai-model"; "research"] ++
       (Py.replace "cs." "" <$> take 3 (EnhanceExtraction.categories p)) |}.

Definition note_model (p : EnhanceExtraction.Paper) (text : string)
    (st : Progress) (model : string) : Progress :=
  if bool_decide ((model ∉ common_words) ∧ 2 < Py.len model ∧
                  (model ∉ seen_entities st)) then
    if decide (2 ≤ Py.count model text) then
      {| found_entities := found_entities st ++ [model_entity p model];
         found_events := found_events st;
         seen_entities := seen_entities st ∪ {[ model ]};
         author_papers := author_papers st |}
    else st
  else st.

(** One turn of the loop over the papers. *)
Definition process_paper (st : Progress) (p : EnhanceExtraction.Paper)
    : Progress :=
  let title := EnhanceExtraction.title p in
  let st := foldl (note_author title) st (EnhanceExtraction.authors p) in
  let st := note_event p st in
  let text := title +:+ " " +:+ EnhanceExtraction.abstract p in
  foldl (note_model p text) st (potential_models_of text).

Definition author_entity (entry : string * list string) : Entity :=
  let '(author, author_titles) := entry in
  {| name := author;
     summary := "Researcher with " +:+ Py.str_of_nat (length author_titles) +:+
       " paper(s) in the collection. Recent work includes: " +:+
       str_prefix 100 (default "" (head author_titles)) +:+ "...";
     tags := ["researcher"; "ai-researcher"; "author"] |}.

Definition category_counts (papers : list EnhanceExtraction.Paper)
    : Py.Counter string :=
  foldl (λ st p, Py.count_all st (EnhanceExtraction.categories p)) [] papers.

Definition category_event (category : string) (count : nat) : Event :=
  {| id := "2024-category-milestone-" +:+ Py.replace_char "." "-" category;
     timestamp := "2024-01-01T00:00:00Z";
     description := "Research milestone: " +:+ Py.str_of_nat count +:+
       " papers in " +:+ category +:+
       " category demonstrating significant activity in this field";
     category := "research-milestone" |}.

Definition category_events (counts : Py.Counter string) : list Event :=
  '(category, count) ← counts;
  if decide (50 ≤ count) then [category_event category count] else [].

Definition process_papers_to_entities_and_events
    (papers : list EnhanceExtraction.Paper) : list Entity * list Event :=
  let st := foldl process_paper (mkProgress [] [] ∅ []) papers in
  (found_entities st ++ (author_entity <$> author_papers st),
   found_events st ++ category_events (category_counts papers)).

(** [main], given the papers and the store. *)
Definition run (papers : list EnhanceExtraction.Paper) (store : Store)
    : Store :=
  let '(new_entities, new_events) :=
    process_papers_to_entities_and_events papers in
  main store new_entities new_events.

End Process.

End ExtractPapers.

(** ** Notions used to state the properties *)

(** The candidates that the loop of [enhance_extraction.main] appends when
    it starts with the keys [seen]: those whose key has not been seen, each
    key being seen from its first candidate on. *)
Fixpoint fresh {A} (key : A → string) (seen : gset string) (new : list A)
    : list A :=
  match new with
  | [] => []
  | x :: new' =>
      if decide (key x ∈ seen) then fresh key seen new'
      else x :: fresh key (seen ∪ {[ key x ]}) new'
  end.

(** [needle] occurs in [hay]. *)
Definition substring (needle hay : string) : Prop :=
  ∃ pre post, hay = pre +:+ needle +:+ post.

(** In [url], right after [pre], come "/abs/" and four decimal digits,
    the first two of which have the values [d1] and [d2]. *)
Definition abs_match_at (url pre : string) (d1 d2 : nat) : Prop :=
  ∃ c1 c2 c3 c4 d3 d4 post,
    url = pre +:+ "/abs/" +:+ c1 +:+ c2 +:+ c3 +:+ c4 +:+ post
    ∧ (c1, d1) ∈ Re.decimal_digits ∧ (c2, d2) ∈ Re.decimal_digits
    ∧ (c3, d3) ∈ Re.decimal_digits ∧ (c4, d4) ∈ Re.decimal_digits.

(** The number of characters of [s], which is what [len(s)] is for a
    text with characters of more than one byte: the bytes of [s] that
    start a character. *)
Fixpoint characters (s : string) : nat :=
  match s with
  | EmptyString => 0
  | String c s' =>
      (if Py.is_continuation c then 0 else 1) + characters s'
  end.

(** Every character of [s] satisfies [p]. *)
Fixpoint all_chars (p : ascii → bool) (s : string) : bool :=
  match s with
  | EmptyString => true
  | String c s' => p c && all_chars p s'
  end.

(** [tok] stands in parentheses somewhere in [text]. *)
Definition parenthesized (tok text : string) : Prop :=
  substring ("(" +:+ tok +:+ ")") text.

(** What group 1 of the acronym pattern matches: two or more capital
    letters, then letters of either case, digits and hyphens. *)
Definition acronym_shape (tok : string) : Prop :=
  ∃ up ext,
    tok = up +:+ ext ∧ 2 ≤ Py.len up ∧
    all_chars EnhanceExtraction.is_upper up ∧
    all_chars EnhanceExtraction.is_ext ext.

(** The shape in the spec's words: an all-caps token of two or more
    letters, optionally extended with hyphens and digits (capital letters
    may go on after them). *)
Definition spec_acronym_shape (tok : string) : Prop :=
  ∃ up ext,
    tok = up +:+ ext ∧ 2 ≤ Py.len up ∧
    all_chars EnhanceExtraction.is_upper up ∧
    all_chars (λ c, EnhanceExtraction.is_upper c ||
                    EnhanceExtraction.is_digit c ||
                    bool_decide (c = "-"%char)) ext.

(** What the loop of [process_papers_to_entities_and_events] keeps true:
    the names found so far are pairwise distinct, and so are the authors
    noted; the seen names are exactly these names and authors; no name
    is both; and every author has one title noted. *)
Definition process_invariant (st : ExtractPapers.Progress) : Prop :=
  NoDup (name <$> ExtractPapers.found_entities st) ∧
  NoDup (ExtractPapers.author_papers st).*1 ∧
  (∀ k, k ∈ ExtractPapers.seen_entities st ↔
        k ∈ name <$> ExtractPapers.found_entities st ∨
        k ∈ (ExtractPapers.author_papers st).*1) ∧
  (∀ k, k ∈ name <$> ExtractPapers.found_entities st →
        k ∉ (ExtractPapers.author_papers st).*1) ∧
  Forall (λ entry, length entry.2 = 1) (ExtractPapers.author_papers st).

(** Every noted author has a name, and has the title of a paper of
    [papers] that lists the author, and nothing else. *)
Definition titles_noted (papers : list EnhanceExtraction.Paper)
    (st : ExtractPapers.Progress) : Prop :=
  Forall (λ entry, ∃ p, p ∈ papers ∧
                        entry.1 ∈ EnhanceExtraction.authors p ∧
                        entry.1 ≠ "" ∧
                        entry.2 = [EnhanceExtraction.title p])
    (ExtractPapers.author_papers st).

(** The entities found so far are model entities, which their first two
    tags tell from author entities. *)
Definition models_found (st : ExtractPapers.Progress) : Prop :=
  Forall (λ e, ∃ rest, tags e = "ai-model" :: "research" :: rest)
    (ExtractPapers.found_entities st).

(** An email domain stands in [text]: an at sign, a [label] of letters,
    digits and hyphens, a dot and a [tld] of two or more letters that no
    letter follows. *)
Definition email_at (text label tld : string) : Prop :=
  ∃ pre post,
    text = pre +:+ "@" +:+ label +:+ "." +:+ tld +:+ post ∧
    1 ≤ Py.len label ∧ all_chars EnhanceExtraction.is_ext label ∧
    2 ≤ Py.len tld ∧ all_chars EnhanceExtraction.is_alpha tld ∧
    (∀ c post', post = String c post' → EnhanceExtraction.is_alpha c = false).

(** The collection serves [pages], one after the other, to the requests
    that start at [offset]: every page but the last has points and a
    true next offset, and the last one has no point or no true offset. *)
Fixpoint serves (scroll : option EnhanceExtraction.PointId →
                          EnhanceExtraction.Page)
    (offset : option EnhanceExtraction.PointId)
    (pages : list EnhanceExtraction.Page) : Prop :=
  match pages with
  | [] => False
  | page :: rest =>
      scroll offset = page ∧
      match rest with
      | [] =>
          EnhanceExtraction.points page = [] ∨
          EnhanceExtraction.truthy
            (EnhanceExtraction.next_page_offset page) = false
      | _ :: _ =>
          EnhanceExtraction.points page ≠ [] ∧
          EnhanceExtraction.truthy
            (EnhanceExtraction.next_page_offset page) = true ∧
          serves scroll (EnhanceExtraction.next_page_offset page) rest
      end
  end.

(** Three papers signed by two hundred authors, then two papers signed
    by one more author. *)
Definition crowd : list string :=
  (λ i, "Author " +:+ Py.str_of_nat i) <$> seq 0 200.

Definition crowd_papers : list EnhanceExtraction.Paper :=
  replicate 3 (EnhanceExtraction.mkPaper (EnhanceExtraction.IdInt 1)
                 "Survey" crowd [] "" "") ++
  replicate 2 (EnhanceExtraction.mkPaper (EnhanceExtraction.IdInt 2)
                 "Note" ["Z. Last"] [] "" "").

(** A collection of a hundred points: fifty papers of the category
    "cs.AI" and fifty of a category spelt "cs-AI". *)
Definition clash_papers : list EnhanceExtraction.Paper :=
  ((λ i, EnhanceExtraction.mkPaper (EnhanceExtraction.IdInt (Z.of_nat i))
           "On planning" ["A. Author"] ["cs.AI"] "" "") <$> seq 0 50) ++
  ((λ i, EnhanceExtraction.mkPaper (EnhanceExtraction.IdInt (Z.of_nat i))
           "On search" ["B. Author"] ["cs-AI"] "" "") <$> seq 50 50).

(** [merged] (the list before the sort) and [out] (the list written back)
    keep every record of [existing] and add only candidates whose key is
    not one of [existing], in candidate order; every new key is added. *)
Definition frame {A} (key : A → string) (existing new merged out : list A)
    : Prop :=
  ∃ added,
    merged = existing ++ added ∧
    out ≡ₚ existing ++ added ∧
    added `sublist_of` new ∧
    (∀ x, x ∈ added → key x ∉ key <$> existing) ∧
    (∀ x, x ∈ new → key x ∉ key <$> existing → key x ∈ key <$> added).

(** Two stores hold the same records, as sets. *)
Definition same_records (s1 s2 : Store) : Prop :=
  (∀ e, e ∈ entities s1 ↔ e ∈ entities s2) ∧
  (∀ e, e ∈ events s1 ↔ e ∈ events s2).

(** No two entities of the store share a name and no two events an id. *)
Definition unique_keys (s : Store) : Prop :=
  NoDup (name <$> entities s) ∧ NoDup (id <$> events s).

(** Entities ascending by name, events descending by timestamp. *)
Definition sorted_store (s : Store) : Prop :=
  StronglySorted (λ x y, String.le (name x) (name y)) (entities s) ∧
  StronglySorted (λ x y, String.le (timestamp y) (timestamp x)) (events s).

(** * Properties *)

(** ** The sort *)

Section SortFacts.
Context {A : Type} (before : A → A → bool).

Lemma sort_insert_perm x l : Py.sort_insert before x l ≡ₚ x :: l.
Proof.
  induction l as [|y l IH]; simpl; [done|].
  destruct (before x y); [done|].
  rewrite IH. apply Permutation_swap.
Qed.

Lemma sort_perm l : Py.sort before l ≡ₚ l.
Proof.
  induction l as [|x l IH]; simpl; [done|].
  by rewrite sort_insert_perm, IH.
Qed.

Lemma sort_insert_hd x l :
  HdRel (λ x y, Is_true (before x y)) x l →
  Py.sort_insert before x l = x :: l.
Proof.
  destruct 1 as [|y l Hxy]; simpl; [done|].
  by destruct (before x y).
Qed.

(** Sorting a sorted list leaves it as it is. *)
Lemma sort_sorted_id l :
  Sorted (λ x y, Is_true (before x y)) l → Py.sort before l = l.
Proof.
  induction 1 as [|x l Hl IH Hhd]; simpl; [done|].
  fold (Py.sort before l). rewrite IH. by apply sort_insert_hd.
Qed.

Hypothesis before_total : ∀ x y, before x y = true ∨ before y x = true.

Lemma sort_insert_sorted x l :
  Sorted (λ x y, Is_true (before x y)) l →
  Sorted (λ x y, Is_true (before x y)) (Py.sort_insert before x l).
Proof.
  induction 1 as [|y l Hl IH Hhd]; simpl.
  { repeat constructor. }
  destruct (before x y) eqn:Hxy.
  - constructor; [by constructor|]. constructor. by rewrite Hxy.
  - constructor; [done|].
    assert (Is_true (before y x)) as Hyx.
    { destruct (before_total x y) as [H|H]; [congruence|by rewrite H]. }
    destruct Hhd as [|z l Hyz]; simpl.
    + by constructor.
    + destruct (before x z); by constructor.
Qed.

Lemma sort_sorted l : Sorted (λ x y, Is_true (before x y)) (Py.sort before l).
Proof.
  induction l as [|x l IH]; simpl; [constructor|].
  by apply sort_insert_sorted.
Qed.

Lemma sort_idem l : Py.sort before (Py.sort before l) = Py.sort before l.
Proof. apply sort_sorted_id, sort_sorted. Qed.

End SortFacts.

Section KeyOrder.
Context {A : Type} (k : A → string).

Lemma leb_total_key (x y : A) :
  String.leb (k x) (k y) = true ∨ String.leb (k y) (k x) = true.
Proof. apply String.leb_total. Qed.

Lemma sort_by_key_perm l : Py.sort_by_key k l ≡ₚ l.
Proof. apply sort_perm. Qed.

Lemma sort_by_key_reverse_perm l : Py.sort_by_key_reverse k l ≡ₚ l.
Proof. apply sort_perm. Qed.

Lemma sort_by_key_idem l :
  Py.sort_by_key k (Py.sort_by_key k l) = Py.sort_by_key k l.
Proof. apply sort_idem. intros x y. apply leb_total_key. Qed.

Lemma sort_by_key_reverse_idem l :
  Py.sort_by_key_reverse k (Py.sort_by_key_reverse k l)
  = Py.sort_by_key_reverse k l.
Proof. apply sort_idem. intros x y. apply leb_total_key. Qed.

(** Ascending by key: every element is at most every later one. *)
Lemma sort_by_key_sorted l :
  StronglySorted (λ x y, String.le (k x) (k y)) (Py.sort_by_key k l).
Proof.
  apply Sorted_StronglySorted.
  - intros x y z. apply (transitivity (R:=String.le)).
  - apply (sort_sorted (λ x y, String.leb (k x) (k y))).
    intros x y. apply leb_total_key.
Qed.

(** Descending by key: every element is at least every later one. *)
Lemma sort_by_key_reverse_sorted l :
  StronglySorted (λ x y, String.le (k y) (k x)) (Py.sort_by_key_reverse k l).
Proof.
  apply Sorted_StronglySorted.
  - intros x y z ??. by apply (transitivity (R:=String.le)) with (k y).
  - apply (sort_sorted (λ x y, String.leb (k y) (k x))).
    intros x y. apply leb_total_key.
Qed.

End KeyOrder.

(** ** The merge of [enhance_extraction.main] *)

Section MergeUnique.
Context {A : Type} (key : A → string).

Lemma fresh_spec (l : list A) seen new :
  foldl (EnhanceExtraction.add_unique key) (l, seen) new
  = (l ++ fresh key seen new,
     seen ∪ list_to_set (key <$> fresh key seen new)).
Proof.
  revert l seen. induction new as [|x new IH]; intros l seen; simpl.
  { f_equal; [by rewrite app_nil_r | by rewrite (right_id_L ∅ (∪))]. }
  unfold EnhanceExtraction.add_unique at 2. simpl.
  destruct (decide (key x ∈ seen)); [apply IH|].
  rewrite IH. f_equal; [by rewrite <-app_assoc | ].
  simpl. by rewrite (assoc_L (∪)).
Qed.

Lemma merge_unique_fresh existing new :
  EnhanceExtraction.merge_unique key existing new
  = existing ++ fresh key (list_to_set (key <$> existing)) new.
Proof. unfold EnhanceExtraction.merge_unique. by rewrite fresh_spec. Qed.

Lemma fresh_sublist seen new : fresh key seen new `sublist_of` new.
Proof.
  revert seen. induction new as [|x new IH]; intros seen; simpl; [done|].
  destruct (decide (key x ∈ seen)).
  - by apply sublist_cons.
  - by apply sublist_skip.
Qed.

Lemma fresh_not_seen seen new x : x ∈ fresh key seen new → key x ∉ seen.
Proof.
  revert seen. induction new as [|y new IH]; intros seen; simpl.
  { by intros ?%elem_of_nil. }
  destruct (decide (key y ∈ seen)); [by apply IH|].
  intros [->|Hx]%elem_of_cons; [done|].
  apply IH in Hx. set_solver.
Qed.

Lemma fresh_NoDup seen new : NoDup (key <$> fresh key seen new).
Proof.
  revert seen. induction new as [|y new IH]; intros seen; simpl.
  { constructor. }
  destruct (decide (key y ∈ seen)); [by apply IH|].
  rewrite fmap_cons. constructor; [|by apply IH].
  intros (z & Hz & Hin)%list_elem_of_fmap.
  apply fresh_not_seen in Hin. set_solver.
Qed.

Lemma fresh_covers seen new x :
  x ∈ new → key x ∈ seen ∨ key x ∈ key <$> fresh key seen new.
Proof.
  revert seen. induction new as [|y new IH]; intros seen; simpl.
  { by intros ?%elem_of_nil. }
  intros [->|Hx]%elem_of_cons.
  - destruct (decide (key y ∈ seen)); [by left|right].
    rewrite fmap_cons. by left.
  - destruct (decide (key y ∈ seen)); [by apply IH|].
    rewrite fmap_cons.
    destruct (IH (seen ∪ {[key y]}) Hx) as [Hs|Hf].
    + apply elem_of_union in Hs as [?|Hs]; [by left|].
      apply elem_of_singleton in Hs as ->. right. by left.
    + right. by right.
Qed.

Lemma fresh_first seen new x :
  x ∈ fresh key seen new →
  ∃ l1 l2, new = l1 ++ x :: l2 ∧ key x ∉ key <$> l1.
Proof.
  revert seen. induction new as [|y new IH]; intros seen; simpl.
  { by intros ?%elem_of_nil. }
  destruct (decide (key y ∈ seen)) as [Hy|Hy].
  - intros Hx. pose proof (fresh_not_seen _ _ _ Hx) as Hns.
    destruct (IH _ Hx) as (l1 & l2 & -> & Hl1).
    exists (y :: l1), l2. split; [done|].
    rewrite fmap_cons, not_elem_of_cons. split; [congruence|done].
  - intros [->|Hx]%elem_of_cons.
    + exists [], new. split; [done|]. rewrite fmap_nil. apply not_elem_of_nil.
    + pose proof (fresh_not_seen _ _ _ Hx) as Hns.
      destruct (IH _ Hx) as (l1 & l2 & -> & Hl1).
      exists (y :: l1), l2. split; [done|].
      rewrite fmap_cons, not_elem_of_cons. split; [set_solver|done].
Qed.

Lemma fresh_all_seen seen new :
  (∀ x, x ∈ new → key x ∈ seen) → fresh key seen new = [].
Proof.
  revert seen. induction new as [|y new IH]; intros seen Hall; simpl; [done|].
  rewrite decide_True by (apply Hall; by left).
  apply IH. intros x Hx. apply Hall. by right.
Qed.

Lemma keys_perm (l1 l2 : list A) :
  l1 ≡ₚ l2 →
  (list_to_set (key <$> l1) : gset string) = list_to_set (key <$> l2).
Proof.
  intros Hp. apply set_eq. intros k.
  rewrite !elem_of_list_to_set. by rewrite Hp.
Qed.

Lemma merge_unique_NoDup existing new :
  NoDup (key <$> existing) →
  NoDup (key <$> EnhanceExtraction.merge_unique key existing new).
Proof.
  intros Hex. rewrite merge_unique_fresh, fmap_app.
  apply NoDup_app. split_and!; [done| |apply fresh_NoDup].
  intros k Hk (x & -> & Hx)%list_elem_of_fmap.
  apply fresh_not_seen in Hx. by rewrite elem_of_list_to_set in Hx.
Qed.

(** Once merged, merging the same candidates again adds nothing,
    whatever the order the merged list has been put in. *)
Lemma merge_unique_again existing new l :
  l ≡ₚ EnhanceExtraction.merge_unique key existing new →
  EnhanceExtraction.merge_unique key l new = l.
Proof.
  intros Hl. rewrite (merge_unique_fresh l).
  rewrite fresh_all_seen; [by rewrite app_nil_r|].
  intros x Hx. rewrite (keys_perm _ _ Hl), merge_unique_fresh.
  rewrite elem_of_list_to_set, fmap_app, elem_of_app.
  destruct (fresh_covers (list_to_set (key <$> existing)) new x Hx)
    as [Hs|Hf]; [left|by right].
  by rewrite elem_of_list_to_set in Hs.
Qed.

Lemma merge_unique_frame existing new out :
  out ≡ₚ EnhanceExtraction.merge_unique key existing new →
  frame key existing new
    (EnhanceExtraction.merge_unique key existing new) out.
Proof.
  intros Hout. exists (fresh key (list_to_set (key <$> existing)) new).
  rewrite <-merge_unique_fresh. split_and!; [done|done|apply fresh_sublist|..].
  - intros x Hx%fresh_not_seen. by rewrite elem_of_list_to_set in Hx.
  - intros x Hx Hnew.
    destruct (fresh_covers (list_to_set (key <$> existing)) new x Hx)
      as [Hs|Hf]; [|done].
    by rewrite elem_of_list_to_set in Hs.
Qed.

End MergeUnique.

(** ** The merge of [extract_papers.main] *)

Section MergeFilter.
Context {A : Type} (key : A → string).

Lemma filter_none (P : A → Prop) `{!∀ x, Decision (P x)} (l : list A) :
  (∀ x, x ∈ l → ¬ P x) → filter P l = [].
Proof.
  induction l as [|y l IH]; intros Hall; [done|].
  rewrite filter_cons_False by (apply Hall; by left).
  apply IH. intros x Hx. apply Hall. by right.
Qed.

Lemma merge_filter_NoDup existing new :
  NoDup (key <$> existing) → NoDup (key <$> new) →
  NoDup (key <$> ExtractPapers.merge_filter key existing new).
Proof.
  intros Hex Hnew. unfold ExtractPapers.merge_filter. rewrite fmap_app.
  apply NoDup_app. split_and!; [done|..].
  - intros k Hk (x & -> & Hx)%list_elem_of_fmap.
    apply list_elem_of_filter in Hx as [Hx _].
    by rewrite elem_of_list_to_set in Hx.
  - apply (sublist_NoDup _ (key <$> new)); [done|].
    apply fmap_sublist, sublist_filter.
Qed.

Lemma merge_filter_again existing new l :
  l ≡ₚ ExtractPapers.merge_filter key existing new →
  ExtractPapers.merge_filter key l new = l.
Proof.
  intros Hl. unfold ExtractPapers.merge_filter at 1.
  assert (filter (λ e, key e ∉ (list_to_set (key <$> l) : gset string)) new
          = []) as ->; [|by rewrite app_nil_r].
  apply filter_none. intros x Hx Hnot. apply Hnot.
  rewrite (keys_perm key _ _ Hl). unfold ExtractPapers.merge_filter.
  rewrite elem_of_list_to_set, fmap_app, elem_of_app.
  destruct (decide (key x ∈ key <$> existing)) as [|Hn]; [by left|right].
  apply list_elem_of_fmap_2, list_elem_of_filter. split; [|done].
  by rewrite elem_of_list_to_set.
Qed.

Lemma merge_filter_frame existing new out :
  out ≡ₚ ExtractPapers.merge_filter key existing new →
  frame key existing new (ExtractPapers.merge_filter key existing new) out.
Proof.
  intros Hout.
  exists (filter (λ e, key e ∉ (list_to_set (key <$> existing) : gset string))
            new).
  split_and!; [done|done|apply sublist_filter|..].
  - intros x [Hx _]%list_elem_of_filter.
    by rewrite elem_of_list_to_set in Hx.
  - intros x Hx Hnew. apply list_elem_of_fmap_2, list_elem_of_filter.
    split; [|done]. by rewrite elem_of_list_to_set.
Qed.

End MergeFilter.

(** ** The merge: idempotence, key uniqueness, frame, order *)

(** Closed decidable goals are settled by evaluation. *)
Ltac by_computation := apply (bool_decide_unpack _); vm_compute; exact I.

(** C1. Idempotence of the merge, in both scripts: merging the same
    candidate lists a second time, into the store the first merge
    produced, gives that store again; the two stores are equal as
    sequences, hence also as sets of records. *)
Theorem merge_idempotent (store : Store) (new_entities : list Entity)
    (new_events : list Event) :
  let once := EnhanceExtraction.main store new_entities new_events in
  let once' := ExtractPapers.main store new_entities new_events in
  (EnhanceExtraction.main once new_entities new_events = once ∧
   same_records (EnhanceExtraction.main once new_entities new_events) once) ∧
  (ExtractPapers.main once' new_entities new_events = once' ∧
   same_records (ExtractPapers.main once' new_entities new_events) once').
Proof.
  intros once once'.
  assert (EnhanceExtraction.main once new_entities new_events = once) as He.
  { unfold once, EnhanceExtraction.main; simpl. f_equal.
    - rewrite (merge_unique_again name (entities store));
        [apply sort_by_key_idem | apply sort_by_key_perm].
    - rewrite (merge_unique_again id (events store));
        [apply sort_by_key_reverse_idem | apply sort_by_key_reverse_perm]. }
  assert (ExtractPapers.main once' new_entities new_events = once') as Hp.
  { unfold once', ExtractPapers.main; simpl. f_equal.
    - rewrite (merge_filter_again name (entities store));
        [apply sort_by_key_idem | apply sort_by_key_perm].
    - rewrite (merge_filter_again id (events store));
        [apply sort_by_key_reverse_idem | apply sort_by_key_reverse_perm]. }
  rewrite He, Hp. by repeat split.
Qed.

(** C3. Frame property of the merge, in both scripts: the list before the
    sort is the existing list followed by the added candidates, the list
    written back is a rearrangement of it (so every existing record is
    there, unchanged and as many times as before), and the added
    candidates are candidates whose key is not a key of the existing
    store, in candidate order. *)
Theorem merge_frame (store : Store) (new_entities : list Entity)
    (new_events : list Event) :
  (frame name (entities store) new_entities
     (EnhanceExtraction.merge_unique name (entities store) new_entities)
     (entities (EnhanceExtraction.main store new_entities new_events)) ∧
   frame id (events store) new_events
     (EnhanceExtraction.merge_unique id (events store) new_events)
     (events (EnhanceExtraction.main store new_entities new_events))) ∧
  (frame name (entities store) new_entities
     (ExtractPapers.merge_filter name (entities store) new_entities)
     (entities (ExtractPapers.main store new_entities new_events)) ∧
   frame id (events store) new_events
     (ExtractPapers.merge_filter id (events store) new_events)
     (events (ExtractPapers.main store new_entities new_events))).
Proof.
  split; split; simpl.
  - apply merge_unique_frame, sort_by_key_perm.
  - apply merge_unique_frame, sort_by_key_reverse_perm.
  - apply merge_filter_frame, sort_by_key_perm.
  - apply merge_filter_frame, sort_by_key_reverse_perm.
Qed.

(** C4. Sort invariant, in both scripts: in the store written back the
    entities are non-decreasing by name and the events non-increasing by
    timestamp. *)
Theorem merge_sorted (store : Store) (new_entities : list Entity)
    (new_events : list Event) :
  sorted_store (EnhanceExtraction.main store new_entities new_events) ∧
  sorted_store (ExtractPapers.main store new_entities new_events).
Proof.
  split; split; simpl;
    (apply sort_by_key_sorted || apply sort_by_key_reverse_sorted).
Qed.

(** C10. The loop of [enhance_extraction.main] also removes duplicates
    among the candidates: the added candidates have pairwise distinct
    keys, none of them a key of the existing list, and each is the first
    candidate with its key; so the keys of the merged list are pairwise
    distinct whenever those of the existing list are, whatever the
    candidates. *)
Theorem merge_unique_dedups_candidates {A} (key : A → string)
    (existing new : list A) :
  ∃ added,
    EnhanceExtraction.merge_unique key existing new = existing ++ added ∧
    NoDup (key <$> added) ∧
    (∀ x, x ∈ added →
       (key x ∉ key <$> existing) ∧
       (∃ l1 l2, new = l1 ++ x :: l2 ∧ key x ∉ key <$> l1)) ∧
    (∀ x, x ∈ new → key x ∈ key <$> (existing ++ added)) ∧
    (NoDup (key <$> existing) → NoDup (key <$> (existing ++ added))).
Proof.
  exists (fresh key (list_to_set (key <$> existing)) new).
  split_and!.
  - apply merge_unique_fresh.
  - apply fresh_NoDup.
  - intros x Hx. split; [|by apply fresh_first in Hx].
    apply fresh_not_seen in Hx. by rewrite elem_of_list_to_set in Hx.
  - intros x Hx. rewrite fmap_app, elem_of_app.
    destruct (fresh_covers key (list_to_set (key <$> existing)) new x Hx)
      as [Hs|Hf]; [left|by right].
    by rewrite elem_of_list_to_set in Hs.
  - intros Hex. rewrite <-merge_unique_fresh. by apply merge_unique_NoDup.
Qed.

Lemma merge_unique_dedups_candidates_witness :
  EnhanceExtraction.merge_unique id
    [mkEvent "2024-trend-theory" "2024-06-01T00:00:00Z" "" "research-trend"]
    [mkEvent "2019-10000000" "2019-01-01T00:00:00Z" "one" "research";
     mkEvent "2019-10000000" "2019-01-01T00:00:00Z" "two" "theory"]
  = [mkEvent "2024-trend-theory" "2024-06-01T00:00:00Z" "" "research-trend";
     mkEvent "2019-10000000" "2019-01-01T00:00:00Z" "one" "research"]
  ∧ NoDup (id <$>
      EnhanceExtraction.merge_unique id
        [mkEvent "2024-trend-theory" "2024-06-01T00:00:00Z" "" "research-trend"]
        [mkEvent "2019-10000000" "2019-01-01T00:00:00Z" "one" "research";
         mkEvent "2019-10000000" "2019-01-01T00:00:00Z" "two" "theory"]).
Proof.
  split; [by vm_compute|].
  destruct (merge_unique_dedups_candidates id
    [mkEvent "2024-trend-theory" "2024-06-01T00:00:00Z" "" "research-trend"]
    [mkEvent "2019-10000000" "2019-01-01T00:00:00Z" "one" "research";
     mkEvent "2019-10000000" "2019-01-01T00:00:00Z" "two" "theory"])
    as (added & -> & _ & _ & _ & Hnd).
  apply Hnd. by_computation.
Defined.

(** ** Strings *)

Lemma append_nil_l (s : string) : "" +:+ s = s.
Proof. done. Qed.

Lemma append_cons (c : ascii) (s t : string) :
  String c s +:+ t = String c (s +:+ t).
Proof. done. Qed.

Lemma append_nil_r (s : string) : s +:+ "" = s.
Proof. induction s as [|c s IH]; [done|]. by rewrite append_cons, IH. Qed.

Lemma append_assoc (s t u : string) : (s +:+ t) +:+ u = s +:+ t +:+ u.
Proof. induction s as [|c s IH]; [done|]. by rewrite !append_cons, IH. Qed.

Lemma length_append (s t : string) :
  String.length (s +:+ t) = String.length s + String.length t.
Proof.
  induction s as [|c s IH]; [done|].
  rewrite append_cons. simpl. by rewrite IH.
Qed.

Lemma strip_prefix_spec (p s r : string) :
  Py.strip_prefix p s = Some r ↔ s = p +:+ r.
Proof.
  revert s. induction p as [|a p IH]; intros s; simpl.
  { rewrite append_nil_l. split; congruence. }
  destruct s as [|b s]; [done|].
  rewrite append_cons. destruct (decide (a = b)) as [->|Hab].
  - rewrite IH. split; congruence.
  - split; [done|]. congruence.
Qed.

Lemma contains_spec (needle hay : string) :
  Py.contains needle hay = true ↔ substring needle hay.
Proof.
  unfold substring. induction hay as [|c hay IH]; simpl.
  - destruct (Py.strip_prefix needle "") as [r|] eqn:Hp.
    + apply strip_prefix_spec in Hp. split; [intros _|done].
      exists "", r. by rewrite append_nil_l.
    + split; [done|]. intros (pre & post & Heq).
      destruct pre as [|a pre]; [|done]. rewrite append_nil_l in Heq.
      apply strip_prefix_spec in Heq. congruence.
  - destruct (Py.strip_prefix needle (String c hay)) as [r|] eqn:Hp.
    + apply strip_prefix_spec in Hp. split; [intros _|done].
      exists "", r. by rewrite append_nil_l.
    + rewrite IH. split.
      * intros (pre & post & ->). exists (String c pre), post.
        by rewrite append_cons.
      * intros (pre & post & Heq). destruct pre as [|a pre].
        { rewrite append_nil_l in Heq. apply strip_prefix_spec in Heq.
          congruence. }
        rewrite append_cons in Heq. injection Heq as -> ->. by exists pre, post.
Qed.

(** ** The year rule *)

(** Two strings that start one string: one of them starts the other. *)
Lemma append_eq_prefix (a b r r' : string) :
  a +:+ r = b +:+ r' →
  is_Some (Py.strip_prefix a b) ∨ is_Some (Py.strip_prefix b a).
Proof.
  revert b. induction a as [|c a IH]; intros [|c' b]; simpl; eauto.
  rewrite !append_cons. intros [= -> Heq].
  rewrite !decide_True by done. by apply IH.
Qed.

(** No digit of the table starts another one: a string starts with at
    most one of them. *)
Lemma decimal_digits_prefix_free (x y : string * nat) (r r' : string) :
  x ∈ Re.decimal_digits → y ∈ Re.decimal_digits →
  x.1 +:+ r = y.1 +:+ r' → x = y.
Proof.
  assert (forallb (λ x : string * nat,
            forallb (λ y : string * nat,
              implb (bool_decide (is_Some (Py.strip_prefix x.1 y.1)) ||
                     bool_decide (is_Some (Py.strip_prefix y.1 x.1)))
                    (bool_decide (x = y)))
              Re.decimal_digits) Re.decimal_digits = true) as Hall.
  { by vm_compute. }
  intros Hx%list_elem_of_In Hy%list_elem_of_In Heq.
  rewrite forallb_forall in Hall. specialize (Hall x Hx).
  rewrite forallb_forall in Hall. specialize (Hall y Hy).
  apply append_eq_prefix in Heq.
  destruct Heq as [Hp|Hp]; rewrite (bool_decide_eq_true_2 _ Hp) in Hall.
  - by apply bool_decide_eq_true in Hall.
  - rewrite orb_true_r in Hall. by apply bool_decide_eq_true in Hall.
Qed.

Lemma digit_in_sound (table : list (string * nat)) (s rest : string)
    (d : nat) :
  Re.digit_in table s = Some (d, rest) →
  ∃ c, (c, d) ∈ table ∧ s = c +:+ rest.
Proof.
  induction table as [|[c0 d0] table IH]; simpl; [done|].
  destruct (Py.strip_prefix c0 s) as [r|] eqn:Hp.
  - intros [= -> ->]. apply strip_prefix_spec in Hp.
    exists c0. split; [by left|done].
  - intros (c & Hin & ->)%IH. exists c. split; [by right|done].
Qed.

Lemma digit_in_complete (table : list (string * nat)) (c rest : string)
    (d : nat) :
  (∀ x y r r', x ∈ table → y ∈ table → x.1 +:+ r = y.1 +:+ r' → x = y) →
  (c, d) ∈ table → Re.digit_in table (c +:+ rest) = Some (d, rest).
Proof.
  induction table as [|[c0 d0] table IH]; intros Hfree Hin.
  { by apply elem_of_nil in Hin. }
  simpl. destruct (Py.strip_prefix c0 (c +:+ rest)) as [r|] eqn:Hp.
  - apply strip_prefix_spec in Hp.
    assert ((c, d) = (c0, d0)) as Heq.
    { apply (Hfree _ _ rest r); [done|by left|done]. }
    injection Heq as Hc Hd. subst c0 d0.
    apply (inj (String.append c)) in Hp. by subst r.
  - apply elem_of_cons in Hin as [Heq|Hin].
    + injection Heq as Hc Hd. subst c0 d0.
      assert (Py.strip_prefix c (c +:+ rest) = Some rest) as Hs.
      { by apply strip_prefix_spec. }
      congruence.
    + apply IH; [|done]. intros x y r r' Hx Hy. apply Hfree; by right.
Qed.

(** "\d" matches at the start of [s] exactly when [s] starts with a
    decimal digit. *)
Lemma digit_spec (s rest : string) (d : nat) :
  Re.digit s = Some (d, rest) ↔
  ∃ c, (c, d) ∈ Re.decimal_digits ∧ s = c +:+ rest.
Proof.
  split; [apply digit_in_sound|]. intros (c & Hin & ->).
  apply digit_in_complete; [|done].
  intros x y r r'. apply decimal_digits_prefix_free.
Qed.

Lemma match_abs_spec (s : string) (g : nat) :
  Re.match_abs s = Some g ↔
  ∃ d1 d2, abs_match_at s "" d1 d2 ∧ g = 10 * d1 + d2.
Proof.
  unfold Re.match_abs, abs_match_at. split.
  - destruct (Py.strip_prefix "/abs/" s) as [s1|] eqn:Hp; [|done].
    apply strip_prefix_spec in Hp as ->.
    destruct (Re.digit s1) as [[d1 s2]|] eqn:H1; [|done].
    cbn [mbind option_bind].
    destruct (Re.digit s2) as [[d2 s3]|] eqn:H2; [|done].
    cbn [mbind option_bind].
    destruct (Re.digit s3) as [[d3 s4]|] eqn:H3; [|done].
    cbn [mbind option_bind].
    destruct (Re.digit s4) as [[d4 post]|] eqn:H4; [|done].
    cbn [mbind option_bind]. intros [= <-].
    apply digit_spec in H1 as (c1 & H1 & ->), H2 as (c2 & H2 & ->),
      H3 as (c3 & H3 & ->), H4 as (c4 & H4 & ->).
    exists d1, d2. split; [|done].
    exists c1, c2, c3, c4, d3, d4, post. by rewrite append_nil_l.
  - intros (d1 & d2 & Hm & ->).
    destruct Hm as (c1 & c2 & c3 & c4 & d3 & d4 & post & -> & H1 & H2 & H3 & H4).
    rewrite append_nil_l.
    assert (Py.strip_prefix "/abs/"
              ("/abs/" +:+ c1 +:+ c2 +:+ c3 +:+ c4 +:+ post)
            = Some (c1 +:+ c2 +:+ c3 +:+ c4 +:+ post)) as ->.
    { by apply strip_prefix_spec. }
    rewrite (proj2 (digit_spec (c1 +:+ c2 +:+ c3 +:+ c4 +:+ post) _ d1))
      by eauto.
    cbn [mbind option_bind].
    rewrite (proj2 (digit_spec (c2 +:+ c3 +:+ c4 +:+ post) _ d2)) by eauto.
    cbn [mbind option_bind].
    rewrite (proj2 (digit_spec (c3 +:+ c4 +:+ post) _ d3)) by eauto.
    cbn [mbind option_bind].
    by rewrite (proj2 (digit_spec (c4 +:+ post) _ d4)) by eauto.
Qed.

Lemma abs_match_at_cons (c : ascii) (s pre : string) (d1 d2 : nat) :
  abs_match_at (String c s) (String c pre) d1 d2 ↔ abs_match_at s pre d1 d2.
Proof.
  unfold abs_match_at.
  split; intros (c1 & c2 & c3 & c4 & d3 & d4 & post & Heq & ?);
    exists c1, c2, c3, c4, d3, d4, post; (split; [|done]).
  - rewrite append_cons in Heq. congruence.
  - rewrite append_cons. congruence.
Qed.

Lemma abs_match_at_head (c c' : ascii) (s pre : string) (d1 d2 : nat) :
  abs_match_at (String c s) (String c' pre) d1 d2 → c' = c.
Proof.
  intros (c1 & c2 & c3 & c4 & d3 & d4 & post & Heq & _).
  rewrite append_cons in Heq. congruence.
Qed.

(** The search finds the match at the least position. *)
Lemma search_abs_leftmost (s pre : string) (d1 d2 : nat) :
  abs_match_at s pre d1 d2 →
  (∀ pre' d1' d2', abs_match_at s pre' d1' d2' →
     String.length pre ≤ String.length pre') →
  Re.search_abs s = Some (10 * d1 + d2).
Proof.
  revert pre. induction s as [|c s IH]; intros pre Hm Hleft.
  - destruct Hm as (c1 & c2 & c3 & c4 & d3 & d4 & post & Heq & _).
    destruct pre; [rewrite append_nil_l in Heq|]; done.
  - destruct pre as [|c' pre].
    + simpl.
      assert (Re.match_abs (String c s) = Some (10 * d1 + d2)) as ->; [|done].
      apply match_abs_spec. eauto.
    + pose proof (abs_match_at_head _ _ _ _ _ _ Hm) as ->.
      simpl. destruct (Re.match_abs (String c s)) as [g|] eqn:Hg.
      * apply match_abs_spec in Hg as (e1 & e2 & Hm' & ->).
        apply Hleft in Hm'. simpl in Hm'. lia.
      * apply (IH pre); [by apply abs_match_at_cons in Hm|].
        intros pre' d1' d2' Hm'.
        apply (abs_match_at_cons c) in Hm'. apply Hleft in Hm'.
        simpl in Hm'. lia.
Qed.

Lemma search_abs_none (s : string) :
  (¬ ∃ pre d1 d2, abs_match_at s pre d1 d2) → Re.search_abs s = None.
Proof.
  induction s as [|c s IH]; intros Hno; simpl; [done|].
  destruct (Re.match_abs (String c s)) as [g|] eqn:Hg.
  { apply match_abs_spec in Hg as (d1 & d2 & Hm & _). destruct Hno; eauto. }
  apply IH. intros (pre & d1 & d2 & Hm). apply Hno.
  exists (String c pre), d1, d2. by apply abs_match_at_cons.
Qed.

Lemma extract_year_same (url : string) :
  ExtractPapers.extract_year_from_url url
  = EnhanceExtraction.extract_year_from_url url.
Proof.
  unfold ExtractPapers.extract_year_from_url,
    EnhanceExtraction.extract_year_from_url.
  destruct (Py.contains "arxiv.org" url); [|done].
  destruct (Re.search_abs url) as [y|]; [|done].
  by rewrite bool_decide_eq_true_2 by lia.
Qed.

(** When the pattern matches somewhere, the search returns the first two
    digits of the match at the least position. *)
Lemma search_abs_some (s : string) :
  (∃ pre d1 d2, abs_match_at s pre d1 d2) →
  ∃ pre d1 d2,
    abs_match_at s pre d1 d2 ∧
    (∀ pre' d1' d2', abs_match_at s pre' d1' d2' →
       String.length pre ≤ String.length pre') ∧
    Re.search_abs s = Some (10 * d1 + d2).
Proof.
  induction s as [|c s IH]; intros (pre & d1 & d2 & Hm).
  { destruct Hm as (c1 & c2 & c3 & c4 & d3 & d4 & post & Heq & _).
    destruct pre; [rewrite append_nil_l in Heq|]; done. }
  destruct (Re.match_abs (String c s)) as [g|] eqn:Hg.
  - apply match_abs_spec in Hg as (e1 & e2 & Hm' & ->).
    exists "", e1, e2. split_and!; [done|simpl; lia|].
    by apply (search_abs_leftmost _ ""); [|simpl; lia].
  - assert (∀ pre' d1' d2', abs_match_at (String c s) pre' d1' d2' →
              ∃ pre'', pre' = String c pre'' ∧ abs_match_at s pre'' d1' d2')
      as Htail.
    { intros [|c' pre'] d1' d2' Hm'.
      - assert (Re.match_abs (String c s) = Some (10 * d1' + d2')) as Hg'.
        { apply match_abs_spec. eauto. }
        congruence.
      - pose proof (abs_match_at_head _ _ _ _ _ _ Hm') as ->.
        exists pre'. split; [done|]. by apply abs_match_at_cons in Hm'. }
    destruct (Htail _ _ _ Hm) as (pre0 & -> & Hm0).
    destruct IH as (pre1 & e1 & e2 & Hm1 & Hleft & Hs); [eauto|].
    exists (String c pre1), e1, e2. split_and!.
    + by apply abs_match_at_cons.
    + intros pre' d1' d2' Hm'.
      destruct (Htail _ _ _ Hm') as (pre'' & -> & Hm'').
      apply Hleft in Hm''. simpl. lia.
    + simpl. by rewrite Hg.
Qed.

Lemma digit_le_9 (c : string) (d : nat) :
  (c, d) ∈ Re.decimal_digits → d ≤ 9.
Proof.
  revert c d.
  assert (Forall (λ x : string * nat, x.2 ≤ 9) Re.decimal_digits) as Hall.
  { by_computation. }
  intros c d Hin. rewrite Forall_forall in Hall. apply (Hall _ Hin).
Qed.

Lemma search_abs_range (s : string) (g : nat) :
  Re.search_abs s = Some g → g ≤ 99.
Proof.
  induction s as [|c s IH]; simpl; [done|].
  destruct (Re.match_abs (String c s)) as [g'|] eqn:Hg; [|done].
  intros [= <-].
  apply match_abs_spec in Hg
    as (d1 & d2 & (c1 & c2 & c3 & c4 & d3 & d4 & post & _ & H1 & H2 & _) & ->).
  apply digit_le_9 in H1, H2. lia.
Qed.

(** An extracted year lies in 2000..2099. *)
Lemma extract_year_range (url : string) (year : nat) :
  EnhanceExtraction.extract_year_from_url url = Some year →
  2000 ≤ year ≤ 2099.
Proof.
  unfold EnhanceExtraction.extract_year_from_url.
  destruct (Py.contains "arxiv.org" url); [|done].
  destruct (Re.search_abs url) as [g|] eqn:Hg; [|done].
  apply search_abs_range in Hg. intros [= <-]. lia.
Qed.

Lemma extract_year_none (url : string) :
  ¬ (substring "arxiv.org" url ∧ ∃ pre d1 d2, abs_match_at url pre d1 d2) →
  EnhanceExtraction.extract_year_from_url url = None.
Proof.
  intros Hno. unfold EnhanceExtraction.extract_year_from_url.
  destruct (Py.contains "arxiv.org" url) eqn:Hc; [|done].
  apply contains_spec in Hc.
  rewrite search_abs_none; [done|]. intros Hm. by apply Hno.
Qed.

(** C5. The year rule, in both scripts.  When the url contains
    "arxiv.org" and has "/abs/" followed by four digits somewhere, the
    year is 2000 plus the number that the first two digits of the first
    such place form (so it lies in 2000..2099, with no rollover);
    otherwise there is no year, and the paper adds neither a publication
    event nor a count to the yearly statistics.  A digit is a decimal
    digit of any script, with its value, as the pattern and [int] take
    it. *)
Theorem year_rule (url : string) :
  (substring "arxiv.org" url →
   (∃ pre d1 d2, abs_match_at url pre d1 d2) →
   ∃ pre d1 d2,
     abs_match_at url pre d1 d2 ∧
     (∀ pre' d1' d2', abs_match_at url pre' d1' d2' →
        String.length pre ≤ String.length pre') ∧
     EnhanceExtraction.extract_year_from_url url
       = Some (2000 + (10 * d1 + d2)) ∧
     ExtractPapers.extract_year_from_url url
       = Some (2000 + (10 * d1 + d2))) ∧
  (¬ (substring "arxiv.org" url ∧ ∃ pre d1 d2, abs_match_at url pre d1 d2) →
   EnhanceExtraction.extract_year_from_url url = None ∧
   ExtractPapers.extract_year_from_url url = None ∧
   ∀ lower p, EnhanceExtraction.url p = url →
     EnhanceExtraction.paper_events lower p = [] ∧
     ∀ stats, EnhanceExtraction.track_year stats p = stats).
Proof.
  split.
  - intros Hc%contains_spec Hm.
    destruct (search_abs_some url Hm) as (pre & d1 & d2 & Hm' & Hleft & Hs).
    assert (EnhanceExtraction.extract_year_from_url url
            = Some (2000 + (10 * d1 + d2))) as He.
    { unfold EnhanceExtraction.extract_year_from_url. by rewrite Hc, Hs. }
    exists pre, d1, d2. split_and!; [done..|].
    etrans; [apply extract_year_same|done].
  - intros Hno%extract_year_none.
    split_and!; [done|by etrans; [apply extract_year_same|]|].
    intros lower p <-.
    unfold EnhanceExtraction.paper_events, EnhanceExtraction.track_year.
    by rewrite Hno.
Qed.

Lemma year_rule_witness :
  (∃ pre d1 d2,
     abs_match_at "http://arxiv.org/abs/0704.0001v2" pre d1 d2 ∧
     (∀ pre' d1' d2',
        abs_match_at "http://arxiv.org/abs/0704.0001v2" pre' d1' d2' →
        String.length pre ≤ String.length pre') ∧
     EnhanceExtraction.extract_year_from_url "http://arxiv.org/abs/0704.0001v2"
       = Some (2000 + (10 * d1 + d2)) ∧
     ExtractPapers.extract_year_from_url "http://arxiv.org/abs/0704.0001v2"
       = Some (2000 + (10 * d1 + d2))) ∧
  (∃ pre d1 d2,
     abs_match_at "https://arxiv.org/abs/٢٥٠٢.19614" pre d1 d2 ∧
     (∀ pre' d1' d2',
        abs_match_at "https://arxiv.org/abs/٢٥٠٢.19614" pre' d1' d2' →
        String.length pre ≤ String.length pre') ∧
     EnhanceExtraction.extract_year_from_url "https://arxiv.org/abs/٢٥٠٢.19614"
       = Some (2000 + (10 * d1 + d2)) ∧
     ExtractPapers.extract_year_from_url "https://arxiv.org/abs/٢٥٠٢.19614"
       = Some (2000 + (10 * d1 + d2))) ∧
  EnhanceExtraction.extract_year_from_url "https://openreview.net/abs/2301"
    = None.
Proof.
  split_and!.
  - apply (proj1 (year_rule "http://arxiv.org/abs/0704.0001v2")).
    + by exists "http://", "/abs/0704.0001v2".
    + exists "http://arxiv.org", 0, 7, "0", "7", "0", "4", 0, 4, ".0001v2".
      split_and!; [done|by_computation..].
  - apply (proj1 (year_rule "https://arxiv.org/abs/٢٥٠٢.19614")).
    + by exists "https://", "/abs/٢٥٠٢.19614".
    + exists "https://arxiv.org", 2, 5, "٢", "٥", "٠", "٢", 0, 2, ".19614".
      split_and!; [done|by_computation..].
  - apply (proj2 (year_rule "https://openreview.net/abs/2301")).
    intros [Hc%contains_spec _]. by vm_compute in Hc.
Defined.

(** C6, as the spec has it: the first example.  The first two digits of
    "2502" are 25, and both scripts return 2025 there, not 2024. *)
Lemma year_examples_counterexample :
  EnhanceExtraction.extract_year_from_url "https://arxiv.org/abs/2502.19614"
    ≠ Some 2024 ∧
  ExtractPapers.extract_year_from_url "https://arxiv.org/abs/2502.19614"
    ≠ Some 2024.
Proof. split; by vm_compute. Qed.

(** C6, amended.  In both scripts the year of
    "https://arxiv.org/abs/2502.19614" is 2025, that of
    "https://arxiv.org/abs/1912.12345" is 2019, and a url that does not
    contain "arxiv.org" has no year. *)
Theorem year_examples :
  (EnhanceExtraction.extract_year_from_url "https://arxiv.org/abs/2502.19614"
     = Some 2025 ∧
   EnhanceExtraction.extract_year_from_url "https://arxiv.org/abs/1912.12345"
     = Some 2019 ∧
   ∀ url, ¬ substring "arxiv.org" url →
     EnhanceExtraction.extract_year_from_url url = None) ∧
  (ExtractPapers.extract_year_from_url "https://arxiv.org/abs/2502.19614"
     = Some 2025 ∧
   ExtractPapers.extract_year_from_url "https://arxiv.org/abs/1912.12345"
     = Some 2019 ∧
   ∀ url, ¬ substring "arxiv.org" url →
     ExtractPapers.extract_year_from_url url = None).
Proof.
  assert (∀ url, ¬ substring "arxiv.org" url →
            EnhanceExtraction.extract_year_from_url url = None) as Hnone.
  { intros url Hno. apply extract_year_none. by intros [? _]. }
  split; (split_and!; [by vm_compute..|]); [done|].
  intros url Hno. etrans; [apply extract_year_same|by apply Hnone].
Qed.

Lemma year_examples_witness :
  EnhanceExtraction.extract_year_from_url "https://doi.org/abs/2502.19614"
    = None ∧
  ExtractPapers.extract_year_from_url "https://doi.org/abs/2502.19614" = None.
Proof.
  destruct year_examples as [(_ & _ & He) (_ & _ & Hp)].
  split; [apply He|apply Hp];
    intros Hc%contains_spec; by vm_compute in Hc.
Defined.

(** ** Publication events *)

(** What one turn of the loop appends for a paper. *)
Lemma paper_events_spec (lower : string → string)
    (p : EnhanceExtraction.Paper) :
  (∀ year,
     EnhanceExtraction.title p ≠ "" →
     EnhanceExtraction.extract_year_from_url (EnhanceExtraction.url p)
       = Some year →
     ∃ ev,
       EnhanceExtraction.paper_events lower p = [ev] ∧
       id ev = Py.str_of_nat year +:+ "-" +:+
               Py.take_str 8 (EnhanceExtraction.str
                                (EnhanceExtraction.paper_id p)) ∧
       timestamp ev = Py.str_of_nat year +:+ "-01-01T00:00:00Z") ∧
  (EnhanceExtraction.title p = "" ∨
   EnhanceExtraction.extract_year_from_url (EnhanceExtraction.url p) = None →
   EnhanceExtraction.paper_events lower p = []).
Proof.
  unfold EnhanceExtraction.paper_events. split.
  - intros year Ht Hy. rewrite Hy.
    apply extract_year_range in Hy.
    rewrite !bool_decide_eq_true_2 by (done || lia). simpl.
    by eexists.
  - intros [Ht|Hy].
    + destruct (EnhanceExtraction.extract_year_from_url _); [|done].
      by rewrite bool_decide_eq_false_2 by (by intros ?).
    + by rewrite Hy.
Qed.

Lemma bind_concat_fmap {A B} (f : A → list B) (l : list A) :
  l ≫= f = concat (f <$> l).
Proof.
  induction l as [|x l IH]; [done|]. by rewrite bind_cons, fmap_cons, IH.
Qed.

(** C9. The events that [enhanced_extraction] returns start with what
    the papers emit, paper after paper in the order of the corpus, before
    the trend and milestone events: a paper with a non-empty title and a
    year emits exactly one event, whose id is the year, a hyphen and the
    first eight characters of [str(paper_id)], and whose timestamp is the
    year followed by "-01-01T00:00:00Z"; a paper with an empty title or
    without a year emits nothing. *)
Theorem publication_event_synthesis (lower : string → string)
    (models_of : string → list string)
    (institutions_of : string → list string → list string)
    (papers : list EnhanceExtraction.Paper) :
  ∃ emitted : list (list Event),
    (EnhanceExtraction.enhanced_extraction lower models_of institutions_of
       papers).2
    = concat emitted ++
      EnhanceExtraction.trend_events
        (EnhanceExtraction.topic_stats lower papers) ++
      EnhanceExtraction.milestone_events
        (EnhanceExtraction.yearly_stats papers) ∧
    Forall2
      (λ p evs,
         (∀ year,
            EnhanceExtraction.title p ≠ "" →
            EnhanceExtraction.extract_year_from_url (EnhanceExtraction.url p)
              = Some year →
            ∃ ev,
              evs = [ev] ∧
              id ev = Py.str_of_nat year +:+ "-" +:+
                      Py.take_str 8 (EnhanceExtraction.str
                                       (EnhanceExtraction.paper_id p)) ∧
              timestamp ev = Py.str_of_nat year +:+ "-01-01T00:00:00Z") ∧
         (EnhanceExtraction.title p = "" ∨
          EnhanceExtraction.extract_year_from_url (EnhanceExtraction.url p)
            = None →
          evs = []))
      papers emitted.
Proof.
  exists (EnhanceExtraction.paper_events lower <$> papers). split.
  - unfold EnhanceExtraction.enhanced_extraction,
      EnhanceExtraction.publication_events.
    cbn [snd]. by rewrite bind_concat_fmap.
  - apply Forall2_fmap_r, Forall_Forall2_diag, Forall_forall.
    intros p _. apply paper_events_spec.
Qed.

Lemma publication_event_synthesis_witness :
  let p := EnhanceExtraction.mkPaper
             (EnhanceExtraction.IdStr "0a1b2c3d-4e5f-6789-abcd-ef0123456789")
             "Attention Is All You Need" ["A. Vaswani"] ["cs.CL"]
             "We propose the Transformer."
             "https://arxiv.org/abs/1706.03762" in
  let q := EnhanceExtraction.mkPaper (EnhanceExtraction.IdInt 7)
             "" ["A. Vaswani"] ["cs.CL"] "An abstract without a title."
             "https://arxiv.org/abs/1706.03762" in
  ∃ ev,
    (EnhanceExtraction.enhanced_extraction (λ s, s) (λ _, []) (λ _ _, [])
       [p; q]).2 = [ev] ∧
    id ev = "2017-0a1b2c3d" ∧ timestamp ev = "2017-01-01T00:00:00Z".
Proof.
  intros p q.
  destruct (publication_event_synthesis (λ s, s) (λ _, []) (λ _ _, []) [p; q])
    as (emitted & Heq & Hall).
  apply Forall2_cons_inv_l in Hall as (evs1 & rest & [Hp _] & Hall & ->).
  apply Forall2_cons_inv_l in Hall as (evs2 & rest' & [_ Hq] & Hall & ->).
  apply Forall2_nil_inv_l in Hall as ->.
  destruct (Hp 2017) as (ev & -> & Hid & Hts); [done|by vm_compute|].
  rewrite (Hq (or_introl eq_refl)) in Heq.
  exists ev. split_and!.
  - rewrite Heq. by vm_compute.
  - rewrite Hid. by vm_compute.
  - rewrite Hts. by vm_compute.
Defined.

(** ** Author entities *)

Section MostCommon.
Context {K : Type}.
Implicit Types (stats : Py.Counter K) (x : K * nat).

Lemma most_common_sorted_all stats :
  StronglySorted (λ x y, Is_true (y.2 <=? x.2))
    (Py.sort (λ x y, y.2 <=? x.2) stats).
Proof.
  apply Sorted_StronglySorted.
  - intros x y z Hxy%Is_true_true%Nat.leb_le Hyz%Is_true_true%Nat.leb_le.
    apply Is_true_true, Nat.leb_le. lia.
  - apply (sort_sorted (λ x y : K * nat, y.2 <=? x.2)).
    intros x y. rewrite !Nat.leb_le. lia.
Qed.

Lemma most_common_subset n stats x :
  x ∈ Py.most_common n stats → x ∈ stats.
Proof.
  unfold Py.most_common. intros Hx%elem_of_take.
  destruct Hx as (i & Hx%list_elem_of_lookup_2 & _).
  by rewrite sort_perm in Hx.
Qed.

Lemma most_common_all n stats :
  length stats ≤ n → Py.most_common n stats ≡ₚ stats.
Proof.
  intros Hn. unfold Py.most_common. rewrite take_ge; [apply sort_perm|].
  by rewrite sort_perm.
Qed.

(** An entry is among the first [n] when at most [n] entries have a
    count that is at least its own. *)
Lemma most_common_rank n stats x :
  x ∈ stats →
  length (filter (λ y, x.2 ≤ y.2) stats) ≤ n →
  x ∈ Py.most_common n stats.
Proof.
  intros Hx Hn. unfold Py.most_common.
  pose proof (most_common_sorted_all stats) as Hs.
  pose proof (sort_perm (λ x y : K * nat, y.2 <=? x.2) stats) as Hp.
  rewrite <-Hp in Hx, Hn. clear Hp.
  set (l := Py.sort _ stats) in *. clearbody l.
  apply list_elem_of_lookup in Hx as [i Hi].
  apply elem_of_take. exists i. split; [done|].
  assert (Forall (λ y, x.2 ≤ y.2) (take (S i) l)) as Hall.
  { apply Forall_forall. intros y Hy%elem_of_take.
    destruct Hy as (j & Hj & Hji).
    destruct (decide (j = i)) as [->|Hne]; [naive_solver|].
    rewrite <-(take_drop_middle l i x Hi) in Hs.
    apply StronglySorted_app_1_elem_of with (x1 := y) (x2 := x) in Hs;
      [by apply Is_true_true, Nat.leb_le in Hs| |by left].
    apply list_elem_of_lookup. exists j.
    rewrite lookup_take_lt by lia. done. }
  assert (S i ≤ length (filter (λ y, x.2 ≤ y.2) l)) as Hrank;
    [|exact (Nat.le_trans _ _ _ Hrank Hn)].
  rewrite <-(take_drop (S i) l) at 1. rewrite filter_app, length_app.
  assert (filter (λ y, x.2 ≤ y.2) (take (S i) l) = take (S i) l) as ->.
  { clear -Hall. induction Hall as [|y l' Hy Hl IH]; [done|].
    by rewrite filter_cons_True, IH. }
  rewrite length_take. apply lookup_lt_Some in Hi. lia.
Qed.

End MostCommon.

Lemma author_entities_spec (stats : Py.Counter string) (e : Entity) :
  e ∈ EnhanceExtraction.author_entities stats ↔
  ∃ author count,
    (author, count) ∈ Py.most_common 200 stats ∧ 2 ≤ count ∧
    e = EnhanceExtraction.author_entity author count.
Proof.
  unfold EnhanceExtraction.author_entities. rewrite list_elem_of_bind. split.
  - intros ([author count] & He & Hin).
    destruct (decide (2 ≤ count)); [|by apply elem_of_nil in He].
    apply list_elem_of_singleton in He. eauto.
  - intros (author & count & Hin & Hc & ->). exists (author, count).
    split; [|done]. rewrite decide_True by done. by left.
Qed.

Lemma counter_unique (stats : Py.Counter string) (a : string) (c c' : nat) :
  NoDup stats.*1 → (a, c) ∈ stats → (a, c') ∈ stats → c = c'.
Proof.
  intros Hnd. induction stats as [|[k v] stats IH]; simpl in Hnd.
  { by intros ?%elem_of_nil. }
  apply NoDup_cons in Hnd as [Hk Hnd].
  intros [[= -> ->]|Hc]%elem_of_cons [[= ->]|Hc']%elem_of_cons; [done|..].
  - destruct Hk. by apply (list_elem_of_fmap_2 fst) in Hc'.
  - destruct Hk. subst. by apply (list_elem_of_fmap_2 fst) in Hc.
  - by apply IH.
Qed.

Lemma counter_incr_keys `{EqDecision K} (k : K) (c : Py.Counter K) :
  (Py.counter_incr k c).*1 = if decide (k ∈ c.*1) then c.*1 else c.*1 ++ [k].
Proof.
  induction c as [|[k' n] c IH].
  { destruct (decide (k ∈ ([] : Py.Counter K).*1)) as [Hin|]; [|done].
    by apply elem_of_nil in Hin. }
  cbn [Py.counter_incr]. rewrite !fmap_cons. cbn [fst].
  destruct (decide (k = k')) as [->|Hne].
  - rewrite fmap_cons. cbn [fst]. rewrite decide_True; [done|by left].
  - rewrite fmap_cons, IH. cbn [fst].
    destruct (decide (k ∈ c.*1)) as [Hin|Hin].
    + rewrite decide_True; [done|by right].
    + rewrite decide_False; [done|]. rewrite not_elem_of_cons. done.
Qed.

Lemma counter_incr_NoDup `{EqDecision K} (k : K) (c : Py.Counter K) :
  NoDup c.*1 → NoDup (Py.counter_incr k c).*1.
Proof.
  intros Hc. rewrite counter_incr_keys. destruct (decide (k ∈ c.*1)); [done|].
  apply NoDup_app. split_and!; [done| |apply NoDup_singleton].
  intros x Hx ->%list_elem_of_singleton. done.
Qed.

(** The counters that the loop over the papers builds have one entry per
    author. *)
Lemma author_stats_NoDup (papers : list EnhanceExtraction.Paper) :
  NoDup (EnhanceExtraction.author_stats papers).*1.
Proof.
  unfold EnhanceExtraction.author_stats.
  assert (∀ stats, NoDup stats.*1 →
            NoDup (foldl EnhanceExtraction.track_authors stats papers).*1)
    as Hgen; [|apply Hgen; constructor].
  induction papers as [|p papers IH]; intros stats Hs; simpl; [done|].
  apply IH. unfold EnhanceExtraction.track_authors.
  generalize (EnhanceExtraction.authors p). intros l. revert stats Hs.
  induction l as [|a l IHl]; intros stats Hs; simpl; [done|].
  apply IHl. destruct (bool_decide (a ≠ "")); [|done].
  by apply counter_incr_NoDup.
Qed.

(** C7, as the spec has it, on the counts of [crowd_papers]: two hundred
    authors have three papers, "Z. Last" has exactly two and gets no
    entity, being the 201st of the ranking cut at 200. *)
Lemma author_threshold_counterexample :
  let stats := EnhanceExtraction.author_stats crowd_papers in
  ("Z. Last", 2) ∈ stats ∧
  ¬ ∃ e, e ∈ EnhanceExtraction.author_entities stats ∧ name e = "Z. Last".
Proof.
  split; [by_computation|].
  intros (e & He & Hname).
  assert (Forall (λ e, name e ≠ "Z. Last")
            (EnhanceExtraction.author_entities
               (EnhanceExtraction.author_stats crowd_papers))) as Hall.
  { by_computation. }
  rewrite Forall_forall in Hall. by apply (Hall e).
Qed.

(** C7, amended.  An author counted exactly once gets no author entity.
    An author counted exactly twice gets one exactly when the author is
    among the 200 most common, which is so whenever at most 200 authors
    have been counted twice or more. *)
Theorem author_threshold (stats : Py.Counter string) (a : string) :
  NoDup stats.*1 →
  ((a, 1) ∈ stats →
     ∀ e, e ∈ EnhanceExtraction.author_entities stats → name e ≠ a) ∧
  ((a, 2) ∈ stats →
     (EnhanceExtraction.author_entity a 2
        ∈ EnhanceExtraction.author_entities stats
      ↔ (a, 2) ∈ Py.most_common 200 stats) ∧
     (length (filter (λ y, 2 ≤ y.2) stats) ≤ 200 →
      EnhanceExtraction.author_entity a 2
        ∈ EnhanceExtraction.author_entities stats)).
Proof.
  intros Hnd. split.
  - intros H1 e He. apply author_entities_spec in He.
    destruct He as (a' & c & Hin%most_common_subset & Hc & ->).
    simpl. intros ->.
    pose proof (counter_unique stats a c 1 Hnd Hin H1). lia.
  - intros H2.
    assert ((a, 2) ∈ Py.most_common 200 stats →
            EnhanceExtraction.author_entity a 2
              ∈ EnhanceExtraction.author_entities stats) as Hin.
    { intros Hin. apply author_entities_spec. exists a, 2. eauto. }
    split; [split; [|done]|].
    + intros (a' & c & Hin' & Hc & Heq)%author_entities_spec.
      assert (a' = a) as -> by (by injection Heq).
      pose proof (most_common_subset _ _ _ Hin') as Hin''.
      assert (c = 2) as ->; [|done].
      apply (counter_unique stats a c 2 Hnd Hin'' H2).
    + intros Hlen. by apply Hin, most_common_rank.
Qed.

Lemma author_threshold_witness :
  let stats := EnhanceExtraction.author_stats
    [EnhanceExtraction.mkPaper (EnhanceExtraction.IdInt 7) "On sorting"
       ["A. Turing"; "B. Liskov"] [] "" "";
     EnhanceExtraction.mkPaper (EnhanceExtraction.IdInt 8) "On merging"
       ["A. Turing"] [] "" ""] in
  (∀ e, e ∈ EnhanceExtraction.author_entities stats → name e ≠ "B. Liskov") ∧
  EnhanceExtraction.author_entity "A. Turing" 2
    ∈ EnhanceExtraction.author_entities stats.
Proof.
  intros stats.
  destruct (author_threshold stats "B. Liskov") as [H1 _];
    [by_computation|].
  destruct (author_threshold stats "A. Turing") as [_ H2];
    [by_computation|].
  split.
  - apply H1. by_computation.
  - apply H2; [by_computation|]. vm_compute. lia.
Defined.

(** ** The acronym pass *)

Lemma all_chars_app (p : ascii → bool) (a b : string) :
  all_chars p (a +:+ b) = all_chars p a && all_chars p b.
Proof.
  induction a as [|c a IH]; [done|].
  rewrite append_cons. simpl. by rewrite IH, andb_assoc.
Qed.

Lemma all_chars_impl (p q : ascii → bool) (s : string) :
  (∀ c, p c → q c) → all_chars p s → all_chars q s.
Proof.
  intros Hpq. induction s as [|c s IH]; simpl; [done|].
  intros [Hc Hs]%andb_True. apply andb_True. auto.
Qed.

Lemma span_spec (p : ascii → bool) (s a b : string) :
  Py.span p s = (a, b) →
  s = a +:+ b ∧ all_chars p a ∧ (∀ c b', b = String c b' → p c = false).
Proof.
  revert a b. induction s as [|c s IH]; intros a b; simpl.
  { intros [= <- <-]. by split_and!. }
  destruct (p c) eqn:Hc.
  - destruct (Py.span p s) as [a' b'] eqn:Hs. intros [= <- <-].
    destruct (IH a' b' eq_refl) as (-> & Ha & Hb).
    split_and!; [done| |done]. simpl. by rewrite Hc.
  - intros [= <- <-]. split_and!; [done..|]. by intros ?? [= <- <-].
Qed.

Lemma span_app (p : ascii → bool) (a b : string) :
  all_chars p a → (∀ c b', b = String c b' → p c = false) →
  Py.span p (a +:+ b) = (a, b).
Proof.
  intros Ha Hb. induction a as [|c a IH].
  - rewrite append_nil_l. destruct b as [|c b]; [done|].
    simpl. by rewrite (Hb c b).
  - rewrite append_cons. simpl in *. apply andb_True in Ha as [Hc Ha].
    apply Is_true_true in Hc. by rewrite Hc, (IH Ha).
Qed.

Lemma span_prefix_len (p : ascii → bool) (a b : string) :
  all_chars p a → Py.len a ≤ Py.len (Py.span p (a +:+ b)).1.
Proof.
  induction a as [|c a IH]; intros Ha; [simpl; lia|].
  rewrite append_cons. simpl in *. apply andb_True in Ha as [Hc Ha].
  apply Is_true_true in Hc. rewrite Hc.
  specialize (IH Ha). destruct (Py.span p (a +:+ b)). simpl in *. lia.
Qed.

(** Two readings of a text as a run of class characters stopped by a
    character outside the class give the same run. *)
Lemma run_unique (p : ascii → bool) (x : ascii) (a b r r' : string) :
  all_chars p a → all_chars p b → p x = false →
  a +:+ String x r = b +:+ String x r' → a = b.
Proof.
  intros Ha Hb Hx. revert b Hb.
  induction a as [|c a IH]; intros [|d b] Hb;
    rewrite ?append_cons, ?append_nil_l.
  - done.
  - intros [= <- _]. simpl in Hb. rewrite Hx in Hb. done.
  - intros [= -> _]. simpl in Ha. rewrite Hx in Ha. done.
  - simpl in Ha, Hb. apply andb_True in Ha as [_ Ha], Hb as [_ Hb].
    intros [= -> Heq]. f_equal. by apply IH.
Qed.

Lemma is_upper_ext (c : ascii) :
  EnhanceExtraction.is_upper c → EnhanceExtraction.is_ext c.
Proof.
  unfold EnhanceExtraction.is_ext.
  by destruct (EnhanceExtraction.is_upper c).
Qed.

Lemma acronym_shape_ext (g : string) :
  acronym_shape g → all_chars EnhanceExtraction.is_ext g.
Proof.
  intros (up & ext & -> & _ & Hup & Hext).
  rewrite all_chars_app. apply andb_True. split; [|done].
  eapply all_chars_impl; [apply is_upper_ext|done].
Qed.

Lemma match_acronym_spec (s g : string) :
  EnhanceExtraction.match_acronym s = Some g ↔
  ∃ rest, s = "(" +:+ g +:+ ")" +:+ rest ∧ acronym_shape g.
Proof.
  unfold EnhanceExtraction.match_acronym. split.
  - destruct (Py.strip_prefix "(" s) as [s1|] eqn:H1; [|done].
    apply strip_prefix_spec in H1 as ->.
    destruct (Py.span EnhanceExtraction.is_upper s1) as [up s2] eqn:Hup.
    apply span_spec in Hup as (-> & Hup & _).
    destruct (decide (2 ≤ Py.len up)) as [Hlen|]; [|done].
    destruct (Py.span EnhanceExtraction.is_ext s2) as [ext s3] eqn:Hext.
    apply span_spec in Hext as (-> & Hext & _).
    destruct (Py.strip_prefix ")" s3) as [rest|] eqn:H3; [|done].
    apply strip_prefix_spec in H3 as ->. intros [= <-].
    exists rest. split; [by rewrite !append_assoc|]. by exists up, ext.
  - intros (rest & -> & Hg).
    assert (Py.strip_prefix "(" ("(" +:+ g +:+ ")" +:+ rest)
            = Some (g +:+ ")" +:+ rest)) as ->.
    { by apply strip_prefix_spec. }
    pose proof (acronym_shape_ext g Hg) as Hgext.
    destruct Hg as (up & ext & Hg & Hlen & Hup & Hext).
    destruct (Py.span EnhanceExtraction.is_upper g) as [up' g2] eqn:Hsp.
    pose proof (span_prefix_len EnhanceExtraction.is_upper up ext Hup) as Hlen'.
    rewrite <-Hg, Hsp in Hlen'. simpl in Hlen'.
    apply span_spec in Hsp as (Hg' & Hup' & Hstop).
    rewrite Hg' in Hgext. rewrite all_chars_app in Hgext.
    apply andb_True in Hgext as [_ Hg2].
    rewrite Hg', append_assoc.
    rewrite span_app; [|done|].
    + rewrite decide_True by lia.
      rewrite span_app; [|done|by intros ?? [= <- <-]].
      assert (Py.strip_prefix ")" (")" +:+ rest) = Some rest) as ->; [|done].
      by apply strip_prefix_spec.
    + intros c b'. destruct g2 as [|c2 g2].
      * rewrite append_nil_l. by intros [= <- <-].
      * rewrite append_cons. intros [= <- _]. by apply (Hstop c2 g2).
Qed.

Lemma findall_acronym_sound (k : nat) (s g : string) :
  g ∈ EnhanceExtraction.findall_acronym k s →
  ∃ pre rest, s = pre +:+ "(" +:+ g +:+ ")" +:+ rest ∧ acronym_shape g.
Proof.
  revert k. induction s as [|c s IH]; intros k; simpl.
  { by intros ?%elem_of_nil. }
  assert (∀ k', g ∈ EnhanceExtraction.findall_acronym k' s →
          ∃ pre rest, String c s = pre +:+ "(" +:+ g +:+ ")" +:+ rest
                      ∧ acronym_shape g) as Hrec.
  { intros k' (pre & rest & -> & Hg)%IH. exists (String c pre), rest.
    by rewrite append_cons. }
  clear IH. destruct k as [|k]; [|apply Hrec].
  destruct (EnhanceExtraction.match_acronym (String c s)) as [g'|] eqn:Hm;
    [|apply Hrec].
  intros [->|Hin]%elem_of_cons; [|by apply Hrec in Hin].
  apply match_acronym_spec in Hm as (rest & Heq & Hg).
  exists "", rest. by rewrite append_nil_l.
Qed.

Lemma open_paren_not_ext : EnhanceExtraction.is_ext "(" = false.
Proof. done. Qed.

Lemma close_paren_not_ext : EnhanceExtraction.is_ext ")" = false.
Proof. done. Qed.

(** A parenthesised acronym is found, provided the characters still to be
    passed over hold no opening parenthesis. *)
Lemma findall_acronym_complete (s : string) :
  ∀ k skipped rest pre tok post,
    s = skipped +:+ rest → Py.len skipped = k →
    all_chars (λ c, bool_decide (c ≠ "("%char)) skipped →
    s = pre +:+ "(" +:+ tok +:+ ")" +:+ post → acronym_shape tok →
    tok ∈ EnhanceExtraction.findall_acronym k s.
Proof.
  induction s as [|c s IH];
    intros k skipped rest pre tok post Hsk Hk Hnp Hocc Htok.
  { destruct pre; [rewrite append_nil_l in Hocc|]; done. }
  simpl. destruct k as [|k].
  - destruct (EnhanceExtraction.match_acronym (String c s)) as [g|] eqn:Hm.
    + apply match_acronym_spec in Hm as (rest' & Heq & Hg).
      destruct pre as [|c' pre].
      * rewrite append_nil_l in Hocc. rewrite Hocc in Heq.
        rewrite !append_cons, !append_nil_l in Heq. injection Heq as Heq.
        apply run_unique with (p := EnhanceExtraction.is_ext) in Heq;
          [subst; by left|by apply acronym_shape_ext..|done].
      * right. rewrite append_cons in Hocc. injection Hocc as -> Hocc.
        rewrite append_cons, append_nil_l in Heq. injection Heq as -> Heq.
        apply (IH _ (g +:+ ")") rest' pre tok post);
          [by rewrite append_assoc| |
           |done|done].
        -- unfold Py.len. rewrite length_append. simpl. lia.
        -- rewrite all_chars_app. apply andb_True. split; [|done].
           eapply all_chars_impl; [|by apply acronym_shape_ext].
           intros c Hc. apply bool_decide_pack. intros ->. done.
    + destruct pre as [|c' pre].
      * rewrite append_nil_l in Hocc.
        assert (EnhanceExtraction.match_acronym (String c s) = Some tok)
          as Hm'; [|congruence].
        apply match_acronym_spec. by exists post.
      * rewrite append_cons in Hocc. injection Hocc as -> Hocc.
        by apply (IH 0 "" s pre tok post).
  - destruct skipped as [|c0 skipped]; [done|].
    rewrite append_cons in Hsk. injection Hsk as <- Hsk.
    simpl in Hnp. apply andb_True in Hnp as [Hc Hnp].
    apply bool_decide_unpack in Hc.
    destruct pre as [|c' pre].
    { rewrite append_nil_l, append_cons in Hocc. by injection Hocc as -> _. }
    rewrite append_cons in Hocc. injection Hocc as -> Hocc.
    apply (IH k skipped rest pre tok post); [done|by injection Hk|done..].
Qed.

(** C8, as the spec has it: "LLaMA" stands in parentheses in the text and
    is proposed, although lower-case letters follow its capitals. *)
Lemma acronym_pass_counterexample :
  "LLaMA" ∈ EnhanceExtraction.acronym_models "We fine-tune (LLaMA) on it." ∧
  ¬ spec_acronym_shape "LLaMA".
Proof.
  split; [by_computation|].
  intros (up & ext & Heq & _ & Hup & Hext).
  set (q := λ c, EnhanceExtraction.is_upper c || EnhanceExtraction.is_digit c
                 || bool_decide (c = "-"%char)) in *.
  assert (all_chars q (up +:+ ext)) as Hall.
  { rewrite all_chars_app. apply andb_True. split; [|done].
    eapply all_chars_impl; [|done]. intros c Hc. unfold q.
    by destruct (EnhanceExtraction.is_upper c). }
  rewrite <-Heq in Hall. by vm_compute in Hall.
Qed.

(** C8, amended.  The acronym pass proposes a token exactly when the
    token stands in parentheses in the text, is made of two or more
    capital letters followed by any number of letters of either case,
    digits and hyphens, and has a length strictly between 2 and 15. *)
Theorem acronym_pass (text tok : string) :
  tok ∈ EnhanceExtraction.acronym_models text ↔
  parenthesized tok text ∧ acronym_shape tok ∧
  2 < Py.len tok ∧ Py.len tok < 15.
Proof.
  unfold EnhanceExtraction.acronym_models, parenthesized, substring.
  rewrite list_elem_of_filter. split.
  - intros [Hlen (pre & rest & -> & Hg)%findall_acronym_sound].
    split_and!; [|done|lia..]. exists pre, rest. by rewrite !append_assoc.
  - intros ((pre & post & Heq) & Hg & Hlen). split; [done|].
    rewrite !append_assoc in Heq.
    by apply (findall_acronym_complete text 0 "" text pre tok post).
Qed.

(** * Further properties of the scripts *)

(** ** The merge: growth, keys, agreement of the two scripts *)

Section MergeMore.
Context {A : Type} (key : A → string).

Lemma fresh_length (seen : gset string) (new : list A) :
  length (fresh key seen new)
  = size ((list_to_set (key <$> new) : gset string) ∖ seen).
Proof.
  revert seen. induction new as [|x new IH]; intros seen.
  { symmetry. apply size_empty_iff. set_solver. }
  cbn [fresh]. destruct (decide (key x ∈ seen)) as [Hx|Hx].
  - rewrite IH. f_equal. apply set_eq. set_solver.
  - cbn [length]. rewrite IH.
    assert ((list_to_set (key <$> x :: new) : gset string) ∖ seen
            = ({[key x]} : gset string)
              ∪ (list_to_set (key <$> new) ∖ (seen ∪ {[key x]}))) as ->.
    { apply set_eq. intros k. 
      destruct (decide (k = key x)) as [->|]; set_solver. }
    symmetry. etrans; [apply size_union; set_solver|].
    by rewrite size_singleton.
Qed.

Lemma fresh_filter (seen : gset string) (new : list A) :
  NoDup (key <$> new) →
  fresh key seen new = filter (λ e, key e ∉ seen) new.
Proof.
  revert seen. induction new as [|x new IH]; intros seen Hnd; [done|].
  rewrite fmap_cons in Hnd. apply NoDup_cons in Hnd as [Hx Hnd]. simpl.
  destruct (decide (key x ∈ seen)) as [Hs|Hs].
  - rewrite filter_cons_False by (by intros ?). by apply IH.
  - rewrite filter_cons_True by done. f_equal. rewrite IH by done.
    clear IH Hnd. induction new as [|y new IH]; [done|].
    rewrite fmap_cons, not_elem_of_cons in Hx. destruct Hx as [Hxy Hx].
    rewrite !filter_cons, IH by done.
    destruct (decide (key y ∉ seen ∪ {[key x]})) as [H1|H1];
      destruct (decide (key y ∉ seen)) as [H2|H2]; try done; set_solver.
Qed.

Lemma merge_unique_keys existing new :
  (list_to_set (key <$> EnhanceExtraction.merge_unique key existing new)
     : gset string)
  = list_to_set (key <$> existing) ∪ list_to_set (key <$> new).
Proof.
  apply set_eq. intros k.
  rewrite merge_unique_fresh, fmap_app, list_to_set_app_L.
  rewrite !elem_of_union, !elem_of_list_to_set. split.
  - intros [?|(x & -> & Hx)%list_elem_of_fmap]; [by left|right].
    apply list_elem_of_fmap_2. eapply elem_of_sublist; [done|apply fresh_sublist].
  - intros [?|(x & -> & Hx)%list_elem_of_fmap]; [by left|].
    destruct (fresh_covers key (list_to_set (key <$> existing)) new x Hx)
      as [Hs|Hf]; [left|by right].
    by rewrite elem_of_list_to_set in Hs.
Qed.

Lemma merge_filter_keys existing new :
  (list_to_set (key <$> ExtractPapers.merge_filter key existing new)
     : gset string)
  = list_to_set (key <$> existing) ∪ list_to_set (key <$> new).
Proof.
  apply set_eq. intros k. unfold ExtractPapers.merge_filter.
  rewrite fmap_app, list_to_set_app_L.
  rewrite !elem_of_union, !elem_of_list_to_set. split.
  - intros [?|(x & -> & [_ Hx]%list_elem_of_filter)%list_elem_of_fmap];
      [by left|right]. by apply list_elem_of_fmap_2.
  - intros [?|(x & -> & Hx)%list_elem_of_fmap]; [by left|].
    destruct (decide (key x ∈ key <$> existing)) as [|Hn]; [by left|right].
    apply list_elem_of_fmap_2, list_elem_of_filter. split; [|done].
    by rewrite elem_of_list_to_set.
Qed.

Lemma merge_same existing new :
  NoDup (key <$> new) →
  EnhanceExtraction.merge_unique key existing new
  = ExtractPapers.merge_filter key existing new.
Proof.
  intros Hnd. rewrite merge_unique_fresh. unfold ExtractPapers.merge_filter.
  by rewrite fresh_filter.
Qed.

(** A merged record whose key is an existing key is an existing record. *)
Lemma frame_existing_wins existing new merged out x :
  frame key existing new merged out →
  x ∈ out → key x ∈ key <$> existing → x ∈ existing.
Proof.
  intros (added & _ & Hout & _ & Hnew & _) Hx Hk.
  rewrite Hout, elem_of_app in Hx. destruct Hx as [|Hx]; [done|].
  by apply Hnew in Hx.
Qed.

End MergeMore.

Section SortStable.
Context {A : Type} (k : A → string) (before : A → A → bool).
Hypothesis before_false : ∀ x y, before x y = false → k x ≠ k y.

Lemma sort_insert_filter_key (t : string) (x : A) (l : list A) :
  filter (λ y, k y = t) (Py.sort_insert before x l)
  = filter (λ y, k y = t) (x :: l).
Proof.
  induction l as [|y l IH]; [done|]. simpl.
  destruct (before x y) eqn:Hxy; [done|].
  apply before_false in Hxy.
  rewrite filter_cons, IH, !filter_cons.
  destruct (decide (k y = t)) as [Hy|Hy]; [|done].
  destruct (decide (k x = t)) as [Hx|Hx]; [congruence|done].
Qed.

Lemma sort_filter_key (t : string) (l : list A) :
  filter (λ y, k y = t) (Py.sort before l) = filter (λ y, k y = t) l.
Proof.
  induction l as [|x l IH]; [done|]. simpl.
  fold (Py.sort before l).
  by rewrite sort_insert_filter_key, !filter_cons, IH.
Qed.

End SortStable.

Lemma leb_false_ne (s t : string) : String.leb s t = false → s ≠ t.
Proof.
  intros Hf ->. pose proof (reflexivity (R:=String.le) t) as Hr.
  unfold String.le in Hr. by rewrite Hf in Hr.
Qed.

Lemma sort_by_key_stable {A} (k : A → string) (t : string) (l : list A) :
  filter (λ y, k y = t) (Py.sort_by_key k l) = filter (λ y, k y = t) l.
Proof. apply sort_filter_key. intros x y. apply leb_false_ne. Qed.

Lemma sort_by_key_reverse_stable {A} (k : A → string) (t : string)
    (l : list A) :
  filter (λ y, k y = t) (Py.sort_by_key_reverse k l)
  = filter (λ y, k y = t) l.
Proof.
  apply sort_filter_key. intros x y Hf%leb_false_ne. congruence.
Qed.

Lemma sorted_by_key_id {A} (k : A → string) (l : list A) :
  StronglySorted (λ x y, String.le (k x) (k y)) l → Py.sort_by_key k l = l.
Proof.
  intros Hs. apply sort_sorted_id. by apply StronglySorted_Sorted.
Qed.

Lemma sorted_by_key_reverse_id {A} (k : A → string) (l : list A) :
  StronglySorted (λ x y, String.le (k y) (k x)) l →
  Py.sort_by_key_reverse k l = l.
Proof.
  intros Hs. apply sort_sorted_id. by apply StronglySorted_Sorted.
Qed.

(** X1. How much a merge adds.  [enhance_extraction.main] adds one record
    per key of the candidates that is not a key of the store;
    [extract_papers.main] adds every candidate whose key is not a key of
    the store, repeated keys included. *)
Theorem merge_growth (store : Store) (new_entities : list Entity)
    (new_events : list Event) :
  let names : gset string := list_to_set (name <$> entities store) in
  let ids : gset string := list_to_set (id <$> events store) in
  (length (entities (EnhanceExtraction.main store new_entities new_events))
   = length (entities store)
     + size ((list_to_set (name <$> new_entities) : gset string) ∖ names) ∧
   length (events (EnhanceExtraction.main store new_entities new_events))
   = length (events store)
     + size ((list_to_set (id <$> new_events) : gset string) ∖ ids)) ∧
  (length (entities (ExtractPapers.main store new_entities new_events))
   = length (entities store)
     + length (filter (λ e, name e ∉ names) new_entities) ∧
   length (events (ExtractPapers.main store new_entities new_events))
   = length (events store)
     + length (filter (λ e, id e ∉ ids) new_events)).
Proof.
  intros names ids. simpl. split; split.
  - by rewrite sort_by_key_perm, merge_unique_fresh, length_app, fresh_length.
  - by rewrite sort_by_key_reverse_perm, merge_unique_fresh, length_app,
      fresh_length.
  - rewrite sort_by_key_perm. unfold ExtractPapers.merge_filter.
    by rewrite length_app.
  - rewrite sort_by_key_reverse_perm. unfold ExtractPapers.merge_filter.
    by rewrite length_app.
Qed.

(** X2. Growth under disjoint input: when the candidates' keys are
    pairwise distinct and none is a key of the store, both scripts write
    back as many records as the store and the candidates have together. *)
Theorem merge_growth_disjoint (store : Store) (new_entities : list Entity)
    (new_events : list Event) :
  NoDup (name <$> new_entities) → NoDup (id <$> new_events) →
  (∀ e, e ∈ new_entities → name e ∉ name <$> entities store) →
  (∀ e, e ∈ new_events → id e ∉ id <$> events store) →
  ∀ out, out = EnhanceExtraction.main store new_entities new_events ∨
         out = ExtractPapers.main store new_entities new_events →
    length (entities out) = length (entities store) + length new_entities ∧
    length (events out) = length (events store) + length new_events.
Proof.
  intros Hne Hnv He Hv out Hout.
  assert (∀ {A} (key : A → string) (existing new : list A),
            (∀ e, e ∈ new → key e ∉ key <$> existing) →
            length (ExtractPapers.merge_filter key existing new)
            = length existing + length new) as Hlen.
  { intros A key existing new Hd. unfold ExtractPapers.merge_filter.
    rewrite length_app. f_equal. f_equal.
    induction new as [|x new IH]; [done|].
    rewrite filter_cons_True; [f_equal; apply IH|].
    - intros e ?. apply Hd. by right.
    - rewrite elem_of_list_to_set. apply Hd. by left. }
  destruct Hout as [-> | ->]; simpl.
  - rewrite sort_by_key_perm, sort_by_key_reverse_perm, !merge_same by done.
    split; by apply Hlen.
  - rewrite sort_by_key_perm, sort_by_key_reverse_perm. split; by apply Hlen.
Qed.

Lemma merge_growth_disjoint_witness :
  let store := mkStore [mkEntity "BERT" "kept" []] [] in
  let new_entities := [mkEntity "GAN" "a" []; mkEntity "CLIP" "b" []] in
  let new_events := [mkEvent "2019-12" "2019-01-01T00:00:00Z" "t" "research"] in
  length (entities (EnhanceExtraction.main store new_entities new_events)) = 3
  ∧ length (events (EnhanceExtraction.main store new_entities new_events)) = 1.
Proof.
  intros store new_entities new_events.
  apply (merge_growth_disjoint store new_entities new_events);
    [by_computation|by_computation|
     apply Forall_forall; by_computation..|by left].
Defined.

(** X3. The keys after a merge: in both scripts the names (ids) written
    back are those of the store together with those of the candidates. *)
Theorem merge_keys (store : Store) (new_entities : list Entity)
    (new_events : list Event) :
  ∀ out, out = EnhanceExtraction.main store new_entities new_events ∨
         out = ExtractPapers.main store new_entities new_events →
    (list_to_set (name <$> entities out) : gset string)
    = list_to_set (name <$> entities store)
      ∪ list_to_set (name <$> new_entities) ∧
    (list_to_set (id <$> events out) : gset string)
    = list_to_set (id <$> events store) ∪ list_to_set (id <$> new_events).
Proof.
  intros out [-> | ->]; simpl.
  - rewrite (keys_perm name _ _ (sort_by_key_perm name _)).
    rewrite (keys_perm id _ _ (sort_by_key_reverse_perm timestamp _)).
    by rewrite !merge_unique_keys.
  - rewrite (keys_perm name _ _ (sort_by_key_perm name _)).
    rewrite (keys_perm id _ _ (sort_by_key_reverse_perm timestamp _)).
    by rewrite !merge_filter_keys.
Qed.

Lemma merge_keys_witness :
  let store := mkStore [mkEntity "BERT" "kept" []] [] in
  let new_entities := [mkEntity "GAN" "a" []; mkEntity "GAN" "b" []] in
  (list_to_set
     (name <$> entities (ExtractPapers.main store new_entities []))
     : gset string)
  = list_to_set (name <$> entities store)
    ∪ list_to_set (name <$> new_entities).
Proof.
  intros store new_entities.
  apply (merge_keys store new_entities []
           (ExtractPapers.main store new_entities [])).
  by right.
Defined.

(** X4. The two scripts merge alike when no two candidates share a key:
    they then write back the same store. *)
Theorem merge_scripts_agree (store : Store) (new_entities : list Entity)
    (new_events : list Event) :
  NoDup (name <$> new_entities) → NoDup (id <$> new_events) →
  EnhanceExtraction.main store new_entities new_events
  = ExtractPapers.main store new_entities new_events.
Proof.
  intros Hne Hnv. unfold EnhanceExtraction.main, ExtractPapers.main.
  by rewrite !merge_same.
Qed.

Lemma merge_scripts_agree_witness :
  let store := mkStore [mkEntity "BERT" "kept" []]
                 [mkEvent "2019-12" "2019-01-01T00:00:00Z" "old" "theory"] in
  let new_entities := [mkEntity "GAN" "a" []; mkEntity "BERT" "b" []] in
  let new_events := [mkEvent "2019-12" "2019-01-01T00:00:00Z" "t" "research"] in
  EnhanceExtraction.main store new_entities new_events
  = ExtractPapers.main store new_entities new_events.
Proof.
  intros store new_entities new_events.
  apply (merge_scripts_agree store new_entities new_events); by_computation.
Defined.

(** X5. A record already in the store is never refreshed: in both
    scripts, a record written back under a name (id) that the store had
    is a record of the store, whatever the candidates say under that
    key. *)
Theorem merge_existing_record_kept (store : Store)
    (new_entities : list Entity) (new_events : list Event) :
  ∀ out, out = EnhanceExtraction.main store new_entities new_events ∨
         out = ExtractPapers.main store new_entities new_events →
    (∀ e, e ∈ entities out → name e ∈ name <$> entities store →
          e ∈ entities store) ∧
    (∀ e, e ∈ events out → id e ∈ id <$> events store → e ∈ events store).
Proof.
  intros out [-> | ->]; split; intros e He Hk; simpl in He.
  - eapply (frame_existing_wins name); [|exact He|exact Hk].
    apply merge_unique_frame, sort_by_key_perm.
  - eapply (frame_existing_wins id); [|exact He|exact Hk].
    apply merge_unique_frame, sort_by_key_reverse_perm.
  - eapply (frame_existing_wins name); [|exact He|exact Hk].
    apply merge_filter_frame, sort_by_key_perm.
  - eapply (frame_existing_wins id); [|exact He|exact Hk].
    apply merge_filter_frame, sort_by_key_reverse_perm.
Qed.

Lemma merge_existing_record_kept_witness :
  let store := mkStore [mkEntity "BERT" "kept" ["old"]] [] in
  let new_entities := [mkEntity "BERT" "refreshed" ["new"]] in
  let e := mkEntity "BERT" "kept" ["old"] in
  e ∈ entities (EnhanceExtraction.main store new_entities []) ∧
  e ∈ entities store.
Proof.
  intros store new_entities e.
  assert (e ∈ entities (EnhanceExtraction.main store new_entities []))
    as He by (vm_compute; left).
  split; [exact He|].
  apply (proj1 (merge_existing_record_kept store new_entities []
                  (EnhanceExtraction.main store new_entities [])
                  (or_introl eq_refl)) e He).
  vm_compute. left.
Defined.

(** X6. A merge that brings nothing new changes nothing: when the store
    is in the order the scripts write it and every candidate's key is a
    key of the store, both scripts write the store back as it is. *)
Theorem merge_nothing_new (store : Store) (new_entities : list Entity)
    (new_events : list Event) :
  sorted_store store →
  (∀ e, e ∈ new_entities → name e ∈ name <$> entities store) →
  (∀ e, e ∈ new_events → id e ∈ id <$> events store) →
  EnhanceExtraction.main store new_entities new_events = store ∧
  ExtractPapers.main store new_entities new_events = store.
Proof.
  intros [Hse Hsv] He Hv.
  assert (∀ {A} (key : A → string) (existing new : list A),
            (∀ e, e ∈ new → key e ∈ key <$> existing) →
            EnhanceExtraction.merge_unique key existing new = existing ∧
            ExtractPapers.merge_filter key existing new = existing) as Hsame.
  { intros A key existing new Hin. split.
    - rewrite merge_unique_fresh, fresh_all_seen; [by rewrite app_nil_r|].
      intros x Hx. rewrite elem_of_list_to_set. by apply Hin.
    - unfold ExtractPapers.merge_filter.
      rewrite filter_none; [by rewrite app_nil_r|].
      intros x Hx Hnot. apply Hnot. rewrite elem_of_list_to_set.
      by apply Hin. }
  destruct store as [ents evts]. simpl in *.
  unfold EnhanceExtraction.main, ExtractPapers.main. simpl.
  destruct (Hsame _ name ents new_entities He) as [-> ->].
  destruct (Hsame _ id evts new_events Hv) as [-> ->].
  by rewrite sorted_by_key_id, sorted_by_key_reverse_id.
Qed.

Lemma merge_nothing_new_witness :
  let store :=
    mkStore [mkEntity "BERT" "kept" []; mkEntity "GAN" "kept" []]
      [mkEvent "2024-trend-theory" "2024-06-01T00:00:00Z" "" "research-trend";
       mkEvent "2019-12" "2019-01-01T00:00:00Z" "old" "theory"] in
  let new_entities := [mkEntity "GAN" "again" []] in
  let new_events := [mkEvent "2019-12" "2019-01-01T00:00:00Z" "t" "research"] in
  EnhanceExtraction.main store new_entities new_events = store ∧
  ExtractPapers.main store new_entities new_events = store.
Proof.
  intros store new_entities new_events.
  apply (merge_nothing_new store new_entities new_events).
  - split; repeat constructor; by_computation.
  - apply Forall_forall. by_computation.
  - apply Forall_forall. by_computation.
Defined.

(** X7. The order among equals: in both scripts, the entities written
    back under one name, and the events written back with one timestamp,
    stand in the order the merge put them in, the records of the store
    first and the added candidates after them in candidate order. *)
Theorem merge_order_among_equals (store : Store)
    (new_entities : list Entity) (new_events : list Event) (k : string) :
  (filter (λ e, name e = k)
     (entities (EnhanceExtraction.main store new_entities new_events))
   = filter (λ e, name e = k)
       (EnhanceExtraction.merge_unique name (entities store) new_entities) ∧
   filter (λ e, timestamp e = k)
     (events (EnhanceExtraction.main store new_entities new_events))
   = filter (λ e, timestamp e = k)
       (EnhanceExtraction.merge_unique id (events store) new_events)) ∧
  (filter (λ e, name e = k)
     (entities (ExtractPapers.main store new_entities new_events))
   = filter (λ e, name e = k)
       (ExtractPapers.merge_filter name (entities store) new_entities) ∧
   filter (λ e, timestamp e = k)
     (events (ExtractPapers.main store new_entities new_events))
   = filter (λ e, timestamp e = k)
       (ExtractPapers.merge_filter id (events store) new_events)).
Proof.
  simpl. split; split;
    (apply sort_by_key_stable || apply sort_by_key_reverse_stable).
Qed.

(** X29. Key uniqueness through a merge.  The store written back by
    [enhance_extraction.main] has pairwise distinct names exactly when
    the existing store has, and likewise for ids, whatever the
    candidates; the store written back by [extract_papers.main] has them
    exactly when, in addition, the candidates that carry a new key have
    pairwise distinct keys. *)
Theorem merge_key_uniqueness (store : Store) (new_entities : list Entity)
    (new_events : list Event) :
  let names : gset string := list_to_set (name <$> entities store) in
  let ids : gset string := list_to_set (id <$> events store) in
  let out := EnhanceExtraction.main store new_entities new_events in
  let out' := ExtractPapers.main store new_entities new_events in
  ((NoDup (name <$> entities out) ↔ NoDup (name <$> entities store)) ∧
   (NoDup (id <$> events out) ↔ NoDup (id <$> events store))) ∧
  ((NoDup (name <$> entities out') ↔
    NoDup (name <$> entities store) ∧
    NoDup (name <$> filter (λ e, name e ∉ names) new_entities)) ∧
   (NoDup (id <$> events out') ↔
    NoDup (id <$> events store) ∧
    NoDup (id <$> filter (λ e, id e ∉ ids) new_events))).
Proof.
  intros names ids out out'.
  assert (∀ {A} (key : A → string) (existing new : list A),
            NoDup (key <$> EnhanceExtraction.merge_unique key existing new)
            ↔ NoDup (key <$> existing)) as Hunique.
  { intros A key existing new. split; [|apply merge_unique_NoDup].
    rewrite merge_unique_fresh, fmap_app. by intros [? _]%NoDup_app. }
  assert (∀ {A} (key : A → string) (existing new : list A),
            NoDup (key <$> ExtractPapers.merge_filter key existing new)
            ↔ NoDup (key <$> existing) ∧
              NoDup (key <$> filter
                       (λ e, key e ∉ (list_to_set (key <$> existing)
                                        : gset string)) new)) as Hfilter.
  { intros A key existing new. unfold ExtractPapers.merge_filter.
    rewrite fmap_app, NoDup_app. split; [tauto|].
    intros [Hex Hnew]. split_and!; [done| |done].
    intros k Hk (x & -> & Hx)%list_elem_of_fmap.
    apply list_elem_of_filter in Hx as [Hx _].
    by rewrite elem_of_list_to_set in Hx. }
  unfold out, out'. simpl.
  rewrite !sort_by_key_perm, !sort_by_key_reverse_perm.
  split; split; (apply Hunique || apply Hfilter).
Qed.

(** ** Years, timestamps and ids *)

(** X8. A year, when there is one, lies in 2000..2099 in both scripts:
    the two digits are added to 2000 whatever they are, so that an
    identifier of 1999 such as 9901 gives 2099. *)
Theorem year_in_century (url : string) (year : nat) :
  EnhanceExtraction.extract_year_from_url url = Some year ∨
  ExtractPapers.extract_year_from_url url = Some year →
  2000 ≤ year ≤ 2099.
Proof.
  intros [Hy|Hy]; [|rewrite extract_year_same in Hy];
    by apply extract_year_range in Hy.
Qed.

Lemma year_in_century_witness : 2000 ≤ 2099 ≤ 2099.
Proof.
  apply (year_in_century "https://arxiv.org/abs/9901.00001" 2099).
  left. by vm_compute.
Defined.

(** Facts about the years 2000..2099, checked on each of them. *)
Lemma year_cases (P : nat → Prop) (check : nat → bool) :
  (∀ y, check y = true → P y) →
  forallb check (seq 2000 100) = true →
  ∀ y, 2000 ≤ y ≤ 2099 → P y.
Proof.
  intros Hc Hall y Hy. apply Hc.
  rewrite forallb_forall in Hall. apply Hall, in_seq. lia.
Qed.

Lemma year_len (y : nat) :
  2000 ≤ y ≤ 2099 → Py.len (Py.str_of_nat y) = 4.
Proof.
  revert y.
  apply (year_cases _ (λ y, Py.len (Py.str_of_nat y) =? 4)).
  - intros y' Hc. by apply Nat.eqb_eq in Hc.
  - by vm_compute.
Qed.

Lemma year_timestamp_order (y1 y2 : nat) :
  2000 ≤ y1 ≤ 2099 → 2000 ≤ y2 ≤ 2099 →
  String.le (Py.str_of_nat y1 +:+ "-01-01T00:00:00Z")
            (Py.str_of_nat y2 +:+ "-01-01T00:00:00Z") ↔ y1 ≤ y2.
Proof.
  intros H1 H2. revert y2 H2. revert y1 H1.
  apply (year_cases
    (λ y1, ∀ y2, 2000 ≤ y2 ≤ 2099 →
       String.le (Py.str_of_nat y1 +:+ "-01-01T00:00:00Z")
                 (Py.str_of_nat y2 +:+ "-01-01T00:00:00Z") ↔ y1 ≤ y2)
    (λ y1, forallb (λ y2,
       Bool.eqb (String.leb (Py.str_of_nat y1 +:+ "-01-01T00:00:00Z")
                            (Py.str_of_nat y2 +:+ "-01-01T00:00:00Z"))
                (y1 <=? y2)) (seq 2000 100))); [|by vm_compute].
  intros y1 Hall y2 Hy2. rewrite forallb_forall in Hall.
  specialize (Hall y2). rewrite in_seq in Hall.
  apply Bool.eqb_prop in Hall; [|lia].
  unfold String.le. rewrite Hall. rewrite Is_true_true. apply Nat.leb_le.
Qed.

(** X9. Sorting the publication events by timestamp sorts them by year:
    the timestamps of two publication events compare, as strings, like
    the years of their papers. *)
Theorem publication_timestamps_by_year (lower : string → string)
    (p q : EnhanceExtraction.Paper) (y1 y2 : nat) (e1 e2 : Event) :
  EnhanceExtraction.extract_year_from_url (EnhanceExtraction.url p) = Some y1 →
  EnhanceExtraction.extract_year_from_url (EnhanceExtraction.url q) = Some y2 →
  e1 ∈ EnhanceExtraction.paper_events lower p →
  e2 ∈ EnhanceExtraction.paper_events lower q →
  String.le (timestamp e1) (timestamp e2) ↔ y1 ≤ y2.
Proof.
  unfold EnhanceExtraction.paper_events. intros H1 H2. rewrite H1, H2.
  apply extract_year_range in H1, H2.
  destruct (_ && _); [|by intros ?%elem_of_nil].
  destruct (_ && _); [|by intros _ ?%elem_of_nil].
  intros ->%list_elem_of_singleton ->%list_elem_of_singleton. simpl.
  by apply year_timestamp_order.
Qed.

Lemma publication_timestamps_by_year_witness :
  let p := EnhanceExtraction.mkPaper (EnhanceExtraction.IdInt 1) "Old" [] []
             "" "https://arxiv.org/abs/0704.0001" in
  let q := EnhanceExtraction.mkPaper (EnhanceExtraction.IdInt 2) "New" [] []
             "" "https://arxiv.org/abs/2502.19614" in
  let e1 := mkEvent "2007-1" "2007-01-01T00:00:00Z" "Old" "research" in
  let e2 := mkEvent "2025-2" "2025-01-01T00:00:00Z" "New" "research" in
  EnhanceExtraction.paper_events (λ s, s) p = [e1] ∧
  EnhanceExtraction.paper_events (λ s, s) q = [e2] ∧
  (String.le (timestamp e1) (timestamp e2) ↔ 2007 ≤ 2025).
Proof.
  intros p q e1 e2. split; [by vm_compute|]. split; [by vm_compute|].
  apply (publication_timestamps_by_year (λ s, s) p q 2007 2025 e1 e2);
    [by vm_compute|by vm_compute|vm_compute; left|vm_compute; left].
Defined.

(** ** Topics *)

Lemma existsb_elem_of {A} (f : A → bool) (l : list A) :
  existsb f l = true ↔ ∃ x, x ∈ l ∧ f x = true.
Proof.
  rewrite existsb_exists. by setoid_rewrite list_elem_of_In.
Qed.

Lemma pick_topics_spec (test : list string → bool)
    (table : list (string * list string)) (topic : string) :
  topic ∈ ('(t, keywords) ← table; if test keywords then [t] else []) ↔
  ∃ keywords, (topic, keywords) ∈ table ∧ test keywords = true.
Proof.
  rewrite list_elem_of_bind. split.
  - intros ([t kws] & Hin & Htab). destruct (test kws) eqn:Ht.
    + apply list_elem_of_singleton in Hin as ->. eauto.
    + by apply elem_of_nil in Hin.
  - intros (kws & Htab & Ht). exists (topic, kws). rewrite Ht.
    split; [by left|done].
Qed.

Lemma pick_topics_sublist (test : list string → bool)
    (table : list (string * list string)) :
  ('(t, keywords) ← table; if test keywords then [t] else [])
    `sublist_of` table.*1.
Proof.
  induction table as [|[t kws] table IH]; [done|].
  rewrite bind_cons, fmap_cons. simpl. destruct (test kws); simpl.
  - by apply sublist_skip.
  - by apply sublist_cons.
Qed.

(** X10. A paper earns a topic label exactly when one of the label's
    keywords occurs in the lowered title, a space and the abstract. *)
Theorem categorize_paper_spec (lower : string → string)
    (title abstract : string) (categories : list string) (topic : string) :
  topic ∈ EnhanceExtraction.categorize_paper lower title abstract categories
  ↔ ∃ keywords keyword,
      (topic, keywords) ∈ EnhanceExtraction.topic_keywords ∧
      keyword ∈ keywords ∧
      substring keyword (lower (title +:+ " " +:+ abstract)).
Proof.
  unfold EnhanceExtraction.categorize_paper.
  rewrite (pick_topics_spec
    (existsb (λ keyword,
       Py.contains keyword (lower (title +:+ " " +:+ abstract))))).
  split.
  - intros (kws & Htab & (kw & Hkw & Hc%contains_spec)%existsb_elem_of).
    eauto.
  - intros (kws & kw & Htab & Hkw & Hc%contains_spec).
    exists kws. split; [done|]. apply existsb_elem_of. eauto.
Qed.

(** X11. The labels of a paper come in the order of the taxonomy, each
    at most once, so there are at most ten; the categories of the paper
    play no part. *)
Theorem categorize_paper_order (lower : string → string)
    (title abstract : string) (categories : list string) :
  let topics :=
    EnhanceExtraction.categorize_paper lower title abstract categories in
  topics `sublist_of` EnhanceExtraction.topic_keywords.*1 ∧
  NoDup topics ∧ length topics ≤ 10 ∧
  ∀ categories',
    EnhanceExtraction.categorize_paper lower title abstract categories'
    = topics.
Proof.
  intros topics.
  assert (topics `sublist_of` EnhanceExtraction.topic_keywords.*1) as Hsub.
  { apply (pick_topics_sublist
      (existsb (λ keyword,
         Py.contains keyword (lower (title +:+ " " +:+ abstract))))). }
  split_and!; [done| | |done].
  - eapply sublist_NoDup; [|done]. by_computation.
  - apply sublist_length in Hsub. by vm_compute in Hsub.
Qed.

(** ** Counters *)

Section Counters.
Context `{EqDecision K}.
Implicit Types (c : Py.Counter K) (k : K) (ks : list K).

Lemma counter_get_incr k k' c :
  Py.counter_get k (Py.counter_incr k' c)
  = if decide (k = k') then S (Py.counter_get k c) else Py.counter_get k c.
Proof.
  induction c as [|[k0 n] c IH]; simpl.
  { by destruct (decide (k = k')). }
  destruct (decide (k' = k0)) as [->|Hne]; simpl.
  - by destruct (decide (k = k0)).
  - rewrite IH. destruct (decide (k = k0)) as [->|]; [|done].
    by rewrite decide_False by done.
Qed.

Lemma counter_get_count_all k c ks :
  Py.counter_get k (Py.count_all c ks)
  = Py.counter_get k c + length (filter (λ k', k' = k) ks).
Proof.
  unfold Py.count_all. revert c.
  induction ks as [|k' ks IH]; intros c; simpl; [lia|].
  rewrite IH, counter_get_incr, filter_cons.
  destruct (decide (k = k')) as [->|Hne].
  - rewrite decide_True by done. simpl. lia.
  - rewrite decide_False by done. done.
Qed.

Lemma count_all_keys k c ks :
  k ∈ (Py.count_all c ks).*1 ↔ k ∈ c.*1 ∨ k ∈ ks.
Proof.
  unfold Py.count_all. revert c.
  induction ks as [|k' ks IH]; intros c; simpl.
  { rewrite elem_of_nil. tauto. }
  rewrite IH, counter_incr_keys, elem_of_cons.
  destruct (decide (k' ∈ c.*1)) as [Hin|Hin].
  - split; [tauto|]. intros [?|[->|?]]; tauto.
  - rewrite elem_of_app, list_elem_of_singleton. tauto.
Qed.

Lemma count_all_NoDup c ks : NoDup c.*1 → NoDup (Py.count_all c ks).*1.
Proof.
  unfold Py.count_all. revert c.
  induction ks as [|k' ks IH]; intros c Hc; simpl; [done|].
  by apply IH, counter_incr_NoDup.
Qed.

(** An entry of a counter holds the count of its key. *)
Lemma counter_entry_get k n c :
  NoDup c.*1 → (k, n) ∈ c → Py.counter_get k c = n.
Proof.
  induction c as [|[k0 n0] c IH]; simpl.
  { by intros _ ?%elem_of_nil. }
  intros [Hk Hnd]%NoDup_cons [[= -> ->]|Hin]%elem_of_cons.
  - by rewrite decide_True.
  - rewrite decide_False; [by apply IH|].
    intros ->. apply Hk. by apply (list_elem_of_fmap_2 fst) in Hin.
Qed.

Lemma counter_key_entry k c :
  k ∈ c.*1 → (k, Py.counter_get k c) ∈ c.
Proof.
  induction c as [|[k0 n0] c IH]; simpl.
  { by intros ?%elem_of_nil. }
  destruct (decide (k = k0)) as [->|Hne]; [by left|].
  intros [?|Hin]%elem_of_cons; [done|]. right. by apply IH.
Qed.

(** Counting over a list of lists. *)
Lemma counter_get_fold {B} (f : B → list K) k c (l : list B) :
  Py.counter_get k (foldl (λ st x, Py.count_all st (f x)) c l)
  = Py.counter_get k c + length (filter (λ k', k' = k) (l ≫= f)).
Proof.
  revert c. induction l as [|x l IH]; intros c; [simpl; lia|].
  cbn [foldl].
  rewrite IH, counter_get_count_all, bind_cons, filter_app, length_app. lia.
Qed.

Lemma fold_keys {B} (f : B → list K) k c (l : list B) :
  k ∈ (foldl (λ st x, Py.count_all st (f x)) c l).*1
  ↔ k ∈ c.*1 ∨ k ∈ (l ≫= f).
Proof.
  revert c. induction l as [|x l IH]; intros c.
  { simpl. rewrite elem_of_nil. tauto. }
  cbn [foldl]. rewrite IH, count_all_keys, bind_cons, elem_of_app. tauto.
Qed.

Lemma fold_NoDup {B} (f : B → list K) c (l : list B) :
  NoDup c.*1 → NoDup (foldl (λ st x, Py.count_all st (f x)) c l).*1.
Proof.
  revert c. induction l as [|x l IH]; intros c Hc; simpl; [done|].
  by apply IH, count_all_NoDup.
Qed.

End Counters.

Lemma filter_bind {A B} (P : B → Prop) `{!∀ x, Decision (P x)}
    (f : A → list B) (l : list A) :
  filter P (l ≫= f) = l ≫= (λ x, filter P (f x)).
Proof.
  induction l as [|x l IH]; [done|].
  by rewrite !bind_cons, filter_app, IH.
Qed.

Lemma track_authors_count_all (stats : Py.Counter string)
    (p : EnhanceExtraction.Paper) :
  EnhanceExtraction.track_authors stats p
  = Py.count_all stats (filter (λ a, a ≠ "") (EnhanceExtraction.authors p)).
Proof.
  unfold EnhanceExtraction.track_authors, Py.count_all.
  generalize (EnhanceExtraction.authors p). intros l. revert stats.
  induction l as [|a l IH]; intros stats; [done|].
  rewrite filter_cons. simpl. destruct (decide (a ≠ "")) as [Ha|Ha].
  - rewrite bool_decide_eq_true_2 by done. simpl. apply IH.
  - rewrite bool_decide_eq_false_2 by done. apply IH.
Qed.

Lemma author_stats_fold (papers : list EnhanceExtraction.Paper) :
  EnhanceExtraction.author_stats papers
  = foldl (λ st p, Py.count_all st
             (filter (λ a, a ≠ "") (EnhanceExtraction.authors p)))
      [] papers.
Proof.
  unfold EnhanceExtraction.author_stats. generalize ([] : Py.Counter string).
  induction papers as [|p papers IH]; intros c; [done|]. simpl.
  by rewrite track_authors_count_all, IH.
Qed.

(** X12. The author counter counts occurrences: an author's count is
    the number of times the name stands in the author lists of the
    papers (twice for a paper that lists it twice), the empty name is
    never counted, and an author has an entry exactly when listed. *)
Theorem author_stats_counts (papers : list EnhanceExtraction.Paper)
    (author : string) :
  let stats := EnhanceExtraction.author_stats papers in
  let listed := papers ≫= EnhanceExtraction.authors in
  NoDup stats.*1 ∧
  ("" ∉ stats.*1) ∧
  (author ≠ "" →
   Py.counter_get author stats = length (filter (λ a, a = author) listed) ∧
   (author ∈ stats.*1 ↔ author ∈ listed)).
Proof.
  intros stats listed. unfold stats. rewrite author_stats_fold.
  split_and!.
  - apply fold_NoDup. constructor.
  - rewrite fold_keys. intros [?%elem_of_nil|Hin]; [done|].
    apply list_elem_of_bind in Hin as (p & Hin & _).
    by apply list_elem_of_filter in Hin as [? _].
  - intros Ha. split.
    + rewrite counter_get_fold. cbn [Py.counter_get]. rewrite Nat.add_0_l.
      f_equal. unfold listed.
      rewrite !filter_bind. apply list_bind_ext; [|done].
      intros p. rewrite list_filter_filter. apply list_filter_iff.
      intros a. split; [by intros [? _]|]. intros ->. done.
    + rewrite fold_keys. unfold listed. rewrite !list_elem_of_bind. split.
      * intros [?%elem_of_nil|(p & Hin & Hp)]; [done|].
        apply list_elem_of_filter in Hin as [_ Hin]. eauto.
      * intros (p & Hin & Hp). right. exists p. split; [|done].
        by apply list_elem_of_filter.
Qed.

Lemma author_stats_counts_witness :
  let papers :=
    [EnhanceExtraction.mkPaper (EnhanceExtraction.IdInt 7) "On sorting"
       ["A. Turing"; ""; "A. Turing"] [] "" "";
     EnhanceExtraction.mkPaper (EnhanceExtraction.IdInt 8) "On merging"
       ["A. Turing"] [] "" ""] in
  Py.counter_get "A. Turing" (EnhanceExtraction.author_stats papers) = 3.
Proof.
  intros papers.
  destruct (author_stats_counts papers "A. Turing") as (_ & _ & Hc).
  destruct Hc as [-> _]; [done|]. by vm_compute.
Defined.

Lemma track_year_count_all (stats : Py.Counter nat)
    (p : EnhanceExtraction.Paper) :
  EnhanceExtraction.track_year stats p
  = Py.count_all stats
      (option_list (EnhanceExtraction.extract_year_from_url
                      (EnhanceExtraction.url p))).
Proof.
  unfold EnhanceExtraction.track_year.
  destruct (EnhanceExtraction.extract_year_from_url _) as [y|] eqn:Hy;
    [|done].
  apply extract_year_range in Hy.
  by rewrite bool_decide_eq_true_2 by lia.
Qed.

Lemma yearly_stats_fold (papers : list EnhanceExtraction.Paper) :
  EnhanceExtraction.yearly_stats papers
  = foldl (λ st p, Py.count_all st
             (option_list (EnhanceExtraction.extract_year_from_url
                             (EnhanceExtraction.url p))))
      [] papers.
Proof.
  unfold EnhanceExtraction.yearly_stats. generalize ([] : Py.Counter nat).
  induction papers as [|p papers IH]; intros c; [done|]. simpl.
  by rewrite track_year_count_all, IH.
Qed.

(** The number of elements of [l] whose list [f x] holds [k], when the
    lists hold no element twice. *)
Lemma count_bind_NoDup {A} `{EqDecision K} (f : A → list K) (k : K)
    (l : list A) :
  (∀ x, NoDup (f x)) →
  length (filter (λ k', k' = k) (l ≫= f))
  = length (filter (λ x, k ∈ f x) l).
Proof.
  intros Hnd. induction l as [|x l IH]; [done|].
  rewrite bind_cons, filter_app, length_app, IH, filter_cons.
  assert (length (filter (λ k', k' = k) (f x))
          = if decide (k ∈ f x) then 1 else 0) as ->.
  { specialize (Hnd x). induction Hnd as [|k0 ks Hk0 Hks IHk]; [done|].
    rewrite filter_cons. destruct (decide (k0 = k)) as [->|Hne].
    - rewrite decide_True by (by left). simpl. rewrite IHk.
      by rewrite decide_False.
    - rewrite IHk. destruct (decide (k ∈ ks)) as [Hin|Hin].
      + rewrite decide_True by (by right). done.
      + rewrite decide_False; [done|]. rewrite not_elem_of_cons. done. }
  by destruct (decide (k ∈ f x)).
Qed.

Lemma yearly_stats_NoDup (papers : list EnhanceExtraction.Paper) :
  NoDup (EnhanceExtraction.yearly_stats papers).*1.
Proof. rewrite yearly_stats_fold. apply fold_NoDup. constructor. Qed.

Lemma yearly_stats_get (papers : list EnhanceExtraction.Paper) (year : nat) :
  Py.counter_get year (EnhanceExtraction.yearly_stats papers)
  = length (filter (λ p, EnhanceExtraction.extract_year_from_url
                           (EnhanceExtraction.url p) = Some year) papers).
Proof.
  rewrite yearly_stats_fold.
  rewrite counter_get_fold. cbn [Py.counter_get]. rewrite Nat.add_0_l.
  rewrite count_bind_NoDup.
  - f_equal. apply list_filter_iff. intros p.
    destruct (EnhanceExtraction.extract_year_from_url _); simpl.
    + rewrite list_elem_of_singleton. split; congruence.
    + rewrite elem_of_nil. split; [done|congruence].
  - intros p. destruct (EnhanceExtraction.extract_year_from_url _);
      simpl; [apply NoDup_singleton|constructor].
Qed.

Lemma yearly_stats_keys (papers : list EnhanceExtraction.Paper) (year : nat) :
  year ∈ (EnhanceExtraction.yearly_stats papers).*1 → 2000 ≤ year ≤ 2099.
Proof.
  rewrite yearly_stats_fold.
  rewrite fold_keys. intros [?%elem_of_nil|Hin]; [done|].
  apply list_elem_of_bind in Hin as (p & Hin & _).
  destruct (EnhanceExtraction.extract_year_from_url _) as [y|] eqn:Hy;
    simpl in Hin; [|by apply elem_of_nil in Hin].
  apply list_elem_of_singleton in Hin as ->.
  by apply extract_year_range in Hy.
Qed.

(** X13. The yearly counter counts papers: the count of a year is the
    number of papers whose url gives that year, and every counted year
    lies in 2000..2099. *)
Theorem yearly_stats_counts (papers : list EnhanceExtraction.Paper)
    (year : nat) :
  let stats := EnhanceExtraction.yearly_stats papers in
  NoDup stats.*1 ∧
  Py.counter_get year stats
  = length (filter (λ p, EnhanceExtraction.extract_year_from_url
                           (EnhanceExtraction.url p) = Some year) papers) ∧
  (year ∈ stats.*1 → 2000 ≤ year ≤ 2099).
Proof.
  intros stats. split_and!.
  - apply yearly_stats_NoDup.
  - apply yearly_stats_get.
  - apply yearly_stats_keys.
Qed.

Lemma categorize_paper_sublist (lower : string → string)
    (title abstract : string) (categories : list string) :
  EnhanceExtraction.categorize_paper lower title abstract categories
    `sublist_of` EnhanceExtraction.topic_keywords.*1.
Proof.
  apply (pick_topics_sublist
    (existsb (λ keyword,
       Py.contains keyword (lower (title +:+ " " +:+ abstract))))).
Qed.

Lemma categorize_paper_NoDup (lower : string → string)
    (title abstract : string) (categories : list string) :
  NoDup (EnhanceExtraction.categorize_paper lower title abstract categories).
Proof.
  eapply sublist_NoDup; [|apply categorize_paper_sublist]. by_computation.
Qed.

Lemma topic_stats_NoDup (lower : string → string)
    (papers : list EnhanceExtraction.Paper) :
  NoDup (EnhanceExtraction.topic_stats lower papers).*1.
Proof. apply fold_NoDup. constructor. Qed.

Lemma topic_stats_get (lower : string → string)
    (papers : list EnhanceExtraction.Paper) (topic : string) :
  Py.counter_get topic (EnhanceExtraction.topic_stats lower papers)
  = length (filter (λ p, topic ∈ EnhanceExtraction.categorize_paper lower
                           (EnhanceExtraction.title p)
                           (EnhanceExtraction.abstract p)
                           (EnhanceExtraction.categories p)) papers).
Proof.
  unfold EnhanceExtraction.topic_stats.
  rewrite counter_get_fold. cbn [Py.counter_get]. rewrite Nat.add_0_l.
  apply count_bind_NoDup. intros p. apply categorize_paper_NoDup.
Qed.

Lemma topic_stats_keys (lower : string → string)
    (papers : list EnhanceExtraction.Paper) (topic : string) :
  topic ∈ (EnhanceExtraction.topic_stats lower papers).*1 →
  topic ∈ EnhanceExtraction.topic_keywords.*1.
Proof.
  unfold EnhanceExtraction.topic_stats.
  rewrite fold_keys. intros [?%elem_of_nil|Hin]; [done|].
  apply list_elem_of_bind in Hin as (p & Hin & _).
  eapply elem_of_sublist; [done|]. apply categorize_paper_sublist.
Qed.

(** X14. The topic counter counts papers: the count of a label is the
    number of papers that earn it, and only labels of the taxonomy are
    counted. *)
Theorem topic_stats_counts (lower : string → string)
    (papers : list EnhanceExtraction.Paper) (topic : string) :
  let stats := EnhanceExtraction.topic_stats lower papers in
  NoDup stats.*1 ∧
  Py.counter_get topic stats
  = length (filter (λ p, topic ∈ EnhanceExtraction.categorize_paper lower
                           (EnhanceExtraction.title p)
                           (EnhanceExtraction.abstract p)
                           (EnhanceExtraction.categories p)) papers) ∧
  (topic ∈ stats.*1 → topic ∈ EnhanceExtraction.topic_keywords.*1).
Proof.
  intros stats. split_and!.
  - apply topic_stats_NoDup.
  - apply topic_stats_get.
  - apply topic_stats_keys.
Qed.

(** ** Records made from counters *)

Section Ranked.
Context {K B : Type} `{EqDecision K}.
Context (thr : nat) (mk : K → nat → B).
Implicit Types (stats : Py.Counter K) (ranking : list (K * nat)).

Lemma over_threshold_spec ranking (b : B) :
  b ∈ ('(k, n) ← ranking; if decide (thr ≤ n) then [mk k n] else []) ↔
  ∃ k n, (k, n) ∈ ranking ∧ thr ≤ n ∧ b = mk k n.
Proof.
  rewrite list_elem_of_bind. split.
  - intros ([k n] & Hb & Hin).
    destruct (decide (thr ≤ n)); [|by apply elem_of_nil in Hb].
    apply list_elem_of_singleton in Hb. eauto.
  - intros (k & n & Hin & Hn & ->). exists (k, n).
    split; [|done]. rewrite decide_True by done. by left.
Qed.

Lemma over_threshold_length ranking :
  length ('(k, n) ← ranking; if decide (thr ≤ n) then [mk k n] else [])
  ≤ length ranking.
Proof.
  induction ranking as [|[k n] ranking IH]; [done|].
  rewrite bind_cons, length_app. simpl.
  destruct (decide (thr ≤ n)); simpl; lia.
Qed.

(** Without a cap, the records are those of the keys whose count
    reaches the threshold. *)
Lemma over_threshold_all stats (b : B) :
  0 < thr → NoDup stats.*1 →
  b ∈ ('(k, n) ← Py.most_common_all stats;
       if decide (thr ≤ n) then [mk k n] else []) ↔
  ∃ k, thr ≤ Py.counter_get k stats ∧ b = mk k (Py.counter_get k stats).
Proof.
  intros Hthr Hnd. rewrite over_threshold_spec. unfold Py.most_common_all.
  split.
  - intros (k & n & Hin & Hn & ->). rewrite sort_perm in Hin.
    exists k. by rewrite (counter_entry_get k n stats Hnd Hin).
  - intros (k & Hk & ->). exists k, (Py.counter_get k stats).
    split_and!; [|done..]. rewrite sort_perm. apply counter_key_entry.
    clear -Hk Hthr. induction stats as [|[k0 n0] stats IH]; simpl in *; [lia|].
    destruct (decide (k = k0)) as [->|]; [by left|]. right. by apply IH.
Qed.

End Ranked.

Lemma most_common_length {K} (n : nat) (stats : Py.Counter K) :
  length (Py.most_common n stats) ≤ n.
Proof. unfold Py.most_common. rewrite length_take. lia. Qed.

(** X15. Trend events: a trend event is emitted for a label exactly
    when at least 20 papers earn the label, and it states that number. *)
Theorem trend_events_spec (lower : string → string)
    (papers : list EnhanceExtraction.Paper) (e : Event) :
  let earned topic :=
    length (filter (λ p, topic ∈ EnhanceExtraction.categorize_paper lower
                           (EnhanceExtraction.title p)
                           (EnhanceExtraction.abstract p)
                           (EnhanceExtraction.categories p)) papers) in
  e ∈ EnhanceExtraction.trend_events
        (EnhanceExtraction.topic_stats lower papers) ↔
  ∃ topic, 20 ≤ earned topic ∧
           e = EnhanceExtraction.trend_event topic (earned topic).
Proof.
  intros earned. unfold EnhanceExtraction.trend_events.
  rewrite (over_threshold_all 20 EnhanceExtraction.trend_event);
    [|lia|apply topic_stats_NoDup].
  unfold earned. split; intros (topic & Hn & ->); exists topic.
  - by rewrite <-topic_stats_get.
  - by rewrite topic_stats_get.
Qed.

(** X16. Yearly milestones: a milestone event is emitted for a year
    exactly when at least 50 papers have that year, and it states that
    number. *)
Theorem milestone_events_spec (papers : list EnhanceExtraction.Paper)
    (e : Event) :
  let published year :=
    length (filter (λ p, EnhanceExtraction.extract_year_from_url
                           (EnhanceExtraction.url p) = Some year) papers) in
  e ∈ EnhanceExtraction.milestone_events
        (EnhanceExtraction.yearly_stats papers) ↔
  ∃ year, 50 ≤ published year ∧
          e = EnhanceExtraction.milestone_event year (published year).
Proof.
  intros published. unfold EnhanceExtraction.milestone_events.
  rewrite (over_threshold_all 50 EnhanceExtraction.milestone_event);
    [|lia|apply yearly_stats_NoDup].
  unfold published. split; intros (year & Hn & ->); exists year.
  - by rewrite <-yearly_stats_get.
  - by rewrite yearly_stats_get.
Qed.

Section Capped.
Context {B : Type} (cap thr : nat) (mk : string → nat → B).
Context (name_of : B → string).
Hypothesis name_of_mk : ∀ k n, name_of (mk k n) = k.
Implicit Types (stats : Py.Counter string).

Lemma capped_length stats :
  length ('(k, n) ← Py.most_common cap stats;
          if decide (thr ≤ n) then [mk k n] else []) ≤ cap.
Proof.
  etrans; [apply over_threshold_length|apply most_common_length].
Qed.

Lemma capped_below stats (k : string) (n : nat) (b : B) :
  NoDup stats.*1 → (k, n) ∈ stats → n < thr →
  b ∈ ('(k, n) ← Py.most_common cap stats;
       if decide (thr ≤ n) then [mk k n] else []) →
  name_of b ≠ k.
Proof.
  intros Hnd Hin Hn (k' & n' & Hin'%most_common_subset & Hn' & ->)
    %over_threshold_spec.
  rewrite name_of_mk. intros ->.
  pose proof (counter_unique stats k n n' Hnd Hin Hin'). lia.
Qed.

Lemma capped_in stats (k : string) (n : nat) :
  (k, n) ∈ stats → thr ≤ n →
  length (filter (λ y, n ≤ y.2) stats) ≤ cap →
  mk k n ∈ ('(k, n) ← Py.most_common cap stats;
            if decide (thr ≤ n) then [mk k n] else []).
Proof.
  intros Hin Hn Hrank. apply over_threshold_spec. exists k, n.
  split_and!; [|done..]. by apply most_common_rank.
Qed.

End Capped.

(** X17. Model and institution entities.  A model counted fewer than 3
    times, or an institution counted fewer than 2 times, gets no entity;
    one that reaches its threshold gets its entity when no more than the
    cap (100 models, 50 institutions) have a count at least as high; and
    the caps hold: at most 200 author, 100 model and 50 institution
    entities are made. *)
Theorem entity_thresholds (stats : Py.Counter string) (k : string)
    (n : nat) :
  NoDup stats.*1 → (k, n) ∈ stats →
  ((n < 3 → ∀ e, e ∈ EnhanceExtraction.model_entities stats → name e ≠ k) ∧
   (3 ≤ n → length (filter (λ y, n ≤ y.2) stats) ≤ 100 →
    EnhanceExtraction.model_entity k n
      ∈ EnhanceExtraction.model_entities stats)) ∧
  ((n < 2 →
    ∀ e, e ∈ EnhanceExtraction.institution_entities stats → name e ≠ k) ∧
   (2 ≤ n → length (filter (λ y, n ≤ y.2) stats) ≤ 50 →
    EnhanceExtraction.institution_entity k n
      ∈ EnhanceExtraction.institution_entities stats)) ∧
  length (EnhanceExtraction.author_entities stats) ≤ 200 ∧
  length (EnhanceExtraction.model_entities stats) ≤ 100 ∧
  length (EnhanceExtraction.institution_entities stats) ≤ 50.
Proof.
  intros Hnd Hin. split_and!.
  - intros Hn e He.
    apply (capped_below 100 3 EnhanceExtraction.model_entity name
             (λ _ _, eq_refl) stats k n e Hnd Hin Hn He).
  - intros Hn Hrank.
    apply (capped_in 100 3 EnhanceExtraction.model_entity stats k n
             Hin Hn Hrank).
  - intros Hn e He.
    apply (capped_below 50 2 EnhanceExtraction.institution_entity name
             (λ _ _, eq_refl) stats k n e Hnd Hin Hn He).
  - intros Hn Hrank.
    apply (capped_in 50 2 EnhanceExtraction.institution_entity stats k n
             Hin Hn Hrank).
  - apply (capped_length 200 2 EnhanceExtraction.author_entity).
  - apply (capped_length 100 3 EnhanceExtraction.model_entity).
  - apply (capped_length 50 2 EnhanceExtraction.institution_entity).
Qed.

Lemma entity_thresholds_witness :
  let stats := [("GPT", 3); ("BERT", 2); ("MIT", 2)] in
  EnhanceExtraction.model_entity "GPT" 3
    ∈ EnhanceExtraction.model_entities stats ∧
  (∀ e, e ∈ EnhanceExtraction.model_entities stats → name e ≠ "BERT") ∧
  EnhanceExtraction.institution_entity "MIT" 2
    ∈ EnhanceExtraction.institution_entities stats.
Proof.
  intros stats.
  destruct (entity_thresholds stats "GPT" 3) as ([_ Hgpt] & _);
    [by_computation..|].
  destruct (entity_thresholds stats "BERT" 2) as ([Hbert _] & _);
    [by_computation..|].
  destruct (entity_thresholds stats "MIT" 2) as (_ & [_ Hmit] & _);
    [by_computation..|].
  split_and!.
  - apply Hgpt; [lia|]. vm_compute. lia.
  - apply Hbert. lia.
  - apply Hmit; [lia|]. vm_compute. lia.
Defined.

(** ** The candidates of a run *)

(** X18. The entities of [enhanced_extraction]: the five concept
    records always close the list, after at most 350 records derived
    from the corpus; an empty corpus gives the concepts and no event. *)
Theorem enhanced_extraction_entities (lower : string → string)
    (models_of : string → list string)
    (institutions_of : string → list string → list string)
    (papers : list EnhanceExtraction.Paper) :
  (∃ derived,
     (EnhanceExtraction.enhanced_extraction lower models_of institutions_of
        papers).1 = derived ++ EnhanceExtraction.concepts ∧
     length derived ≤ 350) ∧
  EnhanceExtraction.enhanced_extraction lower models_of institutions_of []
  = (EnhanceExtraction.concepts, []).
Proof.
  split; [|done]. unfold EnhanceExtraction.enhanced_extraction. simpl.
  eexists. rewrite !app_assoc. split; [done|]. rewrite !length_app.
  pose proof (capped_length 200 2 EnhanceExtraction.author_entity
                (EnhanceExtraction.author_stats papers)).
  pose proof (capped_length 100 3 EnhanceExtraction.model_entity
                (EnhanceExtraction.model_stats models_of papers)).
  pose proof (capped_length 50 2 EnhanceExtraction.institution_entity
                (EnhanceExtraction.institution_stats institutions_of papers)).
  unfold EnhanceExtraction.author_entities, EnhanceExtraction.model_entities,
    EnhanceExtraction.institution_entities. lia.
Qed.

(** X19. Whatever the corpus and the store, after a run the store has
    an entity under each of the five concept names. *)
Theorem run_keeps_concepts (lower : string → string)
    (models_of : string → list string)
    (institutions_of : string → list string → list string)
    (papers : list EnhanceExtraction.Paper) (store : Store) (concept : string) :
  concept ∈ ["Transformer Architecture"; "Diffusion Models";
             "Large Language Models"; "Foundation Models";
             "Model Context Protocol"] →
  concept ∈ name <$> entities
    (EnhanceExtraction.run lower models_of institutions_of papers store).
Proof.
  intros Hc. unfold EnhanceExtraction.run, EnhanceExtraction.enhanced_extraction.
  simpl. rewrite sort_by_key_perm.
  rewrite <-(elem_of_list_to_set (C:=gset string)), merge_unique_keys.
  apply elem_of_union_r, elem_of_list_to_set.
  rewrite !fmap_app, !elem_of_app. by do 3 right.
Qed.

Lemma run_keeps_concepts_witness :
  "Foundation Models" ∈ name <$> entities
    (EnhanceExtraction.run (λ s, s) (λ _, []) (λ _ _, []) []
       (mkStore [mkEntity "Foundation Models" "kept" []] [])).
Proof.
  apply (run_keeps_concepts (λ s, s) (λ _, []) (λ _ _, []) []
           (mkStore [mkEntity "Foundation Models" "kept" []] [])).
  by_computation.
Defined.

Lemma characters_append (a b : string) :
  characters (a +:+ b) = characters a + characters b.
Proof.
  induction a as [|c a IH]; [done|].
  rewrite append_cons. simpl. rewrite IH. lia.
Qed.

(** A slice of [n] characters has at most [n] characters, however many
    bytes they take. *)
Lemma take_str_characters (n : nat) (s : string) :
  characters (Py.take_str n s) ≤ n.
Proof.
  revert n. induction s as [|c s IH]; intros n; simpl; [lia|].
  destruct (Py.is_continuation c) eqn:Hc; simpl.
  - rewrite Hc. apply IH.
  - destruct n as [|n]; simpl; [lia|]. rewrite Hc. specialize (IH n). lia.
Qed.

Lemma year_characters (y : nat) :
  2000 ≤ y ≤ 2099 → characters (Py.str_of_nat y) = 4.
Proof.
  revert y.
  apply (year_cases _ (λ y, characters (Py.str_of_nat y) =? 4)).
  - intros y' Hc. by apply Nat.eqb_eq in Hc.
  - by vm_compute.
Qed.

Lemma paper_event_id_characters (lower : string → string)
    (p : EnhanceExtraction.Paper) (e : Event) :
  e ∈ EnhanceExtraction.paper_events lower p → characters (id e) ≤ 13.
Proof.
  unfold EnhanceExtraction.paper_events.
  destruct (EnhanceExtraction.extract_year_from_url _) as [y|] eqn:Hy;
    [|by intros ?%elem_of_nil].
  destruct (_ && _); [|by intros ?%elem_of_nil].
  intros ->%list_elem_of_singleton. cbn [id EnhanceExtraction.publication_event].
  apply extract_year_range, year_characters in Hy.
  pose proof (take_str_characters 8
    (EnhanceExtraction.str (EnhanceExtraction.paper_id p))) as Ht.
  rewrite !characters_append, Hy.
  change (characters "-") with 1. lia.
Qed.

Lemma milestone_id_characters (y : nat) :
  2000 ≤ y ≤ 2099 →
  characters (Py.str_of_nat y +:+ "-research-milestone") = 23.
Proof.
  intros Hy. rewrite characters_append, (year_characters y Hy). done.
Qed.

Lemma milestone_id_shape (y : nat) :
  2000 ≤ y ≤ 2099 →
  Py.len (Py.str_of_nat y +:+ "-research-milestone") = 23 ∧
  String.get 5 (Py.str_of_nat y +:+ "-research-milestone") = Some "r"%char.
Proof.
  revert y.
  apply (year_cases
    (λ y, Py.len (Py.str_of_nat y +:+ "-research-milestone") = 23 ∧
          String.get 5 (Py.str_of_nat y +:+ "-research-milestone")
          = Some "r"%char)
    (λ y, bool_decide
       (Py.len (Py.str_of_nat y +:+ "-research-milestone") = 23 ∧
        String.get 5 (Py.str_of_nat y +:+ "-research-milestone")
        = Some "r"%char))); [|by vm_compute].
  intros y Hy. by apply bool_decide_eq_true in Hy.
Qed.

Lemma milestone_id_inj (y1 y2 : nat) :
  2000 ≤ y1 ≤ 2099 → 2000 ≤ y2 ≤ 2099 →
  Py.str_of_nat y1 +:+ "-research-milestone"
  = Py.str_of_nat y2 +:+ "-research-milestone" → y1 = y2.
Proof.
  intros H1 H2. revert y2 H2. revert y1 H1.
  apply (year_cases
    (λ y1, ∀ y2, 2000 ≤ y2 ≤ 2099 →
       Py.str_of_nat y1 +:+ "-research-milestone"
       = Py.str_of_nat y2 +:+ "-research-milestone" → y1 = y2)
    (λ y1, forallb (λ y2,
       implb (bool_decide (Py.str_of_nat y1 +:+ "-research-milestone"
                           = Py.str_of_nat y2 +:+ "-research-milestone"))
             (y1 =? y2)) (seq 2000 100))); [|by vm_compute].
  intros y1 Hall y2 Hy2 Heq. rewrite forallb_forall in Hall.
  specialize (Hall y2). rewrite in_seq in Hall.
  rewrite bool_decide_eq_true_2 in Hall by done.
  apply Nat.eqb_eq, Hall. lia.
Qed.

Lemma label_characters (topic : string) :
  topic ∈ EnhanceExtraction.topic_keywords.*1 → 6 ≤ characters topic.
Proof.
  revert topic. apply Forall_forall. by_computation.
Qed.

Section RankedIds.
Context {K B : Type} (thr : nat) (mk : K → nat → B) (f : B → string).

Lemma over_threshold_NoDup (ranking : list (K * nat)) :
  NoDup ranking.*1 →
  (∀ k n k' n', k ∈ ranking.*1 → k' ∈ ranking.*1 →
     f (mk k n) = f (mk k' n') → k = k') →
  NoDup (f <$> ('(k, n) ← ranking;
                if decide (thr ≤ n) then [mk k n] else [])).
Proof.
  induction ranking as [|[k n] ranking IH]; intros Hnd Hinj.
  { constructor. }
  rewrite fmap_cons in Hnd. apply NoDup_cons in Hnd as [Hk Hnd].
  rewrite bind_cons, fmap_app. apply NoDup_app. split_and!.
  - simpl. destruct (decide (thr ≤ n)); [apply NoDup_singleton|constructor].
  - intros s Hs (b & -> & Hb)%list_elem_of_fmap. simpl in Hs.
    destruct (decide (thr ≤ n)); [|by apply elem_of_nil in Hs].
    apply list_elem_of_singleton in Hs.
    apply over_threshold_spec in Hb as (k' & n' & Hin & _ & ->).
    apply (list_elem_of_fmap_2 fst) in Hin. simpl in Hin.
    apply Hk. assert (k' = k) as <-; [|done].
    apply (Hinj k' n' k n); [by right|by left|done].
  - apply IH; [done|]. intros k1 n1 k2 n2 H1 H2.
    apply Hinj; by right.
Qed.

End RankedIds.

Lemma most_common_all_keys_NoDup {K} (stats : Py.Counter K) :
  NoDup stats.*1 → NoDup (Py.most_common_all stats).*1.
Proof.
  intros Hnd. unfold Py.most_common_all.
  by rewrite (sort_perm (λ x y : K * nat, y.2 <=? x.2) stats).
Qed.

Lemma most_common_all_keys {K} (stats : Py.Counter K) (k : K) :
  k ∈ (Py.most_common_all stats).*1 → k ∈ stats.*1.
Proof.
  unfold Py.most_common_all.
  by rewrite (sort_perm (λ x y : K * nat, y.2 <=? x.2) stats).
Qed.

(** X20. The ids of the candidate events.  A publication event never
    shares its id with a trend or milestone event, and no two trend or
    milestone events share an id; so two candidate events of one run can
    only share an id when both are publication events. *)
Theorem candidate_event_ids (lower : string → string)
    (papers : list EnhanceExtraction.Paper) :
  let publications := EnhanceExtraction.publication_events lower papers in
  let aggregates :=
    EnhanceExtraction.trend_events
      (EnhanceExtraction.topic_stats lower papers) ++
    EnhanceExtraction.milestone_events
      (EnhanceExtraction.yearly_stats papers) in
  (∀ e e', e ∈ publications → e' ∈ aggregates → id e ≠ id e') ∧
  NoDup (id <$> aggregates).
Proof.
  intros publications aggregates.
  assert (∀ e, e ∈ EnhanceExtraction.trend_events
                     (EnhanceExtraction.topic_stats lower papers) →
               17 ≤ characters (id e) ∧ String.get 5 (id e) = Some "t"%char)
    as Htrend.
  { intros e (topic & n & Hin & _ & ->)%over_threshold_spec.
    unfold Py.most_common_all in Hin. rewrite sort_perm in Hin.
    apply (list_elem_of_fmap_2 fst), topic_stats_keys, label_characters
      in Hin.
    cbn [fst] in Hin. cbn [id EnhanceExtraction.trend_event].
    split; [|done]. rewrite characters_append.
    change (characters "2024-trend-") with 11. lia. }
  assert (∀ e, e ∈ EnhanceExtraction.milestone_events
                     (EnhanceExtraction.yearly_stats papers) →
               characters (id e) = 23 ∧ String.get 5 (id e) = Some "r"%char)
    as Hmile.
  { intros e (y & n & Hin & _ & ->)%over_threshold_spec.
    unfold Py.most_common_all in Hin. rewrite sort_perm in Hin.
    apply (list_elem_of_fmap_2 fst), yearly_stats_keys in Hin.
    split; [by apply milestone_id_characters|by apply milestone_id_shape]. }
  split.
  - intros e e' (p & He & _)%list_elem_of_bind He' Heq.
    apply paper_event_id_characters in He. rewrite Heq in He.
    apply elem_of_app in He' as [He'|He'].
    + apply Htrend in He' as [? _]. lia.
    + apply Hmile in He' as [? _]. lia.
  - unfold aggregates. rewrite fmap_app. apply NoDup_app. split_and!.
    + apply over_threshold_NoDup.
      * apply most_common_all_keys_NoDup, topic_stats_NoDup.
      * intros k n k' n' _ _ Heq. simpl in Heq.
        by apply (inj (String.append "2024-trend-")) in Heq.
    + intros s (e & -> & He)%list_elem_of_fmap
        (e' & Heq & He')%list_elem_of_fmap.
      apply Htrend in He as [_ He]. apply Hmile in He' as [_ He'].
      congruence.
    + apply over_threshold_NoDup.
      * apply most_common_all_keys_NoDup, yearly_stats_NoDup.
      * intros k n k' n' Hk%most_common_all_keys%yearly_stats_keys
          Hk'%most_common_all_keys%yearly_stats_keys Heq.
        by apply milestone_id_inj.
Qed.

Lemma append_same_length (a1 a2 r1 r2 : string) :
  String.length a1 = String.length a2 →
  a1 +:+ r1 = a2 +:+ r2 → a1 = a2 ∧ r1 = r2.
Proof.
  revert a2. induction a1 as [|c a1 IH]; intros [|d a2]; try done.
  simpl. intros [= Hlen]. rewrite !append_cons. intros [= -> Heq].
  destruct (IH a2 Hlen Heq) as [-> ->]. done.
Qed.

Lemma year_str_inj (y1 y2 : nat) :
  2000 ≤ y1 ≤ 2099 → 2000 ≤ y2 ≤ 2099 →
  Py.str_of_nat y1 = Py.str_of_nat y2 → y1 = y2.
Proof.
  intros H1 H2 Heq. apply milestone_id_inj; [done..|]. by rewrite Heq.
Qed.

Lemma fresh_app {A} (key : A → string) (seen : gset string)
    (l1 l2 : list A) :
  fresh key seen (l1 ++ l2)
  = fresh key seen l1 ++ fresh key (seen ∪ list_to_set (key <$> l1)) l2.
Proof.
  revert seen. induction l1 as [|x l1 IH]; intros seen; simpl.
  { f_equal. set_solver. }
  destruct (decide (key x ∈ seen)) as [Hx|Hx]; rewrite IH.
  - f_equal. f_equal. set_solver.
  - simpl. f_equal. f_equal. f_equal. set_solver.
Qed.

(** A candidate whose key an earlier candidate has is passed over. *)
Lemma merge_unique_drop_later {A} (key : A → string) (existing : list A)
    (l1 l2 l3 : list A) (x y : A) :
  key x = key y →
  EnhanceExtraction.merge_unique key existing (l1 ++ x :: l2 ++ y :: l3)
  = EnhanceExtraction.merge_unique key existing (l1 ++ x :: l2 ++ l3).
Proof.
  intros Hxy. rewrite !merge_unique_fresh. f_equal.
  change (x :: l2 ++ y :: l3) with ((x :: l2) ++ y :: l3).
  change (x :: l2 ++ l3) with ((x :: l2) ++ l3).
  rewrite !app_assoc. rewrite (fresh_app _ _ _ (y :: l3)), (fresh_app _ _ _ l3).
  f_equal. simpl. rewrite decide_True; [done|].
  rewrite fmap_app, fmap_cons, <-Hxy. set_solver.
Qed.

(** X21. When two publication events clash.  The events of two papers
    have the same id exactly when the papers have the same year and
    [str(paper_id)] has the same first eight characters for both; in a
    run over a corpus that has the first paper before the second, the
    first event stands before the second among the candidates, and the
    store written back is the one that the merge writes without the
    second event, wherever the two stand: the event of the later paper
    is passed over. *)
Theorem publication_id_clash (lower : string → string)
    (models_of : string → list string)
    (institutions_of : string → list string → list string)
    (before between after : list EnhanceExtraction.Paper)
    (p q : EnhanceExtraction.Paper) (y1 y2 : nat) (e1 e2 : Event)
    (store : Store) :
  EnhanceExtraction.extract_year_from_url (EnhanceExtraction.url p) = Some y1 →
  EnhanceExtraction.extract_year_from_url (EnhanceExtraction.url q) = Some y2 →
  e1 ∈ EnhanceExtraction.paper_events lower p →
  e2 ∈ EnhanceExtraction.paper_events lower q →
  (id e1 = id e2 ↔
   y1 = y2 ∧
   Py.take_str 8 (EnhanceExtraction.str (EnhanceExtraction.paper_id p))
   = Py.take_str 8 (EnhanceExtraction.str (EnhanceExtraction.paper_id q))) ∧
  (id e1 = id e2 →
   let papers := before ++ p :: between ++ q :: after in
   let candidates :=
     EnhanceExtraction.enhanced_extraction lower models_of institutions_of
       papers in
   (∃ l1 l2 l3, candidates.2 = l1 ++ e1 :: l2 ++ e2 :: l3) ∧
   (∀ l1 l2 l3,
      candidates.2 = l1 ++ e1 :: l2 ++ e2 :: l3 →
      EnhanceExtraction.run lower models_of institutions_of papers store
      = EnhanceExtraction.main store candidates.1 (l1 ++ e1 :: l2 ++ l3))).
Proof.
  intros H1 H2 He1 He2.
  assert (EnhanceExtraction.paper_events lower p = [e1] ∧
          EnhanceExtraction.paper_events lower q = [e2] ∧
          e1 = EnhanceExtraction.publication_event p y1
                 (EnhanceExtraction.categorize_paper lower
                    (EnhanceExtraction.title p) (EnhanceExtraction.abstract p)
                    (EnhanceExtraction.categories p)) ∧
          e2 = EnhanceExtraction.publication_event q y2
                 (EnhanceExtraction.categorize_paper lower
                    (EnhanceExtraction.title q) (EnhanceExtraction.abstract q)
                    (EnhanceExtraction.categories q)))
    as (Hp & Hq & Hev1 & Hev2).
  { revert He1 He2. unfold EnhanceExtraction.paper_events. rewrite H1, H2.
    destruct (_ && _); [|by intros ?%elem_of_nil].
    destruct (_ && _); [|by intros _ ?%elem_of_nil].
    by intros ->%list_elem_of_singleton ->%list_elem_of_singleton. }
  apply extract_year_range in H1, H2. split.
  - rewrite Hev1, Hev2. cbn [id EnhanceExtraction.publication_event]. split.
    + intros Heq. apply append_same_length in Heq as [Hy Heq].
      * split; [by apply year_str_inj|]. rewrite !append_cons in Heq.
        by injection Heq.
      * pose proof (year_len y1 H1). pose proof (year_len y2 H2).
        unfold Py.len in *. congruence.
    + by intros [-> ->].
  - intros Heq papers candidates. split.
    { exists (EnhanceExtraction.publication_events lower before),
        (EnhanceExtraction.publication_events lower between),
        (EnhanceExtraction.publication_events lower after ++
         EnhanceExtraction.trend_events
           (EnhanceExtraction.topic_stats lower papers) ++
         EnhanceExtraction.milestone_events
           (EnhanceExtraction.yearly_stats papers)).
      unfold candidates, EnhanceExtraction.enhanced_extraction. cbn [snd].
      unfold papers, EnhanceExtraction.publication_events.
      rewrite bind_app, bind_cons, bind_app, bind_cons, Hp, Hq.
      by rewrite <-!app_assoc. }
    intros l1 l2 l3 Hcand. unfold EnhanceExtraction.run.
    fold candidates. destruct candidates as [new_entities new_events].
    cbn [fst snd] in *. subst new_events. unfold EnhanceExtraction.main.
    by rewrite (merge_unique_drop_later id _ _ _ _ _ _ Heq).
Qed.

Lemma publication_id_clash_witness :
  let p := EnhanceExtraction.mkPaper (EnhanceExtraction.IdStr "étude-0001-a")
             "First" [] [] "" "https://arxiv.org/abs/2502.19614" in
  let r := EnhanceExtraction.mkPaper (EnhanceExtraction.IdStr "other-0001-a")
             "Other" [] [] "" "https://arxiv.org/abs/2412.00001" in
  let q := EnhanceExtraction.mkPaper (EnhanceExtraction.IdStr "étude-0002-b")
             "Second" [] [] "" "https://arxiv.org/abs/2503.00001" in
  let e1 := mkEvent "2025-étude-00" "2025-01-01T00:00:00Z" "First"
              "research" in
  let er := mkEvent "2024-other-00" "2024-01-01T00:00:00Z" "Other"
              "research" in
  let e2 := mkEvent "2025-étude-00" "2025-01-01T00:00:00Z" "Second"
              "research" in
  (EnhanceExtraction.enhanced_extraction (λ s, s) (λ _, []) (λ _ _, [])
     [p; r; q]).2 = [e1; er; e2] ∧
  events (EnhanceExtraction.run (λ s, s) (λ _, []) (λ _ _, []) [p; r; q]
            (mkStore [] []))
  = [e1; er].
Proof.
  intros p r q e1 er e2.
  assert ((EnhanceExtraction.enhanced_extraction (λ s, s) (λ _, [])
             (λ _ _, []) [p; r; q]).2 = [e1; er; e2]) as Hcand.
  { by vm_compute. }
  split; [done|].
  destruct (proj2 (publication_id_clash (λ s, s) (λ _, []) (λ _ _, [])
                     [] [r] [] p q 2025 2025 e1 e2 (mkStore [] [])
                     ltac:(by vm_compute) ltac:(by vm_compute)
                     ltac:(vm_compute; left) ltac:(vm_compute; left))
             eq_refl) as [_ Hrun].
  etrans; [exact (f_equal events (Hrun [] [er] [] Hcand))|by vm_compute].
Defined.

(** ** Paging through the collection *)

Lemma scroll_loop_serves scroll pages fuel papers offset :
  (offset = None ∨ EnhanceExtraction.truthy offset = true) →
  serves scroll offset pages → length pages ≤ fuel →
  EnhanceExtraction.scroll_loop scroll fuel papers offset
  = Some (papers ++ concat (EnhanceExtraction.points <$> pages)).
Proof.
  revert fuel papers offset.
  induction pages as [|page rest IH]; intros fuel papers offset Hoff Hs Hf;
    [done|].
  destruct fuel as [|fuel]; [simpl in Hf; lia|].
  destruct Hs as [Hpage Hrest]. cbn [EnhanceExtraction.scroll_loop].
  assert ((if EnhanceExtraction.truthy offset then offset else None) = offset)
    as ->.
  { destruct Hoff as [->| ->]; done. }
  rewrite Hpage, fmap_cons. cbn [concat].
  destruct rest as [|page' rest].
  - rewrite app_nil_r. destruct Hrest as [Hp|Ht].
    + rewrite Hp. by rewrite app_nil_r.
    + rewrite Ht.
      destruct (EnhanceExtraction.points page); [by rewrite app_nil_r|done].
  - destruct Hrest as (Hp & Ht & Hs). rewrite Ht.
    destruct (EnhanceExtraction.points page) as [|pt pts] eqn:Hpts; [done|].
    rewrite IH; [by rewrite <-app_assoc|by right|done|simpl in *; lia].
Qed.

(** X22. Paging.  When the collection serves a finite chain of pages
    from the first request on, [extract_all_papers] returns, with any
    fuel that allows one request per page, the points of these pages in
    order: it stops at the first page without points or without a true
    next offset, keeping the points of that page. *)
Theorem extract_all_papers_pages
    (scroll : option EnhanceExtraction.PointId → EnhanceExtraction.Page)
    (pages : list EnhanceExtraction.Page) (fuel : nat) :
  serves scroll None pages → length pages ≤ fuel →
  EnhanceExtraction.extract_all_papers scroll fuel
  = Some (concat (EnhanceExtraction.points <$> pages)).
Proof.
  intros Hs Hf. unfold EnhanceExtraction.extract_all_papers.
  rewrite (scroll_loop_serves scroll pages); [done|by left|done..].
Qed.

Lemma extract_all_papers_pages_witness :
  let p1 := EnhanceExtraction.mkPaper (EnhanceExtraction.IdInt 1) "One" []
              [] "" "" in
  let p2 := EnhanceExtraction.mkPaper (EnhanceExtraction.IdInt 5) "Two" []
              [] "" "" in
  let page1 :=
    EnhanceExtraction.mkPage [p1] (Some (EnhanceExtraction.IdInt 5)) in
  let page2 := EnhanceExtraction.mkPage [p2] None in
  let scroll (o : option EnhanceExtraction.PointId) :=
    match o with
    | None => page1
    | Some _ => page2
    end in
  EnhanceExtraction.extract_all_papers scroll 2 = Some [p1; p2].
Proof.
  intros p1 p2 page1 page2 scroll.
  apply (extract_all_papers_pages scroll [page1; page2] 2); [|simpl; lia].
  simpl. split_and!; [done..|]. by right.
Defined.

(** ** Institutions from email domains *)

Lemma match_email_spec (s d : string) :
  EnhanceExtraction.match_email s = Some d ↔
  ∃ label tld rest,
    s = "@" +:+ label +:+ "." +:+ tld +:+ rest ∧ d = label +:+ "." +:+ tld ∧
    1 ≤ Py.len label ∧ all_chars EnhanceExtraction.is_ext label ∧
    2 ≤ Py.len tld ∧ all_chars EnhanceExtraction.is_alpha tld ∧
    (∀ c rest', rest = String c rest' → EnhanceExtraction.is_alpha c = false).
Proof.
  unfold EnhanceExtraction.match_email. split.
  - destruct (Py.strip_prefix "@" s) as [s1|] eqn:H1; [|done].
    apply strip_prefix_spec in H1 as ->.
    destruct (Py.span EnhanceExtraction.is_ext s1) as [label s2] eqn:Hl.
    apply span_spec in Hl as (-> & Hl & _).
    destruct (decide (1 ≤ Py.len label)) as [Hlen|]; [|done].
    destruct (Py.strip_prefix "." s2) as [s3|] eqn:H2; [|done].
    apply strip_prefix_spec in H2 as ->.
    destruct (Py.span EnhanceExtraction.is_alpha s3) as [tld rest] eqn:Ht.
    apply span_spec in Ht as (-> & Ht & Hrest).
    destruct (decide (2 ≤ Py.len tld)) as [Hlen'|]; [|done].
    intros [= <-]. exists label, tld, rest. by split_and!.
  - intros (label & tld & rest & -> & -> & Hlen & Hl & Hlen' & Ht & Hrest).
    assert (Py.strip_prefix "@" ("@" +:+ label +:+ "." +:+ tld +:+ rest)
            = Some (label +:+ "." +:+ tld +:+ rest)) as ->.
    { by apply strip_prefix_spec. }
    rewrite span_app; [|done|by intros ?? [= <- _]].
    rewrite decide_True by done.
    assert (Py.strip_prefix "." ("." +:+ tld +:+ rest) = Some (tld +:+ rest))
      as ->.
    { by apply strip_prefix_spec. }
    rewrite span_app by done. by rewrite decide_True.
Qed.

Lemma findall_email_sound (k : nat) (s d : string) :
  d ∈ EnhanceExtraction.findall_email k s →
  ∃ pre rest, EnhanceExtraction.match_email rest = Some d ∧ s = pre +:+ rest.
Proof.
  revert k. induction s as [|c s IH]; intros k; simpl.
  { by intros ?%elem_of_nil. }
  assert (∀ k', d ∈ EnhanceExtraction.findall_email k' s →
          ∃ pre rest, EnhanceExtraction.match_email rest = Some d ∧
                      String c s = pre +:+ rest) as Hrec.
  { intros k' (pre & rest & Hm & ->)%IH. by exists (String c pre), rest. }
  clear IH. destruct k as [|k]; [|apply Hrec].
  destruct (EnhanceExtraction.match_email (String c s)) as [d'|] eqn:Hm;
    [|apply Hrec].
  intros [->|Hin]%elem_of_cons; [|by apply Hrec in Hin].
  by exists "", (String c s).
Qed.

Lemma at_sign_not_domain :
  EnhanceExtraction.is_ext "@" = false ∧ EnhanceExtraction.is_alpha "@" = false
  ∧ "@"%char ≠ "."%char.
Proof. done. Qed.

(** A domain that starts at some place of the text is found, provided the
    characters still to be passed over hold no at sign. *)
Lemma findall_email_complete (s : string) :
  ∀ k skipped rest pre tail d,
    s = skipped +:+ rest → Py.len skipped = k →
    all_chars (λ c, bool_decide (c ≠ "@"%char)) skipped →
    s = pre +:+ tail → EnhanceExtraction.match_email tail = Some d →
    d ∈ EnhanceExtraction.findall_email k s.
Proof.
  induction s as [|c s IH];
    intros k skipped rest pre tail d Hsk Hk Hnp Hocc Hd.
  { destruct pre; [|done]. rewrite append_nil_l in Hocc. subst tail.
    by vm_compute in Hd. }
  simpl. destruct k as [|k].
  - destruct pre as [|c' pre].
    + rewrite append_nil_l in Hocc. subst tail. rewrite Hd. by left.
    + rewrite append_cons in Hocc. injection Hocc as <- Hocc.
      destruct (EnhanceExtraction.match_email (String c s)) as [g|] eqn:Hm.
      * right.
        apply match_email_spec in Hm
          as (label & tld & rest' & Heq & -> & _ & Hl & _ & Ht & _).
        rewrite append_cons, append_nil_l in Heq. injection Heq as -> Heq.
        apply (IH _ (label +:+ "." +:+ tld) rest' pre tail d);
          [by rewrite !append_assoc|done| |done|done].
        rewrite !all_chars_app. simpl.
        repeat (apply andb_True; split); try done.
        -- eapply all_chars_impl; [|done]. intros c Hc.
           apply bool_decide_pack. intros ->. done.
        -- eapply all_chars_impl; [|done]. intros c Hc.
           apply bool_decide_pack. intros ->. done.
      * by apply (IH 0 "" s pre tail d).
  - destruct skipped as [|c0 skipped]; [done|].
    rewrite append_cons in Hsk. injection Hsk as <- Hsk.
    simpl in Hnp. apply andb_True in Hnp as [Hc Hnp].
    apply bool_decide_unpack in Hc.
    destruct pre as [|c' pre].
    { rewrite append_nil_l in Hocc. subst tail.
      apply match_email_spec in Hd as (? & ? & ? & Heq & _).
      rewrite append_cons in Heq. by injection Heq as -> _. }
    rewrite append_cons in Hocc. injection Hocc as -> Hocc.
    apply (IH k skipped rest pre tail d); [done|by injection Hk|done..].
Qed.

Lemma findall_email_spec (text d : string) :
  d ∈ EnhanceExtraction.findall_email 0 text ↔
  ∃ pre tail, text = pre +:+ tail ∧
              EnhanceExtraction.match_email tail = Some d.
Proof.
  split.
  - intros (pre & rest & Hm & ->)%findall_email_sound. eauto.
  - intros (pre & tail & -> & Hm).
    by apply (findall_email_complete _ 0 "" (pre +:+ tail) pre tail d).
Qed.

Lemma title_from_len (b : bool) (s : string) :
  Py.len (EnhanceExtraction.title_from b s) = Py.len s.
Proof.
  unfold Py.len. revert b. induction s as [|c s IH]; intros b; [done|].
  simpl. by rewrite IH.
Qed.

Lemma split_head_domain (label tld : string) :
  all_chars EnhanceExtraction.is_ext label →
  EnhanceExtraction.split_head (label +:+ "." +:+ tld) = label.
Proof.
  intros Hl. unfold EnhanceExtraction.split_head. rewrite span_app; [done| |].
  - eapply all_chars_impl; [|done]. intros c Hc.
    rewrite bool_decide_eq_false_2; [done|]. intros ->. done.
  - by intros ?? [= <- _].
Qed.

Lemma email_institutions_spec (text inst : string) :
  inst ∈ EnhanceExtraction.email_institutions text ↔
  ∃ label tld,
    email_at text label tld ∧
    (substring "edu" (label +:+ "." +:+ tld) ∨
     substring "ac." (label +:+ "." +:+ tld)) ∧
    inst = EnhanceExtraction.title_case label ∧ 2 < Py.len label.
Proof.
  unfold EnhanceExtraction.email_institutions.
  rewrite list_elem_of_bind. split.
  - intros (d & Hin & (pre & tail & -> & Hm)%findall_email_spec).
    apply match_email_spec in Hm
      as (label & tld & rest & -> & -> & Hlen & Hl & Hlen' & Ht & Hrest).
    rewrite split_head_domain in Hin by done.
    destruct (_ || _) eqn:Hac; [|by apply elem_of_nil in Hin].
    destruct (decide _) as [Hlen3|]; [|by apply elem_of_nil in Hin].
    apply list_elem_of_singleton in Hin as ->.
    unfold EnhanceExtraction.title_case in Hlen3.
    rewrite title_from_len in Hlen3.
    exists label, tld. split_and!; [|  |done|done].
    + exists pre, rest. by rewrite ?append_assoc.
    + apply orb_true_iff in Hac as [Hc|Hc]; apply contains_spec in Hc; eauto.
  - intros (label & tld & (pre & post & -> & Hlen & Hl & Hlen' & Ht & Hpost)
            & Hac & -> & Hlen3).
    exists (label +:+ "." +:+ tld). split.
    + rewrite split_head_domain by done.
      assert (Py.contains "edu" (label +:+ "." +:+ tld)
              || Py.contains "ac." (label +:+ "." +:+ tld) = true) as ->.
      { apply orb_true_iff.
        destruct Hac as [Hc|Hc]; apply contains_spec in Hc; eauto. }
      rewrite decide_True; [by left|].
      unfold EnhanceExtraction.title_case. by rewrite title_from_len.
    + apply findall_email_spec.
      exists pre, ("@" +:+ label +:+ "." +:+ tld +:+ post). split; [done|].
      apply match_email_spec. exists label, tld, post.
      by split_and!.
Qed.

(** X23. What [extract_institutions_from_text] returns: the known
    institutions whose lowered name occurs in the lowered text, and, for
    every email domain of the text (a label, a dot and the letters that
    follow, whatever comes after them) in which "edu" or "ac." occurs,
    the title-cased label when it is longer than two characters.  The
    authors play no part. *)
Theorem extract_institutions_spec (lower : string → string)
    (text : string) (authors : list string) (inst : string) :
  inst ∈ EnhanceExtraction.extract_institutions_from_text lower text authors
  ↔ (inst ∈ EnhanceExtraction.KNOWN_INSTITUTIONS ∧
     substring (lower inst) (lower text)) ∨
    (∃ label tld,
       email_at text label tld ∧
       (substring "edu" (label +:+ "." +:+ tld) ∨
        substring "ac." (label +:+ "." +:+ tld)) ∧
       inst = EnhanceExtraction.title_case label ∧ 2 < Py.len label).
Proof.
  unfold EnhanceExtraction.extract_institutions_from_text.
  rewrite elem_of_union, !elem_of_list_to_set, list_elem_of_filter.
  rewrite email_institutions_spec.
  split; (intros [[H1 H2]|H]; [left|by right]).
  - split; [done|]. by apply contains_spec, Is_true_true.
  - split; [|done]. by apply Is_true_true, contains_spec.
Qed.

Lemma strip_prefix_no_dot (n a b : string) :
  all_chars (λ c, bool_decide (c ≠ "."%char)) n →
  is_Some (Py.strip_prefix n (a +:+ "." +:+ b))
  ↔ is_Some (Py.strip_prefix n a).
Proof.
  revert a. induction n as [|c0 n IH]; intros a Hn.
  { by destruct a. }
  simpl in Hn. apply andb_True in Hn as [Hc0%bool_decide_unpack Hn].
  destruct a as [|c a].
  - rewrite append_nil_l, append_cons. simpl.
    rewrite decide_False by done. done.
  - rewrite append_cons. simpl. destruct (decide (c0 = c)); [by apply IH|done].
Qed.

Lemma contains_no_dot (c0 : ascii) (n a b : string) :
  all_chars (λ c, bool_decide (c ≠ "."%char)) (String c0 n) →
  Py.contains (String c0 n) (a +:+ "." +:+ b)
  = Py.contains (String c0 n) a || Py.contains (String c0 n) b.
Proof.
  intros Hn. induction a as [|c a IH].
  - rewrite append_nil_l, append_cons.
    assert (c0 ≠ "."%char) as Hc0.
    { simpl in Hn. by apply andb_True in Hn as [?%bool_decide_unpack _]. }
    cbn [Py.contains Py.strip_prefix]. by rewrite decide_False by done.
  - rewrite append_cons.
    pose proof (strip_prefix_no_dot (String c0 n) (String c a) b Hn) as Hs.
    rewrite append_cons in Hs.
    cbn [Py.contains]. rewrite IH.
    destruct (Py.strip_prefix (String c0 n) (String c (a +:+ "." +:+ b)))
      as [r|] eqn:H1;
      destruct (Py.strip_prefix (String c0 n) (String c a)) as [r'|] eqn:H2;
      try done.
    + destruct Hs as [Hs _]. by destruct Hs.
    + destruct Hs as [_ Hs]. by destruct Hs.
Qed.

Lemma dot_unique (a a' b b' : string) :
  all_chars (λ c, bool_decide (c ≠ "."%char)) a →
  all_chars (λ c, bool_decide (c ≠ "."%char)) b →
  a +:+ "." +:+ b = a' +:+ "." +:+ b' → a = a'.
Proof.
  intros Ha Hb. revert a' Ha.
  induction a as [|c a IH]; intros [|c' a'] Ha;
    rewrite ?append_cons, ?append_nil_l.
  - done.
  - intros [= <- ->]. rewrite all_chars_app in Hb.
    destruct (all_chars _ a'); done.
  - intros [= -> _]. done.
  - simpl in Ha. apply andb_True in Ha as [_ Ha].
    intros [= -> Heq]. f_equal. by apply IH.
Qed.

Lemma ext_no_dot (s : string) :
  all_chars EnhanceExtraction.is_ext s →
  all_chars (λ c, bool_decide (c ≠ "."%char)) s.
Proof.
  apply all_chars_impl. intros c Hc. apply bool_decide_pack. by intros ->.
Qed.

Lemma alpha_no_dot (s : string) :
  all_chars EnhanceExtraction.is_alpha s →
  all_chars (λ c, bool_decide (c ≠ "."%char)) s.
Proof.
  apply all_chars_impl. intros c Hc. apply bool_decide_pack. by intros ->.
Qed.

(** X24. Which email domains count as academic.  For a label and the
    letters after its dot, the test on "edu" and "ac." succeeds exactly
    when "edu" occurs in the label or in those letters, or the label
    ends in "ac". *)
Theorem academic_domain_test (label tld : string) :
  all_chars EnhanceExtraction.is_ext label →
  all_chars EnhanceExtraction.is_alpha tld →
  Py.contains "edu" (label +:+ "." +:+ tld)
  || Py.contains "ac." (label +:+ "." +:+ tld) = true
  ↔ substring "edu" label ∨ substring "edu" tld ∨
    ∃ stem, label = stem +:+ "ac".
Proof.
  intros Hl%ext_no_dot Ht%alpha_no_dot.
  rewrite orb_true_iff, contains_no_dot by done.
  rewrite orb_true_iff, !contains_spec.
  assert (substring "ac." (label +:+ "." +:+ tld)
          ↔ ∃ stem, label = stem +:+ "ac") as ->; [|tauto].
  split.
  - intros (pre & post & Heq). exists pre.
    apply (dot_unique label (pre +:+ "ac") tld post); [done..|].
    by rewrite Heq, !append_assoc.
  - intros (stem & ->). exists stem, tld. by rewrite !append_assoc.
Qed.

Lemma academic_domain_test_witness :
  Py.contains "edu" "cognac.fr" || Py.contains "ac." "cognac.fr" = true
  ↔ substring "edu" "cognac" ∨ substring "edu" "fr" ∨
    ∃ stem, "cognac" = stem +:+ "ac".
Proof. apply (academic_domain_test "cognac" "fr"); by vm_compute. Defined.

(** ** [process_papers_to_entities_and_events] *)

Lemma dd_append_new (k v : string) (d : list (string * list string)) :
  k ∉ d.*1 → Py.dd_append k v d = d ++ [(k, [v])].
Proof.
  induction d as [|[k' vs] d IH]; [done|].
  rewrite fmap_cons, not_elem_of_cons. simpl. intros [Hne Hk].
  rewrite decide_False by done. by rewrite IH.
Qed.

Section ProcessFacts.
Context (potential_models_of : string → list string).
Context (str_prefix : nat → string → string).

Lemma note_author_invariant title st author :
  process_invariant st →
  process_invariant (ExtractPapers.note_author title st author).
Proof.
  intros (Hnd & Hka & Hseen & Hdisj & Hone).
  unfold ExtractPapers.note_author. case_bool_decide as Ha; [|done].
  destruct Ha as [_ Ha].
  assert (author ∉ (ExtractPapers.author_papers st).*1) as Hk.
  { intros Hin. apply Ha, Hseen. by right. }
  assert (author ∉ name <$> ExtractPapers.found_entities st) as Hn.
  { intros Hin. apply Ha, Hseen. by left. }
  unfold process_invariant. simpl. rewrite dd_append_new by done.
  rewrite fmap_app. simpl. split_and!.
  - done.
  - apply NoDup_app. split_and!; [done| |apply NoDup_singleton].
    intros k Hin ->%list_elem_of_singleton. done.
  - intros k. rewrite elem_of_union, elem_of_singleton, elem_of_app,
      list_elem_of_singleton, Hseen. tauto.
  - intros k Hin. rewrite elem_of_app, list_elem_of_singleton.
    intros [Hin'| ->]; [by apply (Hdisj k)|done].
  - apply Forall_app. split; [done|]. by repeat constructor.
Qed.

Lemma note_event_invariant p st :
  process_invariant st → process_invariant (ExtractPapers.note_event p st).
Proof.
  intros Hinv. unfold ExtractPapers.note_event.
  destruct (ExtractPapers.extract_year_from_url _); [|done].
  by destruct (_ && _).
Qed.

Lemma note_model_invariant p text st model :
  process_invariant st →
  process_invariant
    (ExtractPapers.note_model str_prefix p text st model).
Proof.
  intros (Hnd & Hka & Hseen & Hdisj & Hone).
  unfold ExtractPapers.note_model. case_bool_decide as Hm; [|done].
  destruct Hm as (_ & _ & Hm).
  destruct (decide (2 ≤ Py.count model text)); [|done].
  assert (model ∉ (ExtractPapers.author_papers st).*1) as Hk.
  { intros Hin. apply Hm, Hseen. by right. }
  assert (model ∉ name <$> ExtractPapers.found_entities st) as Hn.
  { intros Hin. apply Hm, Hseen. by left. }
  unfold process_invariant. simpl. rewrite fmap_app. simpl. split_and!.
  - apply NoDup_app. split_and!; [done| |apply NoDup_singleton].
    intros k Hin ->%list_elem_of_singleton. done.
  - done.
  - intros k. rewrite elem_of_union, elem_of_singleton, elem_of_app,
      list_elem_of_singleton, Hseen. tauto.
  - intros k. rewrite elem_of_app, list_elem_of_singleton.
    intros [Hin| ->]; [by apply Hdisj|done].
  - done.
Qed.

Lemma foldl_invariant {A} (f : ExtractPapers.Progress → A →
                                 ExtractPapers.Progress)
    (l : list A) (st : ExtractPapers.Progress) :
  (∀ st x, process_invariant st → process_invariant (f st x)) →
  process_invariant st → process_invariant (foldl f st l).
Proof.
  intros Hf. revert st. induction l as [|x l IH]; intros st Hst; [done|].
  simpl. by apply IH, Hf.
Qed.

Lemma process_paper_invariant st p :
  process_invariant st →
  process_invariant
    (ExtractPapers.process_paper potential_models_of str_prefix st p).
Proof.
  intros Hst. unfold ExtractPapers.process_paper.
  apply foldl_invariant; [intros; by apply note_model_invariant|].
  apply note_event_invariant.
  apply foldl_invariant; [intros; by apply note_author_invariant|done].
Qed.

Lemma process_invariant_end (papers : list EnhanceExtraction.Paper) :
  process_invariant
    (foldl (ExtractPapers.process_paper potential_models_of str_prefix)
       (ExtractPapers.mkProgress [] [] ∅ []) papers).
Proof.
  apply foldl_invariant; [intros; by apply process_paper_invariant|].
  unfold process_invariant. simpl. split_and!.
  - apply NoDup_nil_2.
  - apply NoDup_nil_2.
  - intros k. split; [by intros ?%elem_of_empty|].
    by intros [?%elem_of_nil|?%elem_of_nil].
  - by intros k ?%elem_of_nil.
  - constructor.
Qed.

Lemma author_entity_names (d : list (string * list string)) :
  name <$> (ExtractPapers.author_entity str_prefix <$> d) = d.*1.
Proof.
  induction d as [|[a ts] d IH]; [done|]. rewrite !fmap_cons, IH. done.
Qed.

Lemma process_names_NoDup (papers : list EnhanceExtraction.Paper) :
  NoDup (name <$>
    (ExtractPapers.process_papers_to_entities_and_events
       potential_models_of str_prefix papers).1).
Proof.
  unfold ExtractPapers.process_papers_to_entities_and_events. simpl.
  destruct (process_invariant_end papers) as (Hnd & Hka & _ & Hdisj & _).
  rewrite fmap_app, author_entity_names. apply NoDup_app. by split_and!.
Qed.

End ProcessFacts.

(** X25. [process_papers_to_entities_and_events] never gives two
    entities the same name, whatever the corpus; so [extract_papers.main]
    run on its output keeps the names of a store pairwise distinct. *)
Theorem process_entity_names_distinct
    (potential_models_of : string → list string)
    (str_prefix : nat → string → string)
    (papers : list EnhanceExtraction.Paper) (store : Store) :
  NoDup (name <$>
    (ExtractPapers.process_papers_to_entities_and_events
       potential_models_of str_prefix papers).1) ∧
  (NoDup (name <$> entities store) →
   NoDup (name <$> entities
     (ExtractPapers.run potential_models_of str_prefix papers store))).
Proof.
  split; [apply process_names_NoDup|]. intros Hstore.
  unfold ExtractPapers.run.
  pose proof (process_names_NoDup potential_models_of str_prefix papers)
    as Hnd.
  destruct (ExtractPapers.process_papers_to_entities_and_events _ _ _)
    as [new_entities new_events].
  simpl in *. rewrite sort_by_key_perm. by apply merge_filter_NoDup.
Qed.

Lemma process_entity_names_distinct_witness :
  let papers :=
    [EnhanceExtraction.mkPaper (EnhanceExtraction.IdInt 12)
       "FooNet: a FooNet" ["A. Turing"; "GPT"] ["cs.AI"] "GPT and GPT"
       "https://arxiv.org/abs/2502.19614"] in
  NoDup (name <$> entities
    (ExtractPapers.run (λ _, ["FooNet"; "GPT"]) Py.take_str papers
       (mkStore [mkEntity "GPT" "kept" []] []))).
Proof.
  intros papers.
  apply (process_entity_names_distinct (λ _, ["FooNet"; "GPT"]) Py.take_str
           papers (mkStore [mkEntity "GPT" "kept" []] [])).
  by_computation.
Defined.

Section ProcessAuthors.
Context (potential_models_of : string → list string).
Context (str_prefix : nat → string → string).
Context (papers : list EnhanceExtraction.Paper).

Lemma note_model_authors p text st model :
  ExtractPapers.author_papers
    (ExtractPapers.note_model str_prefix p text st model)
  = ExtractPapers.author_papers st ∧
  ExtractPapers.seen_entities st
  ⊆ ExtractPapers.seen_entities
      (ExtractPapers.note_model str_prefix p text st model).
Proof.
  unfold ExtractPapers.note_model. case_bool_decide; [|done].
  destruct (decide _); [|done]. simpl. split; [done|set_solver].
Qed.

Lemma note_models_authors p text st models :
  ExtractPapers.author_papers
    (foldl (ExtractPapers.note_model str_prefix p text) st models)
  = ExtractPapers.author_papers st ∧
  ExtractPapers.seen_entities st
  ⊆ ExtractPapers.seen_entities
      (foldl (ExtractPapers.note_model str_prefix p text) st models).
Proof.
  revert st. induction models as [|m models IH]; intros st; [done|].
  simpl. destruct (IH (ExtractPapers.note_model str_prefix p text st m))
    as [-> Hsub].
  destruct (note_model_authors p text st m) as [-> Hsub']. split; [done|].
  by etrans.
Qed.

Lemma note_event_authors p st :
  ExtractPapers.author_papers (ExtractPapers.note_event p st)
  = ExtractPapers.author_papers st ∧
  ExtractPapers.seen_entities (ExtractPapers.note_event p st)
  = ExtractPapers.seen_entities st.
Proof.
  unfold ExtractPapers.note_event.
  destruct (ExtractPapers.extract_year_from_url _); [|done].
  by destruct (_ && _).
Qed.

Lemma note_authors_noted p st (authors : list string) :
  p ∈ papers → authors ⊆ EnhanceExtraction.authors p →
  process_invariant st → titles_noted papers st →
  let st' := foldl (ExtractPapers.note_author (EnhanceExtraction.title p))
               st authors in
  titles_noted papers st' ∧
  ExtractPapers.seen_entities st ⊆ ExtractPapers.seen_entities st' ∧
  ∀ a, a ∈ authors → a ≠ "" → a ∈ ExtractPapers.seen_entities st'.
Proof.
  intros Hp. revert st.
  induction authors as [|a authors IH]; intros st Hsub Hinv Hnoted; simpl.
  { split_and!; [done..|]. by intros a ?%elem_of_nil. }
  assert (titles_noted papers
            (ExtractPapers.note_author (EnhanceExtraction.title p) st a) ∧
          ExtractPapers.seen_entities st
          ⊆ ExtractPapers.seen_entities
              (ExtractPapers.note_author (EnhanceExtraction.title p) st a) ∧
          (a ≠ "" →
           a ∈ ExtractPapers.seen_entities
                 (ExtractPapers.note_author (EnhanceExtraction.title p) st a)))
    as (Hnoted' & Hsub' & Ha).
  { unfold ExtractPapers.note_author. case_bool_decide as Hc.
    - destruct Hc as [Hne Hc]. simpl. split_and!; [|set_solver..].
      unfold titles_noted. simpl. rewrite dd_append_new.
      + apply Forall_app. split; [done|]. constructor; [|constructor].
        exists p. split_and!; [done| |done..]. apply Hsub. by left.
      + destruct Hinv as (_ & _ & Hseen & _). intros Hin.
        apply Hc, Hseen. by right.
    - split_and!; [done..|]. intros Hne.
      destruct (decide (a ∈ ExtractPapers.seen_entities st)); [done|].
      destruct Hc. done. }
  destruct (IH (ExtractPapers.note_author (EnhanceExtraction.title p) st a))
    as (Hn & Hs & Hall);
    [set_solver|by apply note_author_invariant|done|].
  split_and!; [done|by etrans|].
  intros a' [->|Hin]%elem_of_cons Hne; [|by apply Hall].
  by apply Hs, Ha.
Qed.

Lemma process_paper_noted st p :
  p ∈ papers → process_invariant st → titles_noted papers st →
  let st' :=
    ExtractPapers.process_paper potential_models_of str_prefix st p in
  titles_noted papers st' ∧
  ExtractPapers.seen_entities st ⊆ ExtractPapers.seen_entities st' ∧
  ∀ a, a ∈ EnhanceExtraction.authors p → a ≠ "" →
       a ∈ ExtractPapers.seen_entities st'.
Proof.
  intros Hp Hinv Hnoted st'. unfold st', ExtractPapers.process_paper.
  destruct (note_authors_noted p st (EnhanceExtraction.authors p))
    as (Hn & Hs & Hall); [done..|].
  set (st1 := foldl _ st (EnhanceExtraction.authors p)) in *.
  destruct (note_event_authors p st1) as [Ha2 Hs2].
  destruct (note_models_authors p
              (EnhanceExtraction.title p +:+ " " +:+
               EnhanceExtraction.abstract p)
              (ExtractPapers.note_event p st1)
              (potential_models_of
                 (EnhanceExtraction.title p +:+ " " +:+
                  EnhanceExtraction.abstract p))) as [Ha3 Hs3].
  rewrite Hs2 in Hs3. split_and!.
  - unfold titles_noted. rewrite Ha3, Ha2. done.
  - by etrans.
  - intros a Ha Hne. by apply Hs3, Hall.
Qed.

Lemma process_papers_noted (l : list EnhanceExtraction.Paper) st :
  l ⊆ papers → process_invariant st → titles_noted papers st →
  let st' :=
    foldl (ExtractPapers.process_paper potential_models_of str_prefix) st l in
  titles_noted papers st' ∧
  ExtractPapers.seen_entities st ⊆ ExtractPapers.seen_entities st' ∧
  ∀ p a, p ∈ l → a ∈ EnhanceExtraction.authors p → a ≠ "" →
         a ∈ ExtractPapers.seen_entities st'.
Proof.
  revert st. induction l as [|p l IH]; intros st Hl Hinv Hnoted; simpl.
  { split_and!; [done..|]. by intros p a ?%elem_of_nil. }
  destruct (process_paper_noted st p) as (Hn & Hs & Hall);
    [set_solver|done..|].
  destruct (IH (ExtractPapers.process_paper potential_models_of str_prefix
                  st p)) as (Hn' & Hs' & Hall');
    [set_solver|by apply process_paper_invariant|done|].
  split_and!; [done|by etrans|].
  intros p' a [->|Hin]%elem_of_cons Ha Hne; [|by eapply Hall'].
  by apply Hs', Hall.
Qed.

Lemma foldl_preserves {B S} (P : S → Prop) (f : S → B → S) (l : list B)
    (st : S) :
  (∀ st x, P st → P (f st x)) → P st → P (foldl f st l).
Proof.
  intros Hf. revert st. induction l as [|x l IH]; intros st Hst; [done|].
  simpl. by apply IH, Hf.
Qed.

Lemma process_models_found (l : list EnhanceExtraction.Paper) :
  models_found
    (foldl (ExtractPapers.process_paper potential_models_of str_prefix)
       (ExtractPapers.mkProgress [] [] ∅ []) l).
Proof.
  apply foldl_preserves; [|constructor].
  intros st p Hst. unfold ExtractPapers.process_paper.
  apply foldl_preserves.
  { intros st' model Hst'. unfold ExtractPapers.note_model.
    case_bool_decide; [|done]. destruct (decide _); [|done].
    unfold models_found. simpl. apply Forall_app. split; [done|].
    constructor; [|constructor]. simpl. by eexists. }
  unfold ExtractPapers.note_event.
  assert (models_found
            (foldl (ExtractPapers.note_author (EnhanceExtraction.title p))
               st (EnhanceExtraction.authors p))) as Hauthors.
  { apply foldl_preserves; [|done].
    intros st' author Hst'. unfold ExtractPapers.note_author.
    by case_bool_decide. }
  destruct (ExtractPapers.extract_year_from_url _); [|done].
  by destruct (_ && _).
Qed.

End ProcessAuthors.

(** X26. The author entities of [process_papers_to_entities_and_events].
    The entities are the model entities, whose tags start with "ai-model"
    and "research", followed by one author entity for each noted author;
    the noted authors are pairwise distinct, have a name that no model
    entity has, and each comes with the title of a paper that lists the
    author; the author entity says "1 paper(s)", whatever the number of
    the author's papers, and quotes that title; and every non-empty
    author of the corpus is noted or has the name of a model entity. *)
Theorem process_author_entities
    (potential_models_of : string → list string)
    (str_prefix : nat → string → string)
    (papers : list EnhanceExtraction.Paper) :
  ∃ (models : list Entity) (noted : list (string * string)),
    (ExtractPapers.process_papers_to_entities_and_events
       potential_models_of str_prefix papers).1
    = models ++
      ((λ entry,
          {| name := entry.1;
             summary :=
               "Researcher with 1 paper(s) in the collection. Recent work includes: "
               +:+ str_prefix 100 entry.2 +:+ "...";
             tags := ["researcher"; "ai-researcher"; "author"] |})
         <$> noted) ∧
    (∀ e, e ∈ models → ∃ rest, tags e = "ai-model" :: "research" :: rest) ∧
    NoDup noted.*1 ∧
    (∀ author title, (author, title) ∈ noted →
       author ≠ "" ∧ (author ∉ name <$> models) ∧
       ∃ p, p ∈ papers ∧ author ∈ EnhanceExtraction.authors p ∧
            title = EnhanceExtraction.title p) ∧
    (∀ p author, p ∈ papers → author ∈ EnhanceExtraction.authors p →
       author ≠ "" → author ∈ noted.*1 ∨ author ∈ name <$> models).
Proof.
  unfold ExtractPapers.process_papers_to_entities_and_events. cbn [fst].
  set (st := foldl _ _ papers).
  destruct (process_papers_noted potential_models_of str_prefix papers papers
              (ExtractPapers.mkProgress [] [] ∅ []))
    as (Hnoted & _ & Hall); [done| |constructor|].
  { apply (process_invariant_end potential_models_of str_prefix []). }
  fold st in Hnoted, Hall.
  destruct (process_invariant_end potential_models_of str_prefix papers)
    as (_ & Hka & Hseen & Hdisj & Hone).
  fold st in Hka, Hseen, Hdisj, Hone.
  pose proof (process_models_found potential_models_of str_prefix papers)
    as Hmodels.
  fold st in Hmodels.
  unfold titles_noted in Hnoted. rewrite Forall_forall in Hnoted.
  assert (((λ entry : string * list string,
              (entry.1, default "" (head entry.2)))
             <$> ExtractPapers.author_papers st).*1
          = (ExtractPapers.author_papers st).*1) as Hkeys.
  { rewrite <-list_fmap_compose. by apply list_fmap_ext. }
  exists (ExtractPapers.found_entities st),
    ((λ entry, (entry.1, default "" (head entry.2)))
       <$> ExtractPapers.author_papers st).
  rewrite Hkeys. split_and!.
  - f_equal. rewrite <-list_fmap_compose.
    apply Forall_fmap_ext_1. rewrite Forall_forall in Hone.
    apply Forall_forall. intros [a ts] Hin. specialize (Hone _ Hin).
    destruct ts as [|t [|? ?]]; done.
  - by apply Forall_forall.
  - done.
  - intros author title (entry & [= -> ->] & Hin)%list_elem_of_fmap.
    destruct (Hnoted entry Hin) as (p & Hp & Ha & Hne & Ht).
    split_and!; [done| |].
    + intros Hm. apply (Hdisj _ Hm).
      by apply (list_elem_of_fmap_2 fst) in Hin.
    + exists p. rewrite Ht. done.
  - intros p author Hp Ha Hne. specialize (Hall p author Hp Ha Hne).
    apply Hseen in Hall. tauto.
Qed.

Section ProcessEvents.
Context (potential_models_of : string → list string).
Context (str_prefix : nat → string → string).

(** The publication event of a paper, if it has one. *)
Lemma note_event_found p st :
  ExtractPapers.found_events (ExtractPapers.note_event p st)
  = ExtractPapers.found_events st
    ++ ExtractPapers.found_events
         (ExtractPapers.note_event p (ExtractPapers.mkProgress [] [] ∅ [])).
Proof.
  unfold ExtractPapers.note_event.
  destruct (ExtractPapers.extract_year_from_url _);
    [|by rewrite app_nil_r].
  destruct (_ && _); [done|by rewrite app_nil_r].
Qed.

Lemma note_authors_found title st authors :
  ExtractPapers.found_events
    (foldl (ExtractPapers.note_author title) st authors)
  = ExtractPapers.found_events st.
Proof.
  revert st. induction authors as [|a authors IH]; intros st; [done|].
  simpl. rewrite IH. unfold ExtractPapers.note_author.
  by case_bool_decide.
Qed.

Lemma note_models_found p text st models :
  ExtractPapers.found_events
    (foldl (ExtractPapers.note_model str_prefix p text) st models)
  = ExtractPapers.found_events st.
Proof.
  revert st. induction models as [|m models IH]; intros st; [done|].
  simpl. rewrite IH. unfold ExtractPapers.note_model.
  case_bool_decide; [|done]. by destruct (decide _).
Qed.

Lemma process_found_events (papers : list EnhanceExtraction.Paper) st :
  ExtractPapers.found_events
    (foldl (ExtractPapers.process_paper potential_models_of str_prefix)
       st papers)
  = ExtractPapers.found_events st
    ++ (papers ≫= λ p,
          ExtractPapers.found_events
            (ExtractPapers.note_event p
               (ExtractPapers.mkProgress [] [] ∅ []))).
Proof.
  revert st. induction papers as [|p papers IH]; intros st.
  { by rewrite app_nil_r. }
  cbn [foldl]. rewrite IH, bind_cons, app_assoc. f_equal.
  unfold ExtractPapers.process_paper.
  by rewrite note_models_found, note_event_found, note_authors_found.
Qed.

End ProcessEvents.

(** C2. Key uniqueness is lost by [extract_papers.main].  The store is
    empty and the collection has fifty papers of the category "cs.AI" and
    fifty of a category spelt "cs-AI": the two category milestones get
    the same id, as the id replaces the dot by a hyphen, and the run
    writes both back, so two events of the written store share an id.
    The merge of [enhance_extraction.main], given the same store and
    candidates, writes a store whose keys are pairwise distinct. *)
Theorem key_uniqueness_lost_by_extract_papers
    (potential_models_of : string → list string)
    (str_prefix : nat → string → string) :
  let store := mkStore [] [] in
  let candidates :=
    ExtractPapers.process_papers_to_entities_and_events
      potential_models_of str_prefix clash_papers in
  let written :=
    ExtractPapers.run potential_models_of str_prefix clash_papers store in
  unique_keys store ∧
  id <$> events written
  = ["2024-category-milestone-cs-AI"; "2024-category-milestone-cs-AI"] ∧
  ¬ unique_keys written ∧
  unique_keys (EnhanceExtraction.main store candidates.1 candidates.2).
Proof.
  intros store candidates written.
  assert (unique_keys store) as Hstore by (split; constructor).
  assert (candidates.2
          = [mkEvent "2024-category-milestone-cs-AI" "2024-01-01T00:00:00Z"
               "Research milestone: 50 papers in cs.AI category demonstrating significant activity in this field"
               "research-milestone";
             mkEvent "2024-category-milestone-cs-AI" "2024-01-01T00:00:00Z"
               "Research milestone: 50 papers in cs-AI category demonstrating significant activity in this field"
               "research-milestone"]) as Hcand.
  { unfold candidates, ExtractPapers.process_papers_to_entities_and_events.
    cbn [snd]. rewrite process_found_events. by vm_compute. }
  assert (id <$> events written
          = ["2024-category-milestone-cs-AI";
             "2024-category-milestone-cs-AI"]) as Hids.
  { unfold written, ExtractPapers.run. fold candidates.
    destruct candidates as [new_entities new_events]. cbn [snd] in Hcand.
    subst new_events. by vm_compute. }
  split_and!; [done..| |].
  - intros [_ Hnd]. rewrite Hids in Hnd.
    apply NoDup_cons in Hnd as [Hnd _]. apply Hnd. by left.
  - destruct Hstore as [Hn Hi]. split; simpl.
    + rewrite sort_by_key_perm. by apply merge_unique_NoDup.
    + rewrite sort_by_key_reverse_perm. by apply merge_unique_NoDup.
Qed.

Lemma get_after (a b : string) (k : nat) :
  String.get (String.length a + k) (a +:+ b) = String.get k b.
Proof. induction a as [|c a IH]; [done|]. by rewrite append_cons. Qed.

Lemma paper_event_id (p : EnhanceExtraction.Paper) (e : Event) :
  e ∈ ExtractPapers.found_events
        (ExtractPapers.note_event p (ExtractPapers.mkProgress [] [] ∅ [])) →
  ∃ y, 2000 ≤ y ≤ 2099 ∧
       id e = Py.str_of_nat y +:+ "-paper-" +:+
              EnhanceExtraction.str (EnhanceExtraction.paper_id p).
Proof.
  unfold ExtractPapers.note_event.
  destruct (ExtractPapers.extract_year_from_url _) as [y|] eqn:Hy;
    [|by intros ?%elem_of_nil].
  rewrite extract_year_same in Hy. apply extract_year_range in Hy.
  destruct (_ && _); [|by intros ?%elem_of_nil].
  intros ->%list_elem_of_singleton. eauto.
Qed.

(** X27. The ids of the events of
    [process_papers_to_entities_and_events]: the events are the
    publication events followed by the category milestones; when the
    points have pairwise distinct ids, so have the publication events,
    as the whole id is kept; and a publication event never shares its id
    with a category milestone. *)
Theorem process_event_ids (potential_models_of : string → list string)
    (str_prefix : nat → string → string)
    (papers : list EnhanceExtraction.Paper) :
  ∃ publications,
    (ExtractPapers.process_papers_to_entities_and_events
       potential_models_of str_prefix papers).2
    = publications
      ++ ExtractPapers.category_events (ExtractPapers.category_counts papers) ∧
    (NoDup ((λ p, EnhanceExtraction.str (EnhanceExtraction.paper_id p))
              <$> papers) →
     NoDup (id <$> publications)) ∧
    (∀ e e', e ∈ publications →
       e' ∈ ExtractPapers.category_events
              (ExtractPapers.category_counts papers) →
       id e ≠ id e').
Proof.
  unfold ExtractPapers.process_papers_to_entities_and_events. simpl.
  rewrite process_found_events. simpl. eexists. split; [done|]. split.
  - generalize papers. intros l.
    induction l as [|p l IH]; intros Hnd; [constructor|].
    rewrite fmap_cons in Hnd. apply NoDup_cons in Hnd as [Hp Hnd].
    rewrite bind_cons, fmap_app. apply NoDup_app. split_and!; [| |by apply IH].
    + unfold ExtractPapers.note_event.
      destruct (ExtractPapers.extract_year_from_url _); [|constructor].
      destruct (_ && _); [apply NoDup_singleton|constructor].
    + intros k (e & -> & He)%list_elem_of_fmap
        (e' & Heq & (q & He' & Hq)%list_elem_of_bind)%list_elem_of_fmap.
      apply paper_event_id in He as (y & Hy & Hid).
      apply paper_event_id in He' as (y' & Hy' & Hid').
      rewrite Hid, Hid' in Heq.
      apply append_same_length in Heq as [_ Heq].
      * apply (inj (String.append "-paper-")) in Heq.
        apply Hp. rewrite Heq.
        apply (list_elem_of_fmap_2
                 (λ p, EnhanceExtraction.str (EnhanceExtraction.paper_id p))
                 l q Hq).
      * pose proof (year_len y Hy). pose proof (year_len y' Hy').
        unfold Py.len in *. congruence.
  - intros e e' (p & He & _)%list_elem_of_bind
      (category & n & _ & _ & ->)%over_threshold_spec Heq.
    apply paper_event_id in He as (y & Hy & Hid).
    assert (String.get 5 (id e) = Some "p"%char) as Hget.
    { rewrite Hid. pose proof (year_len y Hy) as Hlen. unfold Py.len in Hlen.
      change 5 with (4 + 1). rewrite <-Hlen. by rewrite get_after. }
    by rewrite Heq in Hget.
Qed.

Lemma process_event_ids_witness :
  let papers :=
    [EnhanceExtraction.mkPaper (EnhanceExtraction.IdInt 1234567890)
       "First" [] [] "" "https://arxiv.org/abs/2502.19614";
     EnhanceExtraction.mkPaper (EnhanceExtraction.IdInt 1234567899)
       "Second" [] [] "" "https://arxiv.org/abs/2503.00001"] in
  NoDup (id <$>
    (ExtractPapers.process_papers_to_entities_and_events (λ _, [])
       Py.take_str papers).2).
Proof.
  intros papers.
  destruct (process_event_ids (λ _, []) Py.take_str papers)
    as (publications & Heq & Hnd & _).
  rewrite Heq. change (ExtractPapers.category_events _) with (@nil Event).
  rewrite app_nil_r. apply Hnd. by_computation.
Defined.

(** X28. Category milestones: a milestone is emitted for a category
    exactly when the category stands at least 50 times in the category
    lists of the papers, and it states that number. *)
Theorem category_events_spec (papers : list EnhanceExtraction.Paper)
    (e : Event) :
  let listed category :=
    length (filter (λ c, c = category)
              (papers ≫= EnhanceExtraction.categories)) in
  e ∈ ExtractPapers.category_events (ExtractPapers.category_counts papers)
  ↔ ∃ category, 50 ≤ listed category ∧
                e = ExtractPapers.category_event category (listed category).
Proof.
  intros listed. unfold ExtractPapers.category_events.
  rewrite (over_threshold_spec 50 ExtractPapers.category_event).
  assert (NoDup (ExtractPapers.category_counts papers).*1) as Hnd.
  { apply fold_NoDup. constructor. }
  assert (∀ c, Py.counter_get c (ExtractPapers.category_counts papers)
               = listed c) as Hget.
  { intros c. unfold ExtractPapers.category_counts.
    by rewrite counter_get_fold. }
  split.
  - intros (c & n & Hin & Hn & ->). exists c.
    apply counter_entry_get in Hin; [|done]. rewrite Hget in Hin.
    by subst n.
  - intros (c & Hn & ->). exists c, (listed c). split_and!; [|done..].
    rewrite <-Hget. apply counter_key_entry.
    rewrite <-Hget in Hn. clear -Hn.
    induction (ExtractPapers.category_counts papers) as [|[k0 n0] stats IH];
      simpl in *; [lia|].
    destruct (decide (c = k0)) as [->|]; [by left|]. right. by apply IH.
Qed.
